(** * Ankh-Aten: registry, loaders, metrics and the self-improvement loop

    A shallow embedding of [ankh_aten/metrics.py], [ankh_aten/registry.py],
    [ankh_aten/loaders/*.py], [ankh_aten/self_improve/loop.py] and of the
    phi-smoothing functions of [backend/app/recursive_phi.py]; further on,
    of [ankh_aten/cli.py], [ankh_aten/self_improve/skills.py] and of the
    scoring copies and validators of [backend/app].

    Conventions of the embedding:
    - a Python [float] is a real number ([R]) in the modules of the first
      part: arithmetic is exact, rounding and overflow are not modelled;
      the modules [Binary64] to [Duality64] embed the smoothing functions
      again on IEEE 754 binary64, every operation rounded, for the
      statements that depend on rounding or on the range of the floats;
    - a Python [int] is a [Z];
    - a Python exception is the [Raise] alternative of [result];
    - a [dict] used as a table (the registry) is a [gmap]; a [dict] used as
      a JSON-like document is an association list inside [value];
    - the interpreter services the code calls (file system, YAML decoder,
      module table, clock, random generator) are explicit records. *)

From Stdlib Require Import Reals Lra Lia ZArith Ascii.
From Stdlib Require Import QArith Qround Qabs Qpower Qcanon.
From Stdlib Require Lqa PrimFloat SpecFloat FloatOps.
From stdpp Require Import gmap strings list.
From Equations Require Import Equations.

(** ** metrics.py *)

Module Metrics.
Local Open Scope R_scope.

(** [P = 1.618033988749895] *)
Definition P : R := 1.618033988749895.

(** [S = 1.0]  (the source's name [S] is the successor of [nat] here) *)
Definition S_ : R := 1.0.

(** [TH = 0.9777] *)
Definition TH : R := 0.9777.

(** A [datetime] is an instant, counted in microseconds from the epoch. *)
Definition datetime := Z.

(** [O = datetime(2025, 12, 25, tzinfo=timezone.utc)] *)
Definition O_ : datetime := 1766620800000000%Z.

(** [(a - b).total_seconds()] *)
Definition total_seconds (a b : datetime) : R := IZR (a - b) / 1000000.

(** [I = (85, 62, 65, 78, 100, 100, 100, 100, 100, 95, 100, 100)] *)
Definition I_ : list Z :=
  [85; 62; 65; 78; 100; 100; 100; 100; 100; 95; 100; 100]%Z.

(** [sum(l)] and [len(l)] *)
Definition sum (l : list Z) : Z := foldr Z.add 0%Z l.
Definition len {A} (l : list A) : Z := Z.of_nat (length l).

(** [x ** y] on floats, for a base [x >= 0] and an exponent [y > 0]:
    [0.0 ** y] is [0.0]. (Python answers a complex number for a negative
    base and a fractional exponent; every base below is non-negative.) *)
Definition float_pow (x y : R) : R :=
  if Req_dec_T x 0 then 0 else Rpower x y.

(** [def ps(x, n=3)] *)
Definition ps (x : R) (n : Z) : R :=
  let x := Rmax 0 (Rmin 1 x) in
  Rmax 0 (Rmin 1 (1 - (1 - x) / powerRZ P n)).

(** [def rd(p, t=0.998, c=0.999, d=0.00023)] *)
Definition rd (p t c d : R) : R :=
  S_ * ps (float_pow p 0.5) 3 * ps (float_pow t 0.3) 3
     * ps (float_pow c 0.2) 3 * (1 - d).

(** [rd(p)] with the defaults of [t], [c] and [d]. *)
Definition rd_default (p : R) : R := rd p 0.998 0.999 0.00023.

(** The dictionary [snapshot] returns, with its keys ["t"], ["d"], ["a"],
    ["r"], ["g"]. The timestamp is kept as the instant itself. *)
Record Snapshot := {
  snap_t : datetime;
  snap_d : R;
  snap_a : R;
  snap_r : R;
  snap_g : Z
}.

(** [int(r >= th)] *)
Definition int_ge (r th : R) : Z := if Rle_dec th r then 1%Z else 0%Z.

(** [def snapshot(now=None)]; [clock] is what [datetime.now(timezone.utc)]
    answers when [now] is [None]. *)
Definition snapshot (now : option datetime) (clock : datetime) : Snapshot :=
  let n := match now with Some t => t | None => clock end in
  let d := Rmax 0 (total_seconds O_ n / 86400) in
  let a := IZR (sum I_) / IZR (100 * len I_) in
  let r := rd_default a in
  {| snap_t := n; snap_d := d; snap_a := a * 100; snap_r := r;
     snap_g := int_ge r TH |}.

(** [def pack(values)], for a list of floats *)
Definition pack (values : list R) : R :=
  match values with
  | [] => 0
  | _ =>
      let result := fold_left (fun result v => result * ps v 3) values 1 in
      ps (float_pow result (1 / IZR (len values))) 3
  end.

End Metrics.

(** ** backend/app/recursive_phi.py *)

Module RecursivePhi.
Local Open Scope R_scope.

(** [PHI = 1.618033988749895]  (backend/app/constants.py) *)
Definition PHI : R := 1.618033988749895.

(** [max(0.0, min(1.0, float(x)))] *)
Definition clamp (x : R) : R := Rmax 0 (Rmin 1 x).

(** [def phi_smooth_recursive(x, n=3)] *)
Equations? phi_smooth_recursive (x : R) (n : Z) : R by wf (Z.to_nat n) lt :=
  phi_smooth_recursive x n with Z_le_gt_dec n 0 => {
    | left _ => clamp x
    | right _ => phi_smooth_recursive (1 - (1 - clamp x) / PHI) (n - 1) }.
Proof. lia. Qed.

(** [def phi_smooth_iterative(x, n=3)]: [range(n)] is empty for [n <= 0]. *)
Definition phi_smooth_iterative (x : R) (n : Z) : R :=
  let x := clamp x in
  let x := Nat.iter (Z.to_nat n) (fun x => 1 - (1 - x) / PHI) x in
  clamp x.

(** [def phi_smooth_lambda(x, n=3)]: the local recursive lambda [ps] *)
Equations? lambda_ps (v : R) (depth : Z) : R by wf (Z.to_nat depth) lt :=
  lambda_ps v depth with Z_le_gt_dec depth 0 => {
    | left _ => Rmax 0 (Rmin 1 v)
    | right _ =>
        lambda_ps (1 - (1 - Rmax 0 (Rmin 1 v)) / PHI) (depth - 1) }.
Proof. lia. Qed.

Definition phi_smooth_lambda (x : R) (n : Z) : R := lambda_ps x n.

(** [def phi_smooth_nested(x, outer=3, inner=2)] *)
Definition phi_smooth_nested (x : R) (outer inner : Z) : R :=
  let x := phi_smooth_recursive x inner in
  phi_smooth_recursive x outer.

(** [def phi_smooth_cascade(values, n=3)] *)
Definition phi_smooth_cascade (values : list R) (n : Z) : list R :=
  (fun v => phi_smooth_recursive v n) <$> values.

(** The [for _ in range(max_depth)] loop of [phi_convergence_trace]. *)
Fixpoint trace_loop (k : nat) (current : R) (trace : list R) : list R :=
  match k with
  | O => trace
  | S k' =>
      let current := 1 - (1 - current) / PHI in
      let current := clamp current in
      trace_loop k' current (trace ++ [current])
  end.

(** [def phi_convergence_trace(x, max_depth=10)] *)
Definition phi_convergence_trace (x : R) (max_depth : Z) : list R :=
  let current := clamp x in
  trace_loop (Z.to_nat max_depth) current [current].

(** [def phi_smooth_product(values, n=3)] *)
Definition phi_smooth_product (values : list R) (n : Z) : R :=
  let smoothed := (fun v => phi_smooth_recursive v n) <$> values in
  let product := fold_left (fun product v => product * v) smoothed 1 in
  phi_smooth_recursive product n.

End RecursivePhi.

(** ** Python values, exceptions and results *)

Module Py.

Set Warnings "-register-all".

(** JSON-like documents, as [yaml.safe_load] and [json.loads] build them;
    [VObject] is any other Python object, known by its identity. *)
Inductive value :=
  | VNone
  | VBool (b : bool)
  | VInt (z : Z)
  | VFloat (x : R)
  | VStr (s : string)
  | VList (l : list value)
  | VDict (d : list (string * value))
  | VObject (id : nat).

Inductive exn_class :=
  | KeyError | ValueError | TypeError | AttributeError
  | ImportError | ModuleNotFoundError
  | NotImplementedError
  | OSError | IsADirectoryError
  | YAMLError
  | RuntimeError.

(** An exception instance: its class and its argument. *)
Record exn := Exn { exn_cls : exn_class; exn_arg : string }.

Definition exn_class_eqb (c d : exn_class) : bool :=
  match c, d with
  | KeyError, KeyError | ValueError, ValueError | TypeError, TypeError
  | AttributeError, AttributeError | ImportError, ImportError
  | ModuleNotFoundError, ModuleNotFoundError
  | NotImplementedError, NotImplementedError
  | OSError, OSError | IsADirectoryError, IsADirectoryError
  | YAMLError, YAMLError | RuntimeError, RuntimeError => true
  | _, _ => false
  end.

(** [issubclass(c, d)] on the classes above. *)
Definition issubclass (c d : exn_class) : bool :=
  exn_class_eqb c d ||
  match c, d with
  | ModuleNotFoundError, ImportError => true
  | IsADirectoryError, OSError => true
  | _, _ => false
  end.

(** [except (d1, ..., dn)] catches [e]. *)
Definition caught (e : exn) (ds : list exn_class) : bool :=
  existsb (issubclass (exn_cls e)) ds.

(** [str(e)]: a [KeyError] shows the [repr] of its key. *)
Definition str_exn (e : exn) : string :=
  match exn_cls e with
  | KeyError => "'" +:+ exn_arg e +:+ "'"
  | _ => exn_arg e
  end.

Inductive result (A : Type) :=
  | Ok (a : A)
  | Raise (e : exn).
Arguments Ok {A} a.
Arguments Raise {A} e.

#[global] Instance result_ret : MRet result := fun A a => Ok a.
#[global] Instance result_bind : MBind result := fun A B f m =>
  match m with
  | Ok a => f a
  | Raise e => Raise e
  end.

(** [d[k]] of an association list: the first binding of [k]. *)
Fixpoint assoc (d : list (string * value)) (k : string) : option value :=
  match d with
  | [] => None
  | (k', v) :: rest => if String.eqb k' k then Some v else assoc rest k
  end.

(** [conf.get(k, default)]: only a [dict] has the method. *)
Definition get (conf : value) (k : string) (default : value) : result value :=
  match conf with
  | VDict d => Ok (match assoc d k with Some v => v | None => default end)
  | _ => Raise (Exn AttributeError "object has no attribute 'get'")
  end.

(** Truth value of an object, as [if not v] tests it. *)
Definition truthy (v : value) : bool :=
  match v with
  | VNone => false
  | VBool b => b
  | VInt z => negb (z =? 0)%Z
  | VFloat x => if Req_dec_T x 0 then false else true
  | VStr s => negb (String.eqb s "")
  | VList l => match l with [] => false | _ => true end
  | VDict d => match d with [] => false | _ => true end
  | VObject _ => true
  end.

(** [s.rsplit(".", 1)]: cut at the last dot, when there is one. *)
Fixpoint cut_last_dot (s : string) : option (string * string) :=
  match s with
  | EmptyString => None
  | String c rest =>
      match cut_last_dot rest with
      | Some (a, b) => Some (String c a, b)
      | None => if Ascii.eqb c "."%char then Some (EmptyString, rest) else None
      end
  end.

Definition rsplit_dot (s : string) : list string :=
  match cut_last_dot s with
  | Some (a, b) => [a; b]
  | None => [s]
  end.

(** [v.rsplit(".", 1)] on any object: only a [str] has the method. *)
Definition rsplit (v : value) : result (list string) :=
  match v with
  | VStr s => Ok (rsplit_dot s)
  | _ => Raise (Exn AttributeError "object has no attribute 'rsplit'")
  end.

(** [a, b = parts] *)
Definition unpack2 (parts : list string) : result (string * string) :=
  match parts with
  | [a; b] => Ok (a, b)
  | [] =>
      Raise (Exn ValueError "not enough values to unpack (expected 2, got 0)")
  | [_] =>
      Raise (Exn ValueError "not enough values to unpack (expected 2, got 1)")
  | _ => Raise (Exn ValueError "too many values to unpack (expected 2)")
  end.

End Py.

(** ** registry.py and the services of the interpreter *)

Module Registry.
Import Py.

(** [class Component] *)
Record Component := {
  uid : string;
  kind : string;
  conf : value
}.

(** What the code asks of its environment: the file system behind
    [pathlib], the YAML decoder, and the module table behind
    [import_module], [getattr] and calls. *)
Record World := {
  (** [str(Path(s))] *)
  path_str : string -> string;
  (** [p.exists()] *)
  path_exists : string -> bool;
  (** [str(Path.cwd() / p)] *)
  cwd_join : string -> string;
  (** [p.read_text()] *)
  read_text : string -> result string;
  (** [yaml.safe_load(text)] *)
  safe_load : string -> result value;
  (** [import_module(name)] *)
  import_module : string -> result value;
  (** [getattr(obj, name)] *)
  getattr : value -> string -> result value;
  (** a call of [f] with positional and keyword arguments *)
  call : value -> list value -> list (string * value) -> result value;
  (** [L(c).build()] for a class object [L] *)
  new_build : value -> Component -> result value
}.

(** [class Registry]: the two tables of [__init__]. *)
Record Registry := {
  components : gmap string Component;
  loaders : gmap string string
}.

(** [Registry()] *)
Definition init : Registry := {| components := ∅; loaders := ∅ |}.

(** [def use(self, kind, loader)] *)
Definition use (self : Registry) (kind loader : string) : Registry :=
  {| components := components self;
     loaders := <[kind := loader]> (loaders self) |}.

(** One record of the manifest's ["components"] list, seen through the
    three keys the code reads; [None] is an absent key. The keys ["id"]
    and ["kind"] hold strings when present. *)
Record row := {
  row_id : option string;
  row_kind : option string;
  row_config : option value
}.

(** [row[k]] *)
Definition subscript (field : option string) (k : string) : result string :=
  match field with
  | Some s => Ok s
  | None => Raise (Exn KeyError k)
  end.

(** [Component(row["id"], row["kind"], row.get("config", {}))] *)
Definition component_of_row (r : row) : result Component :=
  i ← subscript (row_id r) "id";
  k ← subscript (row_kind r) "kind";
  mret {| uid := i; kind := k;
          conf := default (VDict []) (row_config r) |}.

(** [def register_manifest(self, path)], from the decoded
    [data.get("components", [])] on: the loop stops at the first exception
    and keeps what it has stored so far. *)
Fixpoint register_manifest (self : Registry) (rows : list row)
  : result unit * Registry :=
  match rows with
  | [] => (Ok tt, self)
  | r :: rest =>
      match component_of_row r with
      | Raise e => (Raise e, self)
      | Ok c =>
          register_manifest
            {| components := <[uid c := c]> (components self);
               loaders := loaders self |} rest
      end
  end.

(** [def materialize(self, uid)] *)
Definition materialize (w : World) (self : Registry) (u : string)
  : result value :=
  c ← match components self !! u with
      | Some c => Ok c
      | None => Raise (Exn KeyError u)
      end;
  Lpath ← match loaders self !! kind c with
          | Some p => Ok p
          | None => Raise (Exn KeyError (kind c))
          end;
  '(modpath, clsname) ← unpack2 (rsplit_dot Lpath);
  m ← import_module w modpath;
  L ← getattr w m clsname;
  new_build w L c.

(** [def list_components(self)] (the order of insertion is not kept by
    the table of the model) *)
Definition list_components (self : Registry) : list string :=
  (map_to_list (components self)).*1.

(** [def component_count(self)] *)
Definition component_count (self : Registry) : Z :=
  Z.of_nat (size (components self)).

End Registry.

(** ** loaders/base.py, loaders/yaml_loader.py, loaders/python_loader.py *)

Module BaseLoader.
Import Py Registry.

(** [def build(self)] *)
Definition build (c : Component) : result value :=
  Raise (Exn NotImplementedError "BaseLoader must implement build()").

End BaseLoader.

Module YamlLoader.
Import Py Registry.

(** [Path(v)]: a [str] is accepted. *)
Definition Path (w : World) (v : value) : result string :=
  match v with
  | VStr s => Ok (path_str w s)
  | _ => Raise (Exn TypeError "expected str, bytes or os.PathLike object")
  end.

(** [def build(self)] *)
Definition build (w : World) (c : Component) : result value :=
  p ← get (conf c) "path" (VStr "");
  yaml_path ← Path w p;
  let yaml_path :=
    if path_exists w yaml_path then yaml_path else cwd_join w yaml_path in
  if negb (path_exists w yaml_path) then
    Ok (VDict [("error", VStr ("YAML file not found: " +:+ yaml_path));
               ("component", VStr (uid c));
               ("kind", VStr "yaml");
               ("config", conf c)])
  else
    match read_text w yaml_path ≫= safe_load w with
    | Ok data =>
        Ok (VDict [("component", VStr (uid c));
                   ("kind", VStr "yaml");
                   ("data", data);
                   ("source", VStr yaml_path)])
    | Raise e =>
        if caught e [YAMLError] then
          Ok (VDict [("error", VStr ("YAML parsing error: " +:+ str_exn e));
                     ("component", VStr (uid c));
                     ("kind", VStr "yaml");
                     ("source", VStr yaml_path)])
        else Raise e
    end.

End YamlLoader.

Module PythonLoader.
Import Py Registry.

(** Keyword-argument unpacking: the unpacked object must be a mapping. *)
Definition as_kwargs (v : value) : result (list (string * value)) :=
  match v with
  | VDict d => Ok d
  | _ => Raise (Exn TypeError "argument after ** must be a mapping")
  end.

(** The body of the [try] block. *)
Definition try_body (w : World) (c : Component)
    (factory_path args kwargs : value) : result value :=
  parts ← rsplit factory_path;
  '(modpath, funcname) ← unpack2 parts;
  mod_ ← import_module w modpath;
  factory ← getattr w mod_ funcname;
  result ←
    match args with
    | VDict d => call w factory [] d
    | VList l => kw ← as_kwargs kwargs; call w factory l kw
    | _ => kw ← as_kwargs kwargs; call w factory [args] kw
    end;
  mret (VDict [("component", VStr (uid c));
               ("kind", VStr "python");
               ("factory", factory_path);
               ("result", result)]).

(** [def build(self)] *)
Definition build (w : World) (c : Component) : result value :=
  factory_path ← get (conf c) "factory" (VStr "");
  args ← get (conf c) "args" (VDict []);
  kwargs ← get (conf c) "kwargs" (VDict []);
  if negb (truthy factory_path) then
    Ok (VDict [("error", VStr "No factory path specified");
               ("component", VStr (uid c));
               ("kind", VStr "python")])
  else
    match try_body w c factory_path args kwargs with
    | Ok r => Ok r
    | Raise e =>
        if caught e [ImportError; AttributeError; TypeError] then
          Ok (VDict [("error",
                       VStr ("Python factory error: " +:+ str_exn e));
                     ("component", VStr (uid c));
                     ("kind", VStr "python");
                     ("factory", factory_path)])
        else Raise e
    end.

End PythonLoader.

(** ** self_improve/loop.py *)

Module Loop.
Import Metrics Registry.
Local Open Scope R_scope.

(** [POLICIES] *)
Record Policies := {
  min_gate : R;
  experiments_per_cycle : Z;
  rollforward_threshold : R
}.

Definition POLICIES : Policies :=
  {| min_gate := 0.9777;
     experiments_per_cycle := 3;
     rollforward_threshold := 0.002 |}.

(** An experiment of [plan] and its outcome in [act]. *)
Record Experiment := {
  exp_type : string;
  exp_description : string;
  expected_gain : R
}.

Record ExperimentResult := {
  res_type : string;
  res_description : string;
  executed : bool;
  actual_gain : R
}.

(** The summary [learn] returns and logs. *)
Record LearnSummary := {
  r_before : R;
  r_after : R;
  r_gain : R;
  kept : Z;
  rejected : Z;
  learn_improvements : Z
}.

(** The ["data"] of an audit event, by phase. *)
Inductive event_data :=
  | ReflectData (r_dod awareness : R) (gate_status : Z)
                (days_to_omega : R) (n_components : Z)
  | PlanData (gate_needed : R) (experiments : Z)
             (experiment_types : list string)
  | ActData (result : ExperimentResult)
  | LearnData (summary : LearnSummary).

(** One line of the log file. *)
Record Event := {
  timestamp : datetime;
  cycle : Z;
  type : string;
  data : event_data
}.

(** The loop object together with what it acts on: the log file, as the
    list of its lines, and the numbers of readings taken so far from the
    clock and from the random generator. *)
Record State := {
  registry : Registry;
  cycle_count : Z;
  total_experiments : Z;
  improvements : Z;
  log : list Event;
  ticks : nat;
  draws : nat
}.

(** [SelfImprovementLoop(registry)] on an empty log. *)
Definition init (reg : Registry) : State :=
  {| registry := reg; cycle_count := 0; total_experiments := 0;
     improvements := 0; log := []; ticks := 0; draws := 0 |}.

(** What [run_cycle] and [run] return. *)
Record CycleSummary := {
  cs_cycle : Z;
  cs_experiments : Z;
  cs_r_gain : R;
  cs_improvements : Z
}.

Record RunSummary := {
  rs_cycles : Z;
  rs_total_experiments : Z;
  rs_improvements : Z;
  rs_final_r_dod : R
}.

(** Methods are state transformers. *)
Definition M (A : Type) : Type := State -> A * State.

#[global] Instance M_ret : MRet M := fun A a st => (a, st).
#[global] Instance M_bind : MBind M := fun A B f m st =>
  f (m st).1 (m st).2.

(** Reading an attribute of [self], and assigning to one. *)
Definition gets {A} (f : State -> A) : M A := fun st => (f st, st).
Definition modify (f : State -> State) : M unit := fun st => (tt, f st).

Definition set_cycle_count (z : Z) (st : State) : State :=
  {| registry := registry st; cycle_count := z;
     total_experiments := total_experiments st;
     improvements := improvements st; log := log st;
     ticks := ticks st; draws := draws st |}.

Definition set_total_experiments (z : Z) (st : State) : State :=
  {| registry := registry st; cycle_count := cycle_count st;
     total_experiments := z;
     improvements := improvements st; log := log st;
     ticks := ticks st; draws := draws st |}.

Definition set_improvements (z : Z) (st : State) : State :=
  {| registry := registry st; cycle_count := cycle_count st;
     total_experiments := total_experiments st;
     improvements := z; log := log st;
     ticks := ticks st; draws := draws st |}.

Definition set_log (l : list Event) (st : State) : State :=
  {| registry := registry st; cycle_count := cycle_count st;
     total_experiments := total_experiments st;
     improvements := improvements st; log := l;
     ticks := ticks st; draws := draws st |}.

Definition set_ticks (n : nat) (st : State) : State :=
  {| registry := registry st; cycle_count := cycle_count st;
     total_experiments := total_experiments st;
     improvements := improvements st; log := log st;
     ticks := n; draws := draws st |}.

Definition set_draws (n : nat) (st : State) : State :=
  {| registry := registry st; cycle_count := cycle_count st;
     total_experiments := total_experiments st;
     improvements := improvements st; log := log st;
     ticks := ticks st; draws := n |}.

(** [l[:k]] *)
Definition slice_to {A} (l : list A) (k : Z) : list A :=
  if (k <? 0)%Z then take (length l - Z.to_nat (- k)) l
  else take (Z.to_nat k) l.

Section Methods.

(** [clock k] is the answer of the [k]-th call of [datetime.now], and
    [random k] that of the [k]-th call of [random.random]. *)
Variable clock : nat -> datetime.
Variable random : nat -> R.

(** [datetime.now(timezone.utc)] *)
Definition now : M datetime :=
  k ← gets ticks;
  _ ← modify (set_ticks (S k));
  mret (clock k).

(** [random.uniform(a, b)] *)
Definition uniform (a b : R) : M R :=
  k ← gets draws;
  _ ← modify (set_draws (S k));
  mret (a + (b - a) * random k).

(** [snapshot()] *)
Definition snapshot : M Snapshot :=
  t ← now; mret (Metrics.snapshot None t).

(** [def log_event(self, event_type, data)] *)
Definition log_event (event_type : string) (d : event_data) : M unit :=
  t ← now;
  c ← gets cycle_count;
  let event := {| timestamp := t; cycle := c;
                  type := event_type; data := d |} in
  lines ← gets log;
  modify (set_log (lines ++ [event])).

(** [def reflect(self)] *)
Definition reflect : M Snapshot :=
  snap ← snapshot;
  n ← gets (fun st => component_count (registry st));
  _ ← log_event "reflect"
        (ReflectData (snap_r snap) (snap_a snap) (snap_g snap)
                     (snap_d snap) n);
  mret snap.

Definition below_gate_experiments : list Experiment :=
  [ {| exp_type := "expand_manifest";
       exp_description := "Add high-value components to manifest";
       expected_gain := 0.003 |};
    {| exp_type := "optimize_loaders";
       exp_description := "Tune loader performance and caching";
       expected_gain := 0.002 |};
    {| exp_type := "refine_metrics";
       exp_description := "Adjust phi-scaling parameters";
       expected_gain := 0.001 |} ].

Definition above_gate_experiments : list Experiment :=
  [ {| exp_type := "discover_components";
       exp_description := "Search for new quantum-coherent components";
       expected_gain := 0.002 |};
    {| exp_type := "tune_awareness";
       exp_description := "Balance integration vector dimensions";
       expected_gain := 0.001 |};
    {| exp_type := "cache_optimization";
       exp_description := "Implement component materialization cache";
       expected_gain := 0.001 |} ].

(** [def plan(self, snap)] *)
Definition plan (snap : Snapshot) : M (list Experiment) :=
  let r_current := snap_r snap in
  let gate_needed := min_gate POLICIES - r_current in
  let experiments :=
    if Rlt_dec r_current (min_gate POLICIES)
    then below_gate_experiments
    else above_gate_experiments in
  let experiments :=
    slice_to experiments (experiments_per_cycle POLICIES) in
  _ ← log_event "plan"
        (PlanData (Rmax 0 gate_needed) (len experiments)
                  (exp_type <$> experiments));
  mret experiments.

(** [def act(self, experiments)]: the loop over the experiments. *)
Fixpoint act (experiments : list Experiment) : M (list ExperimentResult) :=
  match experiments with
  | [] => mret []
  | exp :: rest =>
      g ← uniform 0 (expected_gain exp * 1.5);
      let result := {| res_type := exp_type exp;
                       res_description := exp_description exp;
                       executed := true;
                       actual_gain := g |} in
      _ ← log_event "act" (ActData result);
      results ← act rest;
      mret (result :: results)
  end.

(** The loop of [learn]: the lists [kept] and [rejected], and the
    counter [self.improvements]. *)
Fixpoint sort_results (results kept rejected : list ExperimentResult)
  : M (list ExperimentResult * list ExperimentResult) :=
  match results with
  | [] => mret (kept, rejected)
  | result :: rest =>
      if Rle_dec (rollforward_threshold POLICIES) (actual_gain result)
      then
        i ← gets improvements;
        _ ← modify (set_improvements (i + 1));
        sort_results rest (kept ++ [result]) rejected
      else sort_results rest kept (rejected ++ [result])
  end.

(** [def learn(self, results, snap_before)] *)
Definition learn (results : list ExperimentResult) (snap_before : Snapshot)
  : M LearnSummary :=
  snap_after ← snapshot;
  let gain := snap_r snap_after - snap_r snap_before in
  '(kept_, rejected_) ← sort_results results [] [];
  imp ← gets improvements;
  let summary := {| r_before := snap_r snap_before;
                    r_after := snap_r snap_after;
                    r_gain := gain;
                    kept := len kept_;
                    rejected := len rejected_;
                    learn_improvements := imp |} in
  _ ← log_event "learn" (LearnData summary);
  mret summary.

(** [def run_cycle(self)] *)
Definition run_cycle : M CycleSummary :=
  c ← gets cycle_count;
  _ ← modify (set_cycle_count (c + 1));
  snap_before ← reflect;
  experiments ← plan snap_before;
  results ← act experiments;
  n ← gets total_experiments;
  _ ← modify (set_total_experiments (n + len results));
  summary ← learn results snap_before;
  c ← gets cycle_count;
  mret {| cs_cycle := c;
          cs_experiments := len experiments;
          cs_r_gain := r_gain summary;
          cs_improvements := learn_improvements summary |}.

(** The [for i in range(max_cycles)] loop of [run], with its [break]. *)
Fixpoint run_loop (n : nat) : M unit :=
  match n with
  | O => mret tt
  | S n' =>
      _ ← run_cycle;
      snap ← snapshot;
      if Rle_dec 0.999 (snap_r snap) then mret tt else run_loop n'
  end.

(** [def run(self, max_cycles=10)] *)
Definition run (max_cycles : Z) : M RunSummary :=
  _ ← run_loop (Z.to_nat max_cycles);
  c ← gets cycle_count;
  n ← gets total_experiments;
  i ← gets improvements;
  final ← snapshot;
  mret {| rs_cycles := c;
          rs_total_experiments := n;
          rs_improvements := i;
          rs_final_r_dod := snap_r final |}.

End Methods.

End Loop.

(** ** The compression as the specification words it

    "[depth] sequential applications of [f(x) = 1 - (1-x)/phi] for a fixed
    constant [phi > 1], with inputs/outputs clamped to [[0,1]] at every
    step". This definition follows the specification, not the source; it is
    compared with [Metrics.ps] below. *)

Module SpecWords.
Local Open Scope R_scope.

Definition f (phi x : R) : R := 1 - (1 - x) / phi.

Definition clamped_step (phi x : R) : R :=
  RecursivePhi.clamp (f phi (RecursivePhi.clamp x)).

Definition compress_by_steps (phi x : R) (depth : nat) : R :=
  Nat.iter depth (clamped_step phi) (RecursivePhi.clamp x).

End SpecWords.

(** ** Vocabulary of the statements *)

Module Vocabulary.
Import Py Registry.

(** A manifest record with both required keys. *)
Definition well_formed (r : row) : Prop :=
  is_Some (row_id r) /\ is_Some (row_kind r).

(** A manifest record missing ["id"] or ["kind"]. *)
Definition malformed (r : row) : Prop :=
  row_id r = None \/ row_kind r = None.

(** The key whose absence is noticed first. *)
Definition missing_key (r : row) : string :=
  match row_id r with
  | None => "id"
  | Some _ => "kind"
  end.

(** Every component sits under its own uid. *)
Definition keyed_by_uid (s : Registry) : Prop :=
  forall k c, components s !! k = Some c -> uid c = k.

(** No two entries of the store hold components with the same uid. *)
Definition unique_uids (s : Registry) : Prop :=
  forall k1 k2 c1 c2,
    components s !! k1 = Some c1 -> components s !! k2 = Some c2 ->
    uid c1 = uid c2 -> k1 = k2.

(** The stores the operations of [Registry] can produce. A manifest load
    that raises leaves its store behind as well. *)
Inductive reachable : Registry -> Prop :=
  | reachable_init : reachable init
  | reachable_use s kind loader :
      reachable s -> reachable (use s kind loader)
  | reachable_register_manifest s rows :
      reachable s -> reachable (register_manifest s rows).2.

(** [k in v], for a dictionary [v]. *)
Definition has_key (v : value) (k : string) : bool :=
  match v with
  | VDict d => match assoc d k with Some _ => true | None => false end
  | _ => false
  end.

(** The step from [st] to [st'] appends the events [evs], all stamped
    with the current cycle, and leaves the two cycle counters alone. *)
Definition logs (st st' : Loop.State) (evs : list Loop.Event) : Prop :=
  Loop.log st' = Loop.log st ++ evs
  /\ Loop.cycle_count st' = Loop.cycle_count st
  /\ Loop.total_experiments st' = Loop.total_experiments st
  /\ Forall (fun e => Loop.cycle e = Loop.cycle_count st) evs.

(** The phases an audit trail of one cycle with [n] experiments shows. *)
Definition cycle_phases (n : nat) : list string :=
  ["reflect"; "plan"] ++ replicate n "act" ++ ["learn"].

(** [k] calls of [run_cycle] in a row, with their summaries. *)
Fixpoint run_cycles (clock : nat -> Metrics.datetime) (random : nat -> R)
    (k : nat) : Loop.M (list Loop.CycleSummary) :=
  match k with
  | O => mret []
  | S k' =>
      s ← Loop.run_cycle clock random;
      rest ← run_cycles clock random k';
      mret (s :: rest)
  end.

End Vocabulary.

(** ** A small world and a small manifest, for concrete runs *)

Module Examples.
Import Py Registry.

(** A world with an empty file system and the YAML loader's module. *)
Definition bare_world : World :=
  {| path_str := fun s => if String.eqb s "" then "." else s;
     path_exists := fun _ => false;
     cwd_join := fun p => "/srv/" +:+ p;
     read_text := fun p => Raise (Exn OSError p);
     safe_load := fun _ => Ok VNone;
     import_module := fun name =>
       if String.eqb name "ankh_aten.loaders.yaml_loader"
       then Ok (VObject 1)
       else Raise (Exn ModuleNotFoundError name);
     getattr := fun obj name =>
       match obj with
       | VObject 1 =>
           if String.eqb name "YamlLoader" then Ok (VObject 2)
           else Raise (Exn AttributeError name)
       | _ => Raise (Exn AttributeError name)
       end;
     call := fun _ _ _ => Raise (Exn TypeError "object is not callable");
     new_build := fun _ _ =>
       Raise (Exn TypeError "object is not callable") |}.

(** The same world, where the class object [VObject 2] is [YamlLoader]. *)
Definition world : World :=
  {| path_str := path_str bare_world;
     path_exists := path_exists bare_world;
     cwd_join := cwd_join bare_world;
     read_text := read_text bare_world;
     safe_load := safe_load bare_world;
     import_module := import_module bare_world;
     getattr := getattr bare_world;
     call := call bare_world;
     new_build := fun L c =>
       match L with
       | VObject 2 => YamlLoader.build bare_world c
       | _ => Raise (Exn TypeError "object is not callable")
       end |}.

Definition row_a : row :=
  {| row_id := Some "A"; row_kind := Some "yaml";
     row_config := Some (VDict [("path", VStr "a.yaml")]) |}.

Definition row_b : row :=
  {| row_id := Some "B"; row_kind := Some "python"; row_config := None |}.

(** A second record under the id of [row_a]. *)
Definition row_a' : row :=
  {| row_id := Some "A"; row_kind := Some "http"; row_config := None |}.

(** Two records without ["id"]. *)
Definition row_no_id_yaml : row :=
  {| row_id := None; row_kind := Some "yaml"; row_config := None |}.

Definition row_no_id_http : row :=
  {| row_id := None; row_kind := Some "http"; row_config := None |}.

Definition component_a : Component :=
  {| uid := "A"; kind := "yaml"; conf := VDict [("path", VStr "a.yaml")] |}.

Definition component_a' : Component :=
  {| uid := "A"; kind := "http"; conf := VDict [] |}.

(** The registry of the command line ([setup_registry]), with [row_a]. *)
Definition registry_a : Registry :=
  (register_manifest
     (use init "yaml" "ankh_aten.loaders.yaml_loader.YamlLoader")
     [row_a]).2.

(** A world whose working directory exists, as working directories do:
    reading it as a file fails. *)
Definition cwd_world : World :=
  {| path_str := path_str bare_world;
     path_exists := fun p => String.eqb p ".";
     cwd_join := cwd_join bare_world;
     read_text := fun p =>
       if String.eqb p "." then Raise (Exn IsADirectoryError p)
       else Raise (Exn OSError p);
     safe_load := safe_load bare_world;
     import_module := import_module bare_world;
     getattr := getattr bare_world;
     call := call bare_world;
     new_build := new_build bare_world |}.

(** A world with one file, ["a.yaml"], whose text the YAML decoder
    rejects. *)
Definition disk_world : World :=
  {| path_str := path_str bare_world;
     path_exists := fun p => String.eqb p "a.yaml";
     cwd_join := cwd_join bare_world;
     read_text := fun p =>
       if String.eqb p "a.yaml" then Ok "key: [unclosed"
       else Raise (Exn OSError p);
     safe_load := fun t =>
       if String.eqb t "key: [unclosed"
       then Raise (Exn YAMLError "while parsing a flow sequence")
       else Ok (VStr t);
     import_module := import_module bare_world;
     getattr := getattr bare_world;
     call := call bare_world;
     new_build := new_build bare_world |}.

(** A component of kind ["yaml"] without the ["path"] field. *)
Definition pathless : Component :=
  {| uid := "c2"; kind := "yaml"; conf := VDict [] |}.

(** A component of kind ["python"] whose factory path has no dot. *)
Definition undotted : Component :=
  {| uid := "c1"; kind := "python";
     conf := VDict [("factory", VStr "make_thing")] |}.

End Examples.

(** ** loaders/http_loader.py *)

Module HttpLoader.
Import Py Registry.

(** The exceptions at play beyond those of [Py]: the three the loader
    catches and the two decoding failures. *)
Inductive net_class :=
  | URLError | HTTPError | TimeoutError
  | JSONDecodeError | UnicodeDecodeError
  | Builtin (c : exn_class).

Record net_exn := NetExn { net_cls : net_class; net_str : string }.

(** [issubclass(c, d)]: [HTTPError] derives from [URLError], both and
    [TimeoutError] from [OSError]; the decoding errors from
    [ValueError]. *)
Definition net_subclass (c d : net_class) : bool :=
  match c, d with
  | URLError, URLError | HTTPError, HTTPError | HTTPError, URLError
  | TimeoutError, TimeoutError
  | JSONDecodeError, JSONDecodeError
  | UnicodeDecodeError, UnicodeDecodeError => true
  | (URLError | HTTPError | TimeoutError), Builtin OSError => true
  | (JSONDecodeError | UnicodeDecodeError), Builtin ValueError => true
  | Builtin a, Builtin b => issubclass a b
  | _, _ => false
  end.

Definition net_caught (e : net_exn) (ds : list net_class) : bool :=
  existsb (net_subclass (net_cls e)) ds.

Inductive attempt (A : Type) :=
  | Got (a : A)
  | Failed (e : net_exn).
Arguments Got {A} a.
Arguments Failed {A} e.

#[global] Instance attempt_ret : MRet attempt := fun A a => Got a.
#[global] Instance attempt_bind : MBind attempt := fun A B f m =>
  match m with
  | Got a => f a
  | Failed e => Failed e
  end.

(** An exception of [Py] on its way out of [build]. *)
Definition lift {A} (r : result A) : attempt A :=
  match r with
  | Ok a => Got a
  | Raise e => Failed (NetExn (Builtin (exn_cls e)) (str_exn e))
  end.

(** What the loader asks of [urllib] and [json]. *)
Record Net := {
  request : Type;
  response : Type;
  (** [Request(url, method=method)] *)
  Request : value -> value -> attempt request;
  (** [req.add_header(key, value)] *)
  add_header : request -> string -> value -> attempt request;
  (** [urlopen(req, timeout=timeout)] *)
  urlopen : request -> value -> attempt response;
  (** [response.read().decode('utf-8')] *)
  read_decode : response -> attempt string;
  (** [response.status] *)
  status : response -> Z;
  (** [json.loads(data)] *)
  json_loads : string -> attempt value
}.

(** [headers.items()]: only a [dict] has the method. *)
Definition items (headers : value) : attempt (list (string * value)) :=
  match headers with
  | VDict d => Got d
  | _ => Failed (NetExn (Builtin AttributeError)
                        "object has no attribute 'items'")
  end.

(** [for key, value in headers.items(): req.add_header(key, value)] *)
Fixpoint add_headers (net : Net) (req : request net)
    (hs : list (string * value)) : attempt (request net) :=
  match hs with
  | [] => Got req
  | (key, v) :: rest =>
      req ← add_header net req key v; add_headers net req rest
  end.

(** The body of the [try] block. *)
Definition try_body (net : Net) (c : Component)
    (url method headers timeout : value) : attempt value :=
  req ← Request net url method;
  hs ← items headers;
  req ← add_headers net req hs;
  resp ← urlopen net req timeout;
  data ← read_decode net resp;
  let json_data :=
    match json_loads net data with
    | Got j => Got j
    | Failed e =>
        if net_caught e [JSONDecodeError] then Got (VStr data)
        else Failed e
    end in
  json_data ← json_data;
  mret (VDict [("component", VStr (uid c));
               ("kind", VStr "http");
               ("url", url);
               ("status", VInt (status net resp));
               ("data", json_data)]).

(** [def build(self)] *)
Definition build (net : Net) (c : Component) : attempt value :=
  url ← lift (get (conf c) "url" (VStr ""));
  method ← lift (get (conf c) "method" (VStr "GET"));
  headers ← lift (get (conf c) "headers" (VDict []));
  timeout ← lift (get (conf c) "timeout" (VInt 30));
  if negb (truthy url) then
    Got (VDict [("error", VStr "No URL specified");
                ("component", VStr (uid c));
                ("kind", VStr "http")])
  else
    match try_body net c url method headers timeout with
    | Got r => Got r
    | Failed e =>
        if net_caught e [URLError; HTTPError; TimeoutError] then
          Got (VDict [("error",
                        VStr ("HTTP request failed: " +:+ net_str e));
                      ("component", VStr (uid c));
                      ("kind", VStr "http");
                      ("url", url)])
        else Failed e
    end.

End HttpLoader.

(** ** cli.py: the registry set-up and the improvement mode *)

Module Cli.
Import Py Registry Loop.

(** [def setup_registry()] *)
Definition setup_registry : Registry :=
  use (use (use Registry.init
              "yaml" "ankh_aten.loaders.yaml_loader.YamlLoader")
         "python" "ankh_aten.loaders.python_loader.PythonLoader")
    "http" "ankh_aten.loaders.http_loader.HttpLoader".

(** [SelfImprovementLoop(registry)], on the log file, the clock and the
    random generator as they stand. *)
Definition new_loop (reg : Registry) (env : State) : State :=
  {| registry := reg; cycle_count := 0; total_experiments := 0;
     improvements := 0; log := log env; ticks := ticks env;
     draws := draws env |}.

Section Modes.
Variable clock : nat -> Metrics.datetime.
Variable random : nat -> R.

(** The [for i in range(cycles)] loop of [improve_mode]. *)
Fixpoint cycles_loop (k : nat) : M unit :=
  match k with
  | O => mret tt
  | S k' => _ ← run_cycle clock random; cycles_loop k'
  end.

(** [def improve_mode(manifest_path, cycles=10)], without its printing.
    [data] is what reading and decoding the manifest file gives, an
    exception or the records of its ["components"] list; [env] carries the
    log file, the clock and the random generator (its loop fields are not
    read). The result is the exit code and the loop at the end. *)
Definition improve_mode (data : result (list row)) (cycles : Z)
    (env : State) : Z * State :=
  match data with
  | Raise e => (1%Z, env)
  | Ok rows =>
      match register_manifest setup_registry rows with
      | (Raise e, _) => (1%Z, env)
      | (Ok _, reg) =>
          let env1 := (snapshot clock env).2 in
          let loop := new_loop reg env1 in
          let loop := (cycles_loop (Z.to_nat cycles) loop).2 in
          let loop := (snapshot clock loop).2 in
          (0%Z, loop)
      end
  end.

End Modes.

End Cli.

(** ** Float operations that can raise *)

Module Floats.
Local Open Scope R_scope.

Inductive error :=
  | ZeroDivisionError
  | OverflowError
  | TypeError
  | ValueError (msg : string).

Inductive outcome (A : Type) :=
  | Done (a : A)
  | Raised (e : error).
Arguments Done {A} a.
Arguments Raised {A} e.

#[global] Instance outcome_ret : MRet outcome := fun A a => Done a.
#[global] Instance outcome_bind : MBind outcome := fun A B f m =>
  match m with
  | Done a => f a
  | Raised e => Raised e
  end.

(** The least real number that rounds to a float out of range. *)
Definition overflow_bound : R := powerRZ 2 1024 - powerRZ 2 970.

(** [x ** y] on floats. A positive base has every power, but one that
    is out of the range of the floats raises [OverflowError]; [0.0 ** y]
    is [0.0] for [y > 0], [1.0] for [y = 0] and a [ZeroDivisionError] for
    [y < 0]; a negative base with a fractional exponent gives a complex
    number, which the callers below hand to [float()]: a [TypeError]. (The
    exponents of the callers are fractional whenever the base can be
    negative.) *)
Definition power (x y : R) : outcome R :=
  if Rlt_dec 0 x then
    if Rle_dec overflow_bound (Rpower x y) then Raised OverflowError
    else Done (Rpower x y)
  else if Req_dec_T x 0 then
    if Rlt_dec 0 y then Done 0
    else if Req_dec_T y 0 then Done 1
    else Raised ZeroDivisionError
  else Raised TypeError.

End Floats.

(** ** backend/app/psietr_compact.py *)

Module PsietrCompact.
Import Floats.
Local Open Scope R_scope.

Definition P : R := 1.618033988749895.
Definition S_ : R := 1.0.
Definition TH : R := 0.9777.

(** [ps = lambda x, n=3: ...] *)
Definition ps (x : R) (n : Z) : R :=
  Rmax 0 (Rmin 1 (1 - (1 - Rmax 0 (Rmin 1 x)) / powerRZ P n)).

(** [rd = lambda p, t=.998, c=.999, d=.00023: ...] *)
Definition rd (p t c d : R) : outcome R :=
  a ← power p 0.5;
  b ← power t 0.3;
  e ← power c 0.2;
  mret (S_ * ps a 3 * ps b 3 * ps e 3 * (1 - d)).

End PsietrCompact.

(** ** backend/app/psietr_engine.py *)

Module PsietrEngine.
Import Floats.
Local Open Scope R_scope.

Definition PHI : R := RecursivePhi.PHI.
Definition SIGMA : R := 1.0.
(** [0.0 if x < 0 else 1.0 if x > 1 else x] *)
Definition clip (x : R) : R :=
  if Rlt_dec x 0 then 0 else if Rgt_dec x 1 then 1 else x.

(** [def phi_smooth(x, iterations=3)] *)
Definition phi_smooth (x : R) (iterations : Z) : R :=
  let x := clip x in
  let x := Nat.iter (Z.to_nat iterations) (fun x => 1 - (1 - x) / PHI) x in
  clip x.

(** [def phi_power_smooth(psi, exponent=0.5)] *)
Definition phi_power_smooth (psi exponent : R) : outcome R :=
  let psi := Rmax 0 psi in
  y ← power psi exponent;
  mret (phi_smooth y 3).

(** [def calculate_rdod(psi, tests_pass_rate, confirmation_rate,
    distortion)] *)
Definition calculate_rdod (psi tests_pass_rate confirmation_rate
                           distortion : R) : outcome R :=
  a ← phi_power_smooth psi 0.5;
  b ← phi_power_smooth tests_pass_rate 0.3;
  c ← phi_power_smooth confirmation_rate 0.2;
  mret (SIGMA * a * b * c * (1 - distortion)).

End PsietrEngine.

(** ** backend/app/recursive_phi.py: the functions built on powers *)

Module RecursivePhiPowers.
Import Floats RecursivePhi.
Local Open Scope R_scope.

(** [def phi_smooth_power(x, exponent=0.5, n=3)] *)
Definition phi_smooth_power (x exponent : R) (n : Z) : outcome R :=
  x ← power (Rmax 0 x) exponent;
  mret (phi_smooth_recursive x n).

(** The loop of [phi_smooth_weighted] over [zip(values, weights)]. *)
Fixpoint weighted_loop (pairs : list (R * R)) (n : Z) (result : R)
  : outcome R :=
  match pairs with
  | [] => mret result
  | (v, w) :: rest =>
      smoothed ← phi_smooth_power v w n;
      weighted_loop rest n (result * smoothed)
  end.

(** [def phi_smooth_weighted(values, weights, n=3)] *)
Definition phi_smooth_weighted (values weights : list R) (n : Z)
  : outcome R :=
  if negb (length values =? length weights)%nat then
    Raised (ValueError "Values and weights must have same length")
  else weighted_loop (zip values weights) n 1.

(** [def rdod_recursive(psi, tests, confirm, distortion, phi_depth)] *)
Definition rdod_recursive (psi tests confirm distortion : R)
    (phi_depth : Z) : outcome R :=
  let sigma := 1.0 in
  psi_smooth ← phi_smooth_power psi 0.5 phi_depth;
  test_smooth ← phi_smooth_power tests 0.3 phi_depth;
  conf_smooth ← phi_smooth_power confirm 0.2 phi_depth;
  mret (sigma * psi_smooth * test_smooth * conf_smooth * (1.0 - distortion)).

End RecursivePhiPowers.

(** ** backend/app/duality.py: the two validators on numbers *)

Module Duality.
Import Floats.
Local Open Scope R_scope.

(** [abs(value - reference) < tolerance] *)
Definition within (tolerance reference value : R) : bool :=
  if Rlt_dec (Rabs (value - reference)) tolerance then true else false.

(** [def validate_rdod_equivalence(psi, tolerance)], without its
    printing *)
Definition validate_rdod_equivalence (psi tolerance : R) : outcome bool :=
  rdod_verbose ← PsietrEngine.calculate_rdod psi 0.998 0.999 0.00023;
  rdod_compact ← PsietrCompact.rd psi 0.998 0.999 0.00023;
  mret (within tolerance rdod_compact rdod_verbose).

End Duality.

(** ** backend/app/constants.py: the helpers *)

Module Constants.
Local Open Scope R_scope.

(** [OMEGA = datetime(2025, 12, 25, 0, 0, 0, tzinfo=timezone.utc)] *)
Definition OMEGA : Metrics.datetime := 1766620800000000%Z.

(** [def days_to_omega(now=None)]; [clock] is what
    [datetime.now(timezone.utc)] answers. *)
Definition days_to_omega (now : option Metrics.datetime)
    (clock : Metrics.datetime) : R :=
  let now := match now with None => clock | Some t => t end in
  let delta := Metrics.total_seconds OMEGA now / 86400.0 in
  Rmax 0.0 delta.

End Constants.

(** ** self_improve/skills.py: the manifest expansion plan *)

Module Skills.
Import Registry.

(** The dict [expand_manifest] returns. *)
Record Expansion := {
  skill : string;
  current_count : Z;
  target_count : Z;
  needed : Z;
  status : string
}.

(** [def expand_manifest(self, target_count=350)] *)
Definition expand_manifest (registry : Registry) (target : Z) : Expansion :=
  let current := component_count registry in
  let needed_ := Z.max 0 (target - current) in
  {| skill := "expand_manifest"; current_count := current;
     target_count := target; needed := needed_; status := "planned" |}.

End Skills.

(** ** More vocabulary *)

Module Terms.
Import Py Registry.

(** The components of the records a manifest load gets to store: those
    of the records before the first malformed one. *)
Fixpoint accepted (rows : list row) : list Component :=
  match rows with
  | [] => []
  | r :: rest =>
      match component_of_row r with
      | Ok c => c :: accepted rest
      | Raise _ => []
      end
  end.

(** The last component of [cs] whose uid is [i]. *)
Fixpoint last_with_uid (i : string) (cs : list Component)
  : option Component :=
  match cs with
  | [] => None
  | c :: rest =>
      match last_with_uid i rest with
      | Some c' => Some c'
      | None => if String.eqb (uid c) i then Some c else None
      end
  end.

(** How many results reach the roll-forward threshold. *)
Fixpoint count_kept (results : list Loop.ExperimentResult) : Z :=
  match results with
  | [] => 0
  | r :: rest =>
      (if Rle_dec (Loop.rollforward_threshold Loop.POLICIES)
                  (Loop.actual_gain r)
       then 1 else 0) + count_kept rest
  end.

(** The outcome [act] builds for the [i]-th experiment of a call that
    starts with [k] random numbers drawn. *)
Definition outcome (random : nat -> R) (k i : nat) (exp : Loop.Experiment)
  : Loop.ExperimentResult :=
  {| Loop.res_type := Loop.exp_type exp;
     Loop.res_description := Loop.exp_description exp;
     Loop.executed := true;
     Loop.actual_gain :=
       (0 + (Loop.expected_gain exp * 1.5 - 0) * random (k + i)%nat)%R |}.

(** What [n] cycles add up to, from [st] to [st']: [n] more cycles, three
    experiments and six log lines for each, and at most one kept
    improvement for each. *)
Definition advanced (n : nat) (st st' : Loop.State) : Prop :=
  Loop.cycle_count st' = (Loop.cycle_count st + Z.of_nat n)%Z
  /\ Loop.total_experiments st'
     = (Loop.total_experiments st + 3 * Z.of_nat n)%Z
  /\ (exists evs, Loop.log st' = Loop.log st ++ evs
                  /\ length evs = (6 * n)%nat)
  /\ (Loop.improvements st <= Loop.improvements st'
      <= Loop.improvements st + Z.of_nat n)%Z.

(** A network that accepts requests and then times out. *)
Definition dead_net : HttpLoader.Net :=
  {| HttpLoader.request := unit; HttpLoader.response := unit;
     HttpLoader.Request := fun _ _ => HttpLoader.Got tt;
     HttpLoader.add_header := fun _ _ _ => HttpLoader.Got tt;
     HttpLoader.urlopen := fun _ _ =>
       HttpLoader.Failed
         (HttpLoader.NetExn HttpLoader.TimeoutError "timed out");
     HttpLoader.read_decode := fun _ =>
       HttpLoader.Failed
         (HttpLoader.NetExn HttpLoader.TimeoutError "timed out");
     HttpLoader.status := fun _ => 0%Z;
     HttpLoader.json_loads := fun _ =>
       HttpLoader.Failed
         (HttpLoader.NetExn HttpLoader.JSONDecodeError "no JSON") |}.

End Terms.

(** ** Binary64 arithmetic

    The modules above take a Python [float] as a real number. From here
    on it is what the interpreter computes with: an IEEE 754 binary64
    value, every operation rounded to nearest, ties to even. *)

Module Binary64.
Local Open Scope Q_scope.

(** The integer part of the base-2 logarithm of a positive rational. *)
Definition ilog2 (q : Q) : Z :=
  let k := (Z.log2 (Qnum q) - Z.log2 (Zpos (Qden q)))%Z in
  if Qle_bool (2 ^ k) q then k else (k - 1)%Z.

(** The nearest integer, ties to the even one. *)
Definition rne (q : Q) : Z :=
  let f := Qfloor q in
  match Qcompare (q - inject_Z f) (1 # 2) with
  | Lt => f
  | Gt => (f + 1)%Z
  | Eq => if Z.even f then f else (f + 1)%Z
  end.

(** The exponent of the unit in the last place of a positive [q]: 53
    significant bits, and no bit below [2^-1074]. *)
Definition ulp_exp (q : Q) : Z := Z.max (ilog2 q - 52) (-1074).

Definition round_pos (q : Q) : Q :=
  inject_Z (rne (q / 2 ^ ulp_exp q)) * 2 ^ ulp_exp q.

(** [q] rounded to the binary64 grid, the exponent range unbounded
    above. *)
Definition round (q : Q) : Q :=
  match Qcompare q 0 with
  | Eq => 0
  | Gt => round_pos q
  | Lt => - round_pos (- q)
  end.

End Binary64.

Module Float64.
Import Binary64 Floats.
Local Open Scope Q_scope.

(** A binary64 value: a finite one is the rational number it stands for
    (in lowest terms; the sign of a zero is not kept), the others are the
    two infinities and "not a number". *)
Inductive float :=
  | Fin (q : Qc)
  | Inf (negative : bool)
  | NaN.

Definition zero : float := Fin (Q2Qc 0).
Definition one : float := Fin (Q2Qc 1).

Definition negative (q : Q) : bool := negb (Qle_bool 0 q).

(** The float an operation returns when its exact result is [q]: [q]
    rounded, or an infinity when the rounded value is out of range. *)
Definition finish (q : Q) : float :=
  let r := round q in
  if Qle_bool (2 ^ 1024) (Qabs r) then Inf (negative q) else Fin (Q2Qc r).

(** [a < b] *)
Definition less (a b : float) : bool :=
  match a, b with
  | NaN, _ | _, NaN => false
  | Fin p, Fin q => negb (Qle_bool q p)
  | Fin _, Inf s => negb s
  | Inf s, Fin _ => s
  | Inf s, Inf s' => s && negb s'
  end.

(** [min(a, b)] and [max(a, b)]: the first argument, unless the second
    is strictly smaller (larger). *)
Definition min (a b : float) : float := if less b a then b else a.
Definition max (a b : float) : float := if less a b then b else a.

(** [a - b] *)
Definition sub (a b : float) : float :=
  match a, b with
  | NaN, _ | _, NaN => NaN
  | Fin p, Fin q => finish (p - q)
  | Fin _, Inf s => Inf (negb s)
  | Inf s, Fin _ => Inf s
  | Inf s, Inf s' => if Bool.eqb s s' then NaN else Inf s
  end.

(** [a + b] *)
Definition add (a b : float) : float :=
  match a, b with
  | NaN, _ | _, NaN => NaN
  | Fin p, Fin q => finish (p + q)
  | Fin _, Inf s => Inf s
  | Inf s, Fin _ => Inf s
  | Inf s, Inf s' => if Bool.eqb s s' then Inf s else NaN
  end.

(** [abs(a)] *)
Definition abs (a : float) : float :=
  match a with
  | Fin q => Fin (Q2Qc (Qabs q))
  | Inf _ => Inf false
  | NaN => NaN
  end.

Definition is_zero (a : float) : bool :=
  match a with Fin q => Qeq_bool q 0 | _ => false end.

(** The quotient of IEEE 754, for a divisor that is not zero. *)
Definition quotient (a b : float) : float :=
  match a, b with
  | NaN, _ | _, NaN => NaN
  | Fin p, Fin q => finish (p / q)
  | Fin _, Inf _ => zero
  | Inf s, Fin q => Inf (xorb s (negative q))
  | Inf _, Inf _ => NaN
  end.

(** [a / b]: a zero divisor raises. *)
Definition div (a b : float) : outcome float :=
  if is_zero b then Raised ZeroDivisionError else Done (quotient a b).

(** [float(n)] for an int [n] *)
Definition of_int (n : Z) : outcome float :=
  match finish (inject_Z n) with
  | Inf _ => Raised OverflowError
  | w => Done w
  end.

(** [b ** n] for a finite float [b] and an int [n]. The exponent is
    converted to a float first; the power itself is the C library's
    [pow], taken here as correctly rounded; a result out of range raises
    [OverflowError], a result too small is rounded like any other. *)
Definition pow_int (b : Qc) (n : Z) : outcome float :=
  w ← of_int n;
  match w with
  | Fin w =>
      let e := Qfloor w in
      if Qeq_bool b 0 && (e <? 0)%Z then Raised ZeroDivisionError
      else
        match finish (b ^ e) with
        | Inf _ => Raised OverflowError
        | v => Done v
        end
  | _ => Raised OverflowError
  end.

End Float64.

(** ** metrics.py on binary64 *)

Module Metrics64.
Import Binary64 Floats Float64.
Local Open Scope Q_scope.

(** [P = 1.618033988749895]: the float nearest to the literal *)
Definition P : Qc :=
  Eval vm_compute in Q2Qc (round (1618033988749895 # 1000000000000000)).

(** [def ps(x, n=3)] *)
Definition ps (x : float) (n : Z) : outcome float :=
  let x := max zero (min one x) in
  let a := sub one x in
  pw ← pow_int P n;
  q ← div a pw;
  mret (max zero (min one (sub one q))).

End Metrics64.

(** ** backend/app/recursive_phi.py on binary64 *)

Module RecursivePhi64.
Import Binary64 Floats Float64.
Local Open Scope Q_scope.

(** [PHI = 1.618033988749895]  (backend/app/constants.py) *)
Definition PHI : Qc :=
  Eval vm_compute in Q2Qc (round (1618033988749895 # 1000000000000000)).

(** [max(0.0, min(1.0, float(x)))] *)
Definition clamp (x : float) : float := max zero (min one x).

(** [1.0 - (1.0 - x) / PHI]. The divisor is the constant [PHI], which is
    not zero, so this division cannot raise. *)
Definition step (x : float) : float :=
  sub one (quotient (sub one x) (Fin PHI)).

(** [def phi_smooth_recursive(x, n=3)] *)
Equations? phi_smooth_recursive (x : float) (n : Z) : float
    by wf (Z.to_nat n) lt :=
  phi_smooth_recursive x n with Z_le_gt_dec n 0 => {
    | left _ => clamp x
    | right _ => phi_smooth_recursive (step (clamp x)) (n - 1) }.
Proof. lia. Qed.

(** [def phi_smooth_iterative(x, n=3)] *)
Definition phi_smooth_iterative (x : float) (n : Z) : float :=
  let x := clamp x in
  let x := Nat.iter (Z.to_nat n) step x in
  clamp x.

(** [def phi_smooth_lambda(x, n=3)]: the local recursive lambda [ps] *)
Equations? lambda_ps (v : float) (depth : Z) : float
    by wf (Z.to_nat depth) lt :=
  lambda_ps v depth with Z_le_gt_dec depth 0 => {
    | left _ => max zero (min one v)
    | right _ => lambda_ps (step (max zero (min one v))) (depth - 1) }.
Proof. lia. Qed.

Definition phi_smooth_lambda (x : float) (n : Z) : float := lambda_ps x n.

(** The [for _ in range(max_depth)] loop of [phi_convergence_trace]. *)
Fixpoint trace_loop (k : nat) (current : float) (trace : list float)
  : list float :=
  match k with
  | O => trace
  | S k' =>
      let current := step current in
      let current := clamp current in
      trace_loop k' current (trace ++ [current])
  end.

(** [def phi_convergence_trace(x, max_depth=10)] *)
Definition phi_convergence_trace (x : float) (max_depth : Z) : list float :=
  let current := clamp x in
  trace_loop (Z.to_nat max_depth) current [current].

(** [trace[i]] inside the comprehension of [phi_convergence_rate], whose
    indices are always in range. *)
Definition item (trace : list float) (i : nat) : float := nth i trace zero.

(** [sum(deltas)]: one addition after the other, from [0] (as CPython
    sums floats up to version 3.11). *)
Definition fsum (l : list float) : float := fold_left add l zero.

(** [def phi_convergence_rate(x, iterations=10)] *)
Definition phi_convergence_rate (x : float) (iterations : Z)
  : outcome float :=
  let trace := phi_convergence_trace x iterations in
  if (length trace <? 2)%nat then Done zero
  else
    let deltas :=
      (fun i => abs (sub (item trace (i + 1)) (item trace i)))
        <$> seq 0 (length trace - 1) in
    n ← of_int (Z.of_nat (length deltas));
    div (fsum deltas) n.

End RecursivePhi64.

(** ** The compression as the specification words it, on binary64

    The definition of [SpecWords] again, every operation rounded. Like
    that one it follows the specification, not the source. *)

Module SpecWords64.
Import Binary64 Floats Float64.

Definition f (phi : Qc) (x : float) : float :=
  sub one (quotient (sub one x) (Fin phi)).

Definition clamped_step (phi : Qc) (x : float) : float :=
  RecursivePhi64.clamp (f phi (RecursivePhi64.clamp x)).

Definition compress_by_steps (phi : Qc) (x : float) (depth : nat) : float :=
  Nat.iter depth (clamped_step phi) (RecursivePhi64.clamp x).

End SpecWords64.

(** ** Bounds on powers, by squaring with 64 fractional bits *)

Module PowerBounds.
Local Open Scope Q_scope.

Definition down (q : Q) : Q :=
  inject_Z (Qfloor (q * inject_Z (2 ^ 64))) / inject_Z (2 ^ 64).

Definition up (q : Q) : Q :=
  inject_Z (Qceiling (q * inject_Z (2 ^ 64))) / inject_Z (2 ^ 64).

(** A lower and an upper bound of [b ^ p], for [b >= 0]. *)
Fixpoint pow_lo (b : Q) (p : positive) : Q :=
  match p with
  | xH => b
  | xO p' => let l := pow_lo b p' in down (l * l)
  | xI p' => let l := pow_lo b p' in down (l * l * b)
  end.

Fixpoint pow_hi (b : Q) (p : positive) : Q :=
  match p with
  | xH => b
  | xO p' => let u := pow_hi b p' in up (u * u)
  | xI p' => let u := pow_hi b p' in up (u * u * b)
  end.

End PowerBounds.

(** ** Vocabulary of the binary64 statements *)

Module Terms64.
Import Binary64 Floats Float64.
Local Open Scope Q_scope.

(** The number [ps] computes for [x] in the unit interval while [P ** n]
    is in range: the closed form, with its four roundings. *)
Definition ps_value (x : Q) (n : Z) : Q :=
  round (1 - round (round (1 - x) / round (Metrics64.P ^ n))).

(** One step of the smoothers on the unit interval, with its three
    roundings. *)
Definition step_value (x : Q) : Q :=
  round (1 - round (round (1 - x) / RecursivePhi64.PHI)).

(** The closed form in exact arithmetic. *)
Definition closed_form (x : Q) (n : Z) : Q :=
  1 - (1 - x) / RecursivePhi64.PHI ^ n.

(** The call returns a finite float of value [v]. *)
Definition returns (o : outcome float) (v : Q) : Prop :=
  exists w : Qc, o = Done (Fin w) /\ w == v.

End Terms64.

(** ** The arithmetic against the kernel's binary64

    Rocq's primitive floats are IEEE 754 binary64, computed by the
    machine: the operations of [Float64] are run against them on sample
    operands, each given as a significand and an exponent. *)

Module PrimCheck.
Import Binary64 Floats Float64.
Local Open Scope Q_scope.

Definition operand := (Z * Z)%type.

Definition value (x : operand) : Q := inject_Z x.1 * 2 ^ x.2.

Definition modelled (x : operand) : float := Fin (Q2Qc (value x)).

Definition primitive (x : operand) : PrimFloat.float :=
  FloatOps.SF2Prim (SpecFloat.S754_finite false (Z.to_pos x.1) x.2).

(** A finite value, an infinity ([Some None]) or not a number. *)
Definition of_modelled (a : float) : option (option Q) :=
  match a with
  | Fin q => Some (Some (this q))
  | Inf _ => Some None
  | NaN => None
  end.

Definition of_primitive (a : PrimFloat.float) : option (option Q) :=
  match FloatOps.Prim2SF a with
  | SpecFloat.S754_zero _ => Some (Some 0)
  | SpecFloat.S754_finite s m e =>
      Some (Some ((if s then - (1) else 1) * inject_Z (Zpos m) * 2 ^ e))
  | SpecFloat.S754_infinity _ => Some None
  | SpecFloat.S754_nan => None
  end.

Definition same (a b : option (option Q)) : bool :=
  match a, b with
  | Some (Some p), Some (Some q) => Qeq_bool p q
  | Some None, Some None => true
  | None, None => true
  | _, _ => false
  end.

(** [a - b], [a / b], [a + b] and [b - a] on both sides. *)
Definition agree (ab : operand * operand) : bool :=
  let '(a, b) := ab in
  same (of_modelled (modelled a)) (of_primitive (primitive a))
  && same (of_modelled (sub (modelled a) (modelled b)))
          (of_primitive (PrimFloat.sub (primitive a) (primitive b)))
  && same (of_modelled (quotient (modelled a) (modelled b)))
          (of_primitive (PrimFloat.div (primitive a) (primitive b)))
  && same (of_modelled (add (modelled a) (modelled b)))
          (of_primitive (PrimFloat.add (primitive a) (primitive b)))
  && same (of_modelled (sub (modelled b) (modelled a)))
          (of_primitive (PrimFloat.sub (primitive b) (primitive a))).

(** Among them: [0.5] and [P]; [0.1] and [0.3]; the smallest positive
    float; subnormal numbers; the largest float; a quotient out of
    range. *)
Definition samples : list (operand * operand) :=
  [ ((4503599627370496, -53), (7286977268806824, -52));
    ((4503599627370496, -52), (7286977268806824, -52));
    ((7205759403792794, -56), (5404319552844595, -54));
    ((8106479329266893, -53), (4769388541246036, -50));
    ((6880887943736672, -54), (7286977268806824, -52));
    ((4503599627370496, -52), (6755399441055744, -51));
    ((1, -1074), (6755399441055744, -51));
    ((20240225330731, -1074), (7881299347898368, -50));
    ((4503599627370496, -1074), (7286977268806824, -52));
    ((9007199254740991, 971), (4503599627370496, -53));
    ((9007199254740991, 971), (5010420900022432, 971));
    ((5883593420661338, 612), (6894565328877484, -717));
    ((7656119366529843, -53), (4835703278458517, -82));
    ((9007199254740991, -53), (4503599627370497, -52));
    ((6004799503160661, -53), (6917529027641082, -61));
    ((6072, -1074), (5902958103587057, -69)) ]%Z.

End PrimCheck.

(** ** backend/app/psietr_engine.py, psietr_compact.py and duality.py on
    binary64 *)

Module PsietrEngine64.
Import Binary64 Floats Float64.

(** [0.0 if x < 0 else 1.0 if x > 1 else float(x)] *)
Definition clip (x : float) : float :=
  if less x zero then zero else if less one x then one else x.

(** [def phi_smooth(x, iterations=3)] *)
Definition phi_smooth (x : float) (iterations : Z) : float :=
  let x := clip x in
  let x := Nat.iter (Z.to_nat iterations) RecursivePhi64.step x in
  clip x.

End PsietrEngine64.

Module PsietrCompact64.
Import Binary64 Floats Float64.

Definition P : Qc := Metrics64.P.

(** [ps = lambda x, n=3: ...] *)
Definition ps (x : float) (n : Z) : outcome float :=
  let a := sub one (max zero (min one x)) in
  pw ← pow_int P n;
  q ← div a pw;
  mret (max zero (min one (sub one q))).

End PsietrCompact64.

Module Duality64.
Import Binary64 Floats Float64.
Local Open Scope Q_scope.

(** [abs(value - reference) < tolerance] *)
Definition within (tolerance reference value : float) : bool :=
  less (abs (sub value reference)) tolerance.

(** [def validate_phi_smoothing_equivalence(x, n, tolerance)], without
    its printing *)
Definition validate_phi_smoothing_equivalence (x : float) (n : Z)
    (tolerance : float) : outcome bool :=
  let result_verbose := PsietrEngine64.phi_smooth x n in
  result_compact ← PsietrCompact64.ps x n;
  let result_recursive := RecursivePhi64.phi_smooth_recursive x n in
  let result_lambda := RecursivePhi64.phi_smooth_lambda x n in
  let result_iterative := RecursivePhi64.phi_smooth_iterative x n in
  let results := [result_verbose; result_compact; result_recursive;
                  result_lambda; result_iterative] in
  let reference := result_verbose in
  mret (fold_left (fun all_match value =>
                     all_match && within tolerance reference value)
                  results true).

End Duality64.

(** * Properties *)

(** ** The compression [ps] *)

Section PsFacts.
Import Metrics.
Local Open Scope R_scope.

Lemma P_gt_1 : 1 < P.
Proof. unfold P. lra. Qed.

Lemma P_pos : 0 < P.
Proof. pose proof P_gt_1. lra. Qed.

Lemma clamp01_id (x : R) : 0 <= x <= 1 -> Rmax 0 (Rmin 1 x) = x.
Proof.
  intros [H0 H1]. rewrite (Rmin_right 1 x) by exact H1.
  now apply Rmax_right.
Qed.

Lemma clamp01_range (x : R) : 0 <= Rmax 0 (Rmin 1 x) <= 1.
Proof.
  split; [apply Rmax_l |].
  apply Rmax_lub; [lra | apply Rmin_l].
Qed.

Lemma powerRZ_P_pos (n : Z) : 0 < powerRZ P n.
Proof. apply powerRZ_lt, P_pos. Qed.

Lemma powerRZ_P_ge_1 (n : Z) : (0 <= n)%Z -> 1 <= powerRZ P n.
Proof.
  intros Hn. rewrite <- (Z2Nat.id n Hn), <- pow_powerRZ.
  apply pow_R1_Rle. pose proof P_gt_1. lra.
Qed.

Lemma powerRZ_P_gt_1 (n : Z) : (0 < n)%Z -> 1 < powerRZ P n.
Proof.
  intros Hn. rewrite <- (Z2Nat.id n) by lia. rewrite <- pow_powerRZ.
  apply Rlt_pow_R1; [apply P_gt_1 | lia].
Qed.

(** Inside the unit interval neither clamp of [ps] changes anything. *)
Lemma ps_closed_form (x : R) (n : Z) :
  0 <= x <= 1 -> (0 <= n)%Z -> ps x n = 1 - (1 - x) / powerRZ P n.
Proof.
  intros Hx Hn. unfold ps. cbv zeta. rewrite (clamp01_id x Hx).
  apply clamp01_id.
  pose proof (powerRZ_P_ge_1 n Hn) as Hp.
  assert (Hq : 0 <= (1 - x) / powerRZ P n <= 1).
  { split.
    - apply Rmult_le_pos; [lra |]. left. apply Rinv_0_lt_compat. lra.
    - apply Rle_trans with ((1 - x) / 1); [| lra].
      unfold Rdiv. apply Rmult_le_compat_l; [lra |].
      apply Rinv_le_contravar; lra. }
  lra.
Qed.

Lemma ps_range (x : R) (n : Z) : 0 <= ps x n <= 1.
Proof. unfold ps. cbv zeta. apply clamp01_range. Qed.

Lemma ps_one (n : Z) : ps 1 n = 1.
Proof.
  unfold ps. cbv zeta. rewrite (clamp01_id 1) by lra.
  replace (1 - (1 - 1) / powerRZ P n) with 1 by (unfold Rdiv; lra).
  apply clamp01_id. lra.
Qed.

Lemma ps_zero (n : Z) : (0 <= n)%Z -> ps 0 n = 1 - / powerRZ P n.
Proof.
  intros Hn. rewrite ps_closed_form by (auto; lra).
  unfold Rdiv. lra.
Qed.

Lemma ps_strict_mono (x y : R) (n : Z) :
  (0 <= n)%Z -> 0 <= x -> x < y -> y <= 1 -> ps x n < ps y n.
Proof.
  intros Hn Hx Hxy Hy.
  rewrite !ps_closed_form by (auto; lra).
  pose proof (powerRZ_P_pos n) as Hp.
  assert (0 < / powerRZ P n) by now apply Rinv_0_lt_compat.
  unfold Rdiv. nra.
Qed.

End PsFacts.

(** ** The closed form against the step-by-step forms *)

Section Refinement.
Import Metrics RecursivePhi SpecWords.
Local Open Scope R_scope.

Lemma PHI_is_P : PHI = P.
Proof. reflexivity. Qed.

Lemma clamp_id (x : R) : 0 <= x <= 1 -> clamp x = x.
Proof. apply clamp01_id. Qed.

(** One application of [f] keeps the unit interval. *)
Lemma f_unit (x : R) : 0 <= x <= 1 -> 0 <= f PHI x <= 1.
Proof.
  intros Hx. unfold f. rewrite PHI_is_P.
  pose proof P_gt_1 as HP.
  assert (Hi : 0 < / P < 1).
  { split; [apply Rinv_0_lt_compat; lra |].
    assert (Hlt : / P < / 1) by (apply Rinv_lt_contravar; lra).
    now rewrite Rinv_1 in Hlt. }
  unfold Rdiv. nra.
Qed.

(** [k] applications of [f], in closed form. *)
Lemma iter_f_closed (k : nat) (x : R) :
  Nat.iter k (f PHI) x = 1 - (1 - x) / PHI ^ k.
Proof.
  pose proof P_pos as HP. rewrite <- PHI_is_P in HP.
  induction k as [| k IH]; simpl.
  - unfold Rdiv. rewrite Rinv_1. lra.
  - rewrite IH. unfold f.
    assert (PHI ^ k <> 0) by (apply pow_nonzero; lra).
    field. split; lra.
Qed.

Lemma iter_f_unit (k : nat) (x : R) :
  0 <= x <= 1 -> 0 <= Nat.iter k (f PHI) x <= 1.
Proof.
  intros Hx. induction k as [| k IH]; simpl; [exact Hx |].
  now apply f_unit.
Qed.

Lemma ps_as_iter (x : R) (n : Z) :
  0 <= x <= 1 -> (0 <= n)%Z -> ps x n = Nat.iter (Z.to_nat n) (f PHI) x.
Proof.
  intros Hx Hn. rewrite ps_closed_form, iter_f_closed by assumption.
  rewrite PHI_is_P, pow_powerRZ, Z2Nat.id by exact Hn. reflexivity.
Qed.

Lemma recursive_as_iter (k : nat) :
  forall (x : R) (n : Z), Z.to_nat n = k -> 0 <= x <= 1 ->
  phi_smooth_recursive x n = Nat.iter k (f PHI) x.
Proof.
  induction k as [| k IH]; intros x n Hk Hx; simp phi_smooth_recursive.
  - destruct (Z_le_gt_dec n 0) as [Hle | Hgt]; simpl; [| lia].
    now apply clamp_id.
  - destruct (Z_le_gt_dec n 0) as [Hle | Hgt]; simpl; [lia |].
    rewrite (clamp_id x Hx).
    rewrite (IH (1 - (1 - x) / PHI) (n - 1)%Z);
      [| lia | apply (f_unit x Hx)].
    change (1 - (1 - x) / PHI) with (f PHI x).
    symmetry. apply (Nat.iter_succ_r k (f PHI) x).
Qed.

Lemma iterative_as_iter (x : R) (n : Z) :
  0 <= x <= 1 -> phi_smooth_iterative x n = Nat.iter (Z.to_nat n) (f PHI) x.
Proof.
  intros Hx. unfold phi_smooth_iterative. cbv zeta.
  rewrite (clamp_id x Hx).
  change (fun x0 : R => 1 - (1 - x0) / PHI) with (f PHI).
  apply clamp_id. now apply iter_f_unit.
Qed.

Lemma spec_steps_as_iter (k : nat) (x : R) :
  0 <= x <= 1 -> compress_by_steps PHI x k = Nat.iter k (f PHI) x.
Proof.
  intros Hx. unfold compress_by_steps. rewrite (clamp_id x Hx).
  induction k as [| k IH]; simpl; [reflexivity |].
  rewrite IH. unfold clamped_step.
  pose proof (iter_f_unit k x Hx) as Hk.
  rewrite (clamp_id _ Hk). apply clamp_id. now apply f_unit.
Qed.

End Refinement.

(** ** Claims about the scoring functions *)

Section ScoringClaims.
Import Metrics RecursivePhi SpecWords.
Local Open Scope R_scope.

(** In exact arithmetic: for [x], [y] in [[0,1]] and an integer
    [depth >= 0], [ps x depth] lies in [[0,1]]; [ps 1 depth = 1];
    [ps 0 depth] is [1 - 1/P^depth], which is [0] only at [depth = 0]; and
    for [depth > 0], [x < y] gives [ps x depth < ps y depth]. (What the
    rounded operations keep of this is in [Binary64Claims] below.) *)
Lemma ps_unit_interval_exact (x y : R) (depth : Z) :
  0 <= x <= 1 -> 0 <= y <= 1 -> (0 <= depth)%Z ->
  0 <= ps x depth <= 1
  /\ ps 0 depth = 1 - / powerRZ P depth
  /\ (ps 0 depth = 0 <-> depth = 0%Z)
  /\ ps 1 depth = 1
  /\ ((0 < depth)%Z -> x < y -> ps x depth < ps y depth).
Proof.
  intros Hx Hy Hd. repeat split.
  - apply ps_range.
  - apply ps_range.
  - now apply ps_zero.
  - intros H0. rewrite ps_zero in H0 by exact Hd.
    destruct (Z.eq_dec depth 0%Z) as [-> | Hne]; [reflexivity | exfalso].
    assert (Hgt : 1 < powerRZ P depth) by (apply powerRZ_P_gt_1; lia).
    assert (Hinv : / powerRZ P depth < / 1)
      by (apply Rinv_lt_contravar; lra).
    rewrite Rinv_1 in Hinv. lra.
  - intros ->. rewrite ps_zero by lia. simpl. rewrite Rinv_1. lra.
  - apply ps_one.
  - intros _ Hxy. apply ps_strict_mono; lra || lia.
Qed.

(** C5: for [progress], [trust], [coherence] and [decay] in [[0,1]],
    [rd] is the product of the three compressed powers (at depth 3) and
    of [1 - decay], and it lies in [[0,1]]. *)
Theorem rd_product_in_unit_interval (p t c d : R) :
  0 <= p <= 1 -> 0 <= t <= 1 -> 0 <= c <= 1 -> 0 <= d <= 1 ->
  rd p t c d
    = ps (float_pow p 0.5) 3 * ps (float_pow t 0.3) 3
      * ps (float_pow c 0.2) 3 * (1 - d)
  /\ 0 <= rd p t c d <= 1.
Proof.
  intros _ _ _ Hd.
  assert (Heq : rd p t c d
    = ps (float_pow p 0.5) 3 * ps (float_pow t 0.3) 3
      * ps (float_pow c 0.2) 3 * (1 - d)).
  { unfold rd, S_. lra. }
  split; [exact Heq |]. rewrite Heq.
  pose proof (ps_range (float_pow p 0.5) 3) as Hp.
  pose proof (ps_range (float_pow t 0.3) 3) as Ht.
  pose proof (ps_range (float_pow c 0.2) 3) as Hc.
  set (u := ps (float_pow p 0.5) 3) in *.
  set (v := ps (float_pow t 0.3) 3) in *.
  set (w := ps (float_pow c 0.2) 3) in *.
  assert (Huv : 0 <= u * v <= 1) by nra.
  assert (Huvw : 0 <= u * v * w <= 1) by nra.
  nra.
Qed.

Lemma rd_product_in_unit_interval_witness :
  rd (1/4) (1/2) (3/4) (1/10)
    = ps (float_pow (1/4) 0.5) 3 * ps (float_pow (1/2) 0.3) 3
      * ps (float_pow (3/4) 0.2) 3 * (1 - 1/10)
  /\ 0 <= rd (1/4) (1/2) (3/4) (1/10) <= 1.
Proof.
  apply (rd_product_in_unit_interval (1/4) (1/2) (3/4) (1/10)); lra.
Defined.

(** In exact arithmetic: on [[0,1]] and for an integer [depth >= 0], the
    closed form [ps] equals [depth] clamped applications of [f], and both
    step-by-step implementations, [phi_smooth_recursive] and
    [phi_smooth_iterative]. (With rounded operations the two sides can
    differ in the last bits: [Binary64Claims] below.) *)
Lemma ps_refines_steps_exact (x : R) (depth : Z) :
  0 <= x <= 1 -> (0 <= depth)%Z ->
  ps x depth = compress_by_steps PHI x (Z.to_nat depth)
  /\ ps x depth = phi_smooth_recursive x depth
  /\ ps x depth = phi_smooth_iterative x depth.
Proof.
  intros Hx Hd. rewrite (ps_as_iter x depth Hx Hd). repeat split.
  - symmetry. now apply spec_steps_as_iter.
  - symmetry. now apply recursive_as_iter.
  - symmetry. now apply iterative_as_iter.
Qed.

(** The awareness ratio [a] of [snapshot] is the constant 1085/1200. *)
Lemma awareness_ratio : IZR (sum I_) / IZR (100 * len I_) = 1085 / 1200.
Proof. reflexivity. Qed.

(** C4: whatever the call time, the awareness field is
    [mean(I)/100] scaled back by [100], the days remaining are not
    negative, and the gate is [1] exactly when the fitness field is at
    least [TH = 0.9777] (otherwise [0]); a fitness equal to the threshold
    opens the gate. *)
Theorem snapshot_fields (now : option datetime) (clock : datetime) :
  let s := snapshot now clock in
  snap_a s = IZR (sum I_) / IZR (len I_) / 100 * 100
  /\ 0 <= snap_d s
  /\ (snap_g s = 1%Z <-> TH <= snap_r s)
  /\ (snap_g s = 0%Z <-> snap_r s < TH)
  /\ TH = 0.9777
  /\ int_ge TH TH = 1%Z.
Proof.
  cbv zeta. unfold snapshot. cbn [snap_a snap_d snap_g snap_r].
  repeat split.
  - rewrite awareness_ratio.
    change (IZR (sum I_) / IZR (len I_)) with (1085 / 12). lra.
  - apply Rmax_l.
  - unfold int_ge. destruct (Rle_dec TH _); [tauto | discriminate].
  - unfold int_ge. intros H. now destruct (Rle_dec TH _).
  - unfold int_ge. destruct (Rle_dec TH _); [discriminate | lra].
  - unfold int_ge. intros H. destruct (Rle_dec TH _); [lra | reflexivity].
  - unfold int_ge. destruct (Rle_dec TH TH); [reflexivity | lra].
Qed.

End ScoringClaims.

(** ** The fitness of [snapshot] is one constant below the stop level *)

Section FitnessConstant.
Import Metrics.
Local Open Scope R_scope.

(** The value every snapshot reports under ["r"]. *)
Lemma snapshot_r_constant (now : option datetime) (clock : datetime) :
  snap_r (snapshot now clock) = rd_default (1085 / 1200).
Proof. unfold snapshot. cbn [snap_r]. now rewrite awareness_ratio. Qed.

Lemma P_cubed_bound : powerRZ P 3 <= 43 / 10.
Proof. simpl. unfold P. lra. Qed.

Lemma sqrt_awareness_bound : float_pow (1085 / 1200) 0.5 <= 955 / 1000.
Proof.
  unfold float_pow. destruct (Req_dec_T (1085 / 1200) 0) as [H | _]; [lra |].
  replace 0.5 with (/ 2) by lra.
  rewrite Rpower_sqrt by lra.
  left. rewrite <- (sqrt_Rsqr (955 / 1000)) by lra.
  apply sqrt_lt_1_alt. unfold Rsqr. lra.
Qed.

Lemma sqrt_awareness_nonneg : 0 <= float_pow (1085 / 1200) 0.5.
Proof.
  unfold float_pow. destruct (Req_dec_T (1085 / 1200) 0) as [H | _]; [lra |].
  left. apply exp_pos.
Qed.

Lemma ps_sqrt_awareness_bound : ps (float_pow (1085 / 1200) 0.5) 3 <= 0.999.
Proof.
  pose proof sqrt_awareness_bound as Hu.
  pose proof sqrt_awareness_nonneg as Hl.
  rewrite ps_closed_form by (try lia; lra).
  set (y := float_pow (1085 / 1200) 0.5) in *.
  pose proof P_cubed_bound as Hc.
  pose proof (powerRZ_P_pos 3) as Hp.
  assert (Hd : 1 / 100 <= (1 - y) / powerRZ P 3).
  { apply Rmult_le_reg_r with (powerRZ P 3); [exact Hp |].
    replace ((1 - y) / powerRZ P 3 * powerRZ P 3) with (1 - y)
      by (field; lra).
    lra. }
  lra.
Qed.

Lemma fitness_below_stop : rd_default (1085 / 1200) < 0.999.
Proof.
  unfold rd_default, rd, S_.
  pose proof ps_sqrt_awareness_bound as Hu.
  pose proof (ps_range (float_pow (1085 / 1200) 0.5) 3) as Hp.
  pose proof (ps_range (float_pow 0.998 0.3) 3) as Ht.
  pose proof (ps_range (float_pow 0.999 0.2) 3) as Hc.
  set (u := ps (float_pow (1085 / 1200) 0.5) 3) in *.
  set (v := ps (float_pow 0.998 0.3) 3) in *.
  set (w := ps (float_pow 0.999 0.2) 3) in *.
  assert (Huv : 0 <= u * v <= u) by nra.
  assert (Huvw : 0 <= u * v * w <= u) by nra.
  nra.
Qed.

(** A power with an exponent in (0,1] does not go below its base. *)
Lemma Rpower_ge_base (x y : R) :
  0 < x <= 1 -> 0 < y <= 1 -> x <= Rpower x y.
Proof.
  intros [Hx0 Hx1] [Hy0 Hy1]. unfold Rpower.
  rewrite <- (exp_ln x Hx0) at 1.
  assert (Hln : ln x <= 0).
  { rewrite <- ln_1. destruct Hx1 as [Hlt | ->]; [| lra].
    left. now apply ln_increasing. }
  assert (Hle : ln x <= y * ln x) by nra.
  destruct Hle as [Hlt | Heq]; [left; now apply exp_increasing |].
  rewrite <- Heq. lra.
Qed.

Lemma float_pow_unit (x y : R) :
  0 < x <= 1 -> 0 < y <= 1 -> x <= float_pow x y <= 1.
Proof.
  intros Hx Hy. unfold float_pow.
  destruct (Req_dec_T x 0) as [H0 | _]; [lra |]. split.
  - now apply Rpower_ge_base.
  - unfold Rpower. rewrite <- exp_0.
    assert (Hln : ln x <= 0).
    { rewrite <- ln_1. destruct Hx as [Hx0 [Hlt | ->]]; [| lra].
      left. now apply ln_increasing. }
    assert (Hle : y * ln x <= 0) by nra.
    destruct Hle as [Hlt | ->]; [left; now apply exp_increasing | lra].
Qed.

Lemma P_cubed_lower : 4 <= powerRZ P 3.
Proof. simpl. unfold P. lra. Qed.

(** At depth 3 the compression removes at least three quarters of the
    distance to [1]. *)
Lemma ps_depth3_lower (y : R) : 0 <= y <= 1 -> 1 - (1 - y) / 4 <= ps y 3.
Proof.
  intros Hy. rewrite ps_closed_form by (try lia; exact Hy).
  pose proof P_cubed_lower as Hc.
  assert (Hinv : / powerRZ P 3 <= / 4) by (apply Rinv_le_contravar; lra).
  unfold Rdiv. nra.
Qed.

Lemma sqrt_awareness_lower : 95 / 100 <= float_pow (1085 / 1200) 0.5.
Proof.
  unfold float_pow. destruct (Req_dec_T (1085 / 1200) 0) as [H | _]; [lra |].
  replace 0.5 with (/ 2) by lra.
  rewrite Rpower_sqrt by lra.
  left. rewrite <- (sqrt_Rsqr (95 / 100)) by lra.
  apply sqrt_lt_1_alt. unfold Rsqr. lra.
Qed.

(** The constant fitness clears the gate threshold. *)
Lemma fitness_above_gate : TH <= rd_default (1085 / 1200).
Proof.
  unfold rd_default, rd, S_, TH.
  pose proof sqrt_awareness_lower as Hl.
  pose proof sqrt_awareness_bound as Hu.
  pose proof (float_pow_unit 0.998 0.3) as Ht.
  pose proof (float_pow_unit 0.999 0.2) as Hc.
  assert (H1 : 0.9875 <= ps (float_pow (1085 / 1200) 0.5) 3).
  { eapply Rle_trans; [| apply ps_depth3_lower; lra]. lra. }
  assert (H2 : 0.9995 <= ps (float_pow 0.998 0.3) 3).
  { eapply Rle_trans; [| apply ps_depth3_lower; lra]. lra. }
  assert (H3 : 0.99975 <= ps (float_pow 0.999 0.2) 3).
  { eapply Rle_trans; [| apply ps_depth3_lower; lra]. lra. }
  pose proof (ps_range (float_pow (1085 / 1200) 0.5) 3) as Hp1.
  pose proof (ps_range (float_pow 0.998 0.3) 3) as Hp2.
  pose proof (ps_range (float_pow 0.999 0.2) 3) as Hp3.
  set (u := ps (float_pow (1085 / 1200) 0.5) 3) in *.
  set (v := ps (float_pow 0.998 0.3) 3) in *.
  set (w := ps (float_pow 0.999 0.2) 3) in *.
  assert (Huv : 0.9875 * 0.9995 <= u * v) by nra.
  assert (Huvw : 0.9875 * 0.9995 * 0.99975 <= u * v * w) by nra.
  nra.
Qed.

(** Every snapshot therefore reports an open gate. *)
Lemma snapshot_gate_open (now : option datetime) (clock : datetime) :
  snap_g (snapshot now clock) = 1%Z.
Proof.
  unfold snapshot. cbn [snap_g]. rewrite awareness_ratio.
  unfold int_ge. destruct (Rle_dec TH _) as [_ | Hn]; [reflexivity |].
  exfalso. apply Hn, fitness_above_gate.
Qed.

End FitnessConstant.

(** ** The component store *)

Section StoreFacts.
Import Py Registry Vocabulary.

Lemma component_of_well_formed (r : row) :
  well_formed r ->
  exists c, component_of_row r = Ok c /\ row_id r = Some (uid c).
Proof.
  intros [[i Hi] [k Hk]]. unfold component_of_row. rewrite Hi, Hk.
  simpl. eauto.
Qed.

Lemma component_of_malformed (r : row) :
  malformed r -> component_of_row r = Raise (Exn KeyError (missing_key r)).
Proof.
  unfold malformed, component_of_row, missing_key.
  destruct (row_id r) as [i |]; simpl.
  - intros [Hi | Hk]; [discriminate | now rewrite Hk].
  - reflexivity.
Qed.

Lemma component_of_row_uid (r : row) (c : Component) :
  component_of_row r = Ok c -> row_id r = Some (uid c).
Proof.
  unfold component_of_row.
  destruct (row_id r) as [i |], (row_kind r) as [k |]; simpl; try discriminate.
  now intros [= <-].
Qed.

Lemma register_manifest_loaders (rows : list row) :
  forall self, loaders (register_manifest self rows).2 = loaders self.
Proof.
  induction rows as [| r rest IH]; intros self; simpl; [reflexivity |].
  destruct (component_of_row r) as [c | e]; [| reflexivity].
  now rewrite IH.
Qed.

Lemma register_manifest_well_formed (rows : list row) :
  forall self, Forall well_formed rows ->
  (register_manifest self rows).1 = Ok tt.
Proof.
  induction rows as [| r rest IH]; intros self Hwf; simpl; [reflexivity |].
  inversion Hwf as [| ? ? Hr Hrest]; subst.
  destruct (component_of_well_formed r Hr) as (c & -> & _).
  now apply IH.
Qed.

(** A load that succeeds on a prefix continues from the store it built. *)
Lemma register_manifest_app (pre post : list row) :
  forall self, (register_manifest self pre).1 = Ok tt ->
  register_manifest self (pre ++ post)
  = register_manifest (register_manifest self pre).2 post.
Proof.
  induction pre as [| r rest IH]; intros self Hok; simpl in *; [reflexivity |].
  destruct (component_of_row r) as [c | e]; [| discriminate].
  now apply IH.
Qed.

(** A uid that is registered stays registered through any load. *)
Lemma register_manifest_keeps (rows : list row) :
  forall self i, is_Some (components self !! i) ->
  is_Some (components (register_manifest self rows).2 !! i).
Proof.
  induction rows as [| r rest IH]; intros self i Hi; simpl; [exact Hi |].
  destruct (component_of_row r) as [c | e]; [| exact Hi].
  apply IH. simpl. rewrite lookup_insert.
  case_decide; [eauto | exact Hi].
Qed.

Lemma register_manifest_registers (rows : list row) :
  forall self r i, Forall well_formed rows ->
  r ∈ rows -> row_id r = Some i ->
  is_Some (components (register_manifest self rows).2 !! i).
Proof.
  induction rows as [| r0 rest IH]; intros self r i Hwf Hin Hid.
  - inversion Hin.
  - inversion Hwf as [| ? ? Hr0 Hrest]; subst. simpl.
    destruct (component_of_well_formed r0 Hr0) as (c & Hc & Hu).
    rewrite Hc. apply elem_of_cons in Hin as [-> | Hin].
    + apply register_manifest_keeps. simpl.
      assert (uid c = i) as -> by congruence.
      rewrite lookup_insert_eq. eauto.
    + now apply (IH _ r).
Qed.

Lemma keyed_by_uid_init : keyed_by_uid init.
Proof. intros k c H. simpl in H. now rewrite lookup_empty in H. Qed.

Lemma keyed_by_uid_use (s : Registry) (k l : string) :
  keyed_by_uid s -> keyed_by_uid (use s k l).
Proof. intros H. exact H. Qed.

Lemma keyed_by_uid_register_manifest (rows : list row) :
  forall s, keyed_by_uid s -> keyed_by_uid (register_manifest s rows).2.
Proof.
  induction rows as [| r rest IH]; intros s Hs; simpl; [exact Hs |].
  destruct (component_of_row r) as [c | e]; [| exact Hs].
  apply IH. intros k c'. simpl. rewrite lookup_insert.
  case_decide as Hk; [intros [= <-]; exact Hk | apply Hs].
Qed.

Lemma reachable_keyed_by_uid (s : Registry) :
  reachable s -> keyed_by_uid s.
Proof.
  induction 1 as [| s k l _ IH | s rows _ IH].
  - apply keyed_by_uid_init.
  - now apply keyed_by_uid_use.
  - now apply keyed_by_uid_register_manifest.
Qed.

Lemma keyed_unique (s : Registry) : keyed_by_uid s -> unique_uids s.
Proof.
  intros Hs k1 k2 c1 c2 H1 H2 Hu.
  rewrite <- (Hs _ _ H1), <- (Hs _ _ H2). exact Hu.
Qed.

(** Fresh, pairwise distinct ids each add one entry. *)
Lemma register_manifest_size (rows : list row) :
  forall self, Forall well_formed rows -> NoDup (row_id <$> rows) ->
  (forall r i, r ∈ rows -> row_id r = Some i -> components self !! i = None) ->
  size (components (register_manifest self rows).2)
  = (size (components self) + length rows)%nat.
Proof.
  induction rows as [| r rest IH]; intros self Hwf Hnd Hfresh; simpl.
  - lia.
  - inversion Hwf as [| ? ? Hr Hrest]; subst.
    rewrite fmap_cons in Hnd. apply NoDup_cons in Hnd as [Hnot Hnd].
    destruct (component_of_well_formed r Hr) as (c & Hc & Hu).
    rewrite Hc. rewrite IH; [| assumption | assumption |].
    + simpl. rewrite map_size_insert_None; [lia |].
      apply (Hfresh r); [left | exact Hu].
    + intros r' i Hin Hid. simpl.
      rewrite lookup_insert_ne.
      * apply (Hfresh r'); [now right | exact Hid].
      * intros Heq. apply Hnot. rewrite Hu, Heq, <- Hid.
        now apply list_elem_of_fmap_2.
Qed.

End StoreFacts.

(** ** Claims about the registry *)

Section RegistryClaims.
Import Py Registry Vocabulary Examples.

(** C6: [materialize] on a uid with no component raises [KeyError] of the
    uid; on a component whose kind has no loader it raises [KeyError] of
    the kind; and once the loader class is resolved, the result is that of
    the class's [build] on the component, unchanged. *)
Theorem materialize_dispatch (w : World) (self : Registry) (u : string) :
  (components self !! u = None ->
   materialize w self u = Raise (Exn KeyError u))
  /\ (forall c, components self !! u = Some c ->
      loaders self !! kind c = None ->
      materialize w self u = Raise (Exn KeyError (kind c)))
  /\ (forall c Lpath modpath clsname m L,
      components self !! u = Some c ->
      loaders self !! kind c = Some Lpath ->
      unpack2 (rsplit_dot Lpath) = Ok (modpath, clsname) ->
      import_module w modpath = Ok m ->
      getattr w m clsname = Ok L ->
      materialize w self u = new_build w L c).
Proof.
  unfold materialize. repeat split.
  - intros ->. reflexivity.
  - intros c -> Hl. simpl. now rewrite Hl.
  - intros c Lpath modpath clsname m L -> Hl Hp Hm HL. simpl.
    rewrite Hl. simpl. rewrite Hp. simpl. rewrite Hm. simpl.
    now rewrite HL.
Qed.

(** The dispatch has failures of its own besides the two [KeyError]s: a
    loader path without a dot cannot be split into module and class. *)
Lemma materialize_undotted_loader :
  materialize world (use registry_a "yaml" "YamlLoader") "A"
  = Raise (Exn ValueError "not enough values to unpack (expected 2, got 1)").
Proof. reflexivity. Qed.

Lemma materialize_dispatch_witness :
  materialize world registry_a "Z" = Raise (Exn KeyError "Z")
  /\ materialize world (register_manifest init [row_a]).2 "A"
     = Raise (Exn KeyError "yaml")
  /\ materialize world registry_a "A"
     = new_build world (VObject 2) component_a.
Proof.
  destruct (materialize_dispatch world registry_a "Z") as (H1 & _ & _).
  destruct (materialize_dispatch world (register_manifest init [row_a]).2 "A")
    as (_ & H2 & _).
  destruct (materialize_dispatch world registry_a "A") as (_ & _ & H3).
  split; [| split].
  - apply H1. reflexivity.
  - apply (H2 component_a); reflexivity.
  - apply (H3 component_a "ankh_aten.loaders.yaml_loader.YamlLoader"
             "ankh_aten.loaders.yaml_loader" "YamlLoader" (VObject 1));
      reflexivity.
Defined.


(** C7, as amended: when the first record missing ["id"] or ["kind"]
    comes after well-formed records, [register_manifest] raises a
    [KeyError] naming the missing key (["id"] first), not the record; the
    store it leaves is the one obtained by registering the records before
    the failing one, so each of them is still registered under its id, and
    the loader table is untouched. *)
Theorem register_manifest_not_atomic
    (self : Registry) (pre post : list row) (bad : row) :
  Forall well_formed pre -> malformed bad ->
  register_manifest self (pre ++ bad :: post)
  = (Raise (Exn KeyError (missing_key bad)), (register_manifest self pre).2)
  /\ (register_manifest self pre).1 = Ok tt
  /\ (forall r i, r ∈ pre -> row_id r = Some i ->
      is_Some
        (components (register_manifest self (pre ++ bad :: post)).2 !! i))
  /\ loaders (register_manifest self (pre ++ bad :: post)).2 = loaders self.
Proof.
  intros Hpre Hbad.
  pose proof (register_manifest_well_formed pre self Hpre) as Hok.
  assert (Heq : register_manifest self (pre ++ bad :: post)
    = (Raise (Exn KeyError (missing_key bad)),
       (register_manifest self pre).2)).
  { rewrite register_manifest_app by exact Hok. simpl.
    now rewrite (component_of_malformed bad Hbad). }
  repeat split; [exact Heq | exact Hok | |].
  - intros r i Hin Hid. rewrite Heq. simpl.
    now apply (register_manifest_registers pre self r).
  - apply register_manifest_loaders.
Qed.

Lemma register_manifest_not_atomic_witness :
  register_manifest init ([row_a; row_b] ++ row_no_id_yaml :: [row_a'])
  = (Raise (Exn KeyError "id"), (register_manifest init [row_a; row_b]).2)
  /\ (register_manifest init [row_a; row_b]).1 = Ok tt
  /\ (forall r i, r ∈ [row_a; row_b] -> row_id r = Some i ->
      is_Some
        (components
           (register_manifest init
              ([row_a; row_b] ++ row_no_id_yaml :: [row_a'])).2 !! i))
  /\ loaders
       (register_manifest init
          ([row_a; row_b] ++ row_no_id_yaml :: [row_a'])).2
     = loaders init.
Proof.
  apply (register_manifest_not_atomic init [row_a; row_b] [row_a']
           row_no_id_yaml).
  - repeat constructor; simpl; eauto.
  - left. reflexivity.
Defined.

(** C7, as stated, fails: two manifests whose offending records differ
    raise the very same error, which therefore does not report the
    record. *)
Lemma manifest_error_names_key_only :
  malformed row_no_id_yaml /\ malformed row_no_id_http
  /\ row_no_id_yaml <> row_no_id_http
  /\ (register_manifest init [row_a; row_no_id_yaml]).1
     = Raise (Exn KeyError "id")
  /\ (register_manifest init [row_no_id_http]).1
     = Raise (Exn KeyError "id").
Proof.
  repeat split; try (left; reflexivity). discriminate.
Qed.

(** C8, as amended: a manifest of [N] well-formed records with pairwise
    distinct ids, loaded into the empty store, gives a count of [N]; a
    record whose id is already registered replaces the component under
    that id and leaves the count as it was; and in every store the
    operations can produce, no two entries hold the same uid. *)
Theorem store_count_and_uniqueness
    (rows : list row) (s : Registry) (r : row) (c : Component) :
  Forall well_formed rows -> NoDup (row_id <$> rows) ->
  reachable s -> component_of_row r = Ok c ->
  is_Some (components s !! uid c) ->
  component_count (register_manifest init rows).2 = Metrics.len rows
  /\ components (register_manifest s [r]).2 !! uid c = Some c
  /\ component_count (register_manifest s [r]).2 = component_count s
  /\ unique_uids s
  /\ unique_uids (register_manifest s [r]).2.
Proof.
  intros Hwf Hnd Hs Hc Hin. repeat split.
  - unfold component_count, Metrics.len.
    rewrite register_manifest_size; try assumption.
    + simpl. now rewrite map_size_empty.
    + intros. apply lookup_empty.
  - simpl. rewrite Hc. simpl. apply lookup_insert_eq.
  - unfold component_count. simpl. rewrite Hc. simpl.
    now rewrite map_size_insert_Some.
  - now apply keyed_unique, reachable_keyed_by_uid.
  - apply keyed_unique, reachable_keyed_by_uid.
    now apply reachable_register_manifest.
Qed.

Lemma store_count_and_uniqueness_witness :
  component_count (register_manifest init [row_a; row_b]).2
  = Metrics.len [row_a; row_b]
  /\ components (register_manifest registry_a [row_a']).2 !! uid component_a'
     = Some component_a'
  /\ component_count (register_manifest registry_a [row_a']).2
     = component_count registry_a
  /\ unique_uids registry_a
  /\ unique_uids (register_manifest registry_a [row_a']).2.
Proof.
  apply (store_count_and_uniqueness [row_a; row_b] registry_a row_a'
           component_a').
  - repeat constructor; simpl; eauto.
  - apply (bool_decide_unpack _). vm_compute. reflexivity.
  - apply reachable_register_manifest, reachable_use, reachable_init.
  - reflexivity.
  - simpl. rewrite lookup_insert_eq. eauto.
Defined.

(** C8, as stated, fails: two well-formed records under one id, loaded
    into the empty store, give a count of [1], not [2]. *)
Lemma duplicate_ids_count_once :
  Forall well_formed [row_a; row_a']
  /\ component_count (register_manifest init [row_a; row_a']).2 = 1%Z
  /\ Metrics.len [row_a; row_a'] = 2%Z.
Proof.
  repeat split; try reflexivity.
  repeat constructor; simpl; eauto.
Qed.

End RegistryClaims.

(** ** The string helpers on concrete inputs *)

Example rsplit_dot_loader_path :
  Py.rsplit_dot "ankh_aten.loaders.yaml_loader.YamlLoader"
  = ["ankh_aten.loaders.yaml_loader"; "YamlLoader"].
Proof. reflexivity. Qed.

Example rsplit_dot_no_dot : Py.rsplit_dot "make_thing" = ["make_thing"].
Proof. reflexivity. Qed.

Example rsplit_dot_leading_dot : Py.rsplit_dot ".build" = [""; "build"].
Proof. reflexivity. Qed.

Example caught_module_not_found :
  Py.caught (Py.Exn Py.ModuleNotFoundError "no module")
            [Py.ImportError; Py.AttributeError; Py.TypeError] = true
  /\ Py.caught (Py.Exn Py.ValueError "unpack")
               [Py.ImportError; Py.AttributeError; Py.TypeError] = false.
Proof. split; reflexivity. Qed.

(** ** Claims about the loaders *)

Section LoaderClaims.
Import Py Registry Vocabulary Examples.

(** C2 fails on the code: a factory path without a dot makes the
    two-name unpacking of [rsplit] raise [ValueError], which the [except]
    clause of [PythonLoader.build] does not list; the exception leaves
    [build], in every world. *)
Theorem python_loader_undotted_factory_raises (w : World) :
  PythonLoader.build w undotted
  = Raise (Exn ValueError "not enough values to unpack (expected 2, got 1)").
Proof. reflexivity. Qed.

(** The same happens in [YamlLoader.build] when the ["path"] field is
    missing: the default [""] names the working directory, which exists,
    and reading it raises an [OSError] that only a [YAMLError] handler
    guards. *)
Lemma yaml_loader_missing_path_raises :
  YamlLoader.build cwd_world pathless = Raise (Exn IsADirectoryError ".").
Proof. reflexivity. Qed.

(** [BaseLoader.build] always raises. *)
Lemma base_loader_raises (c : Component) :
  exists e, BaseLoader.build c = Raise e /\ exn_cls e = NotImplementedError.
Proof. eexists. split; reflexivity. Qed.

(** What does hold: a dictionary that [PythonLoader.build] returns has
    exactly one of the keys ["error"] and ["result"], and always the uid
    and the kind. *)
Lemma python_loader_result_shape (w : World) (c : Component) (v : value) :
  PythonLoader.build w c = Ok v ->
  xorb (has_key v "error") (has_key v "result") = true
  /\ (exists d, v = VDict d /\ assoc d "component" = Some (VStr (uid c))
                /\ assoc d "kind" = Some (VStr "python")).
Proof.
  unfold PythonLoader.build.
  destruct (get (conf c) "factory" (VStr "")) as [fp | e]; simpl;
    [| discriminate].
  destruct (get (conf c) "args" (VDict [])) as [args | e]; simpl;
    [| discriminate].
  destruct (get (conf c) "kwargs" (VDict [])) as [kwargs | e]; simpl;
    [| discriminate].
  destruct (truthy fp); simpl.
  - destruct (PythonLoader.try_body w c fp args kwargs) as [r | e] eqn:Hb.
    + intros [= <-]. unfold PythonLoader.try_body in Hb.
      destruct (rsplit fp) as [parts | ?]; simpl in Hb; [| discriminate].
      destruct (unpack2 parts) as [[modpath funcname] | ?]; simpl in Hb;
        [| discriminate].
      destruct (import_module w modpath) as [m | ?]; simpl in Hb;
        [| discriminate].
      destruct (getattr w m funcname) as [f | ?]; simpl in Hb;
        [| discriminate].
      match type of Hb with
      | (?call ≫= _) = _ => destruct call as [res | ?]; simpl in Hb;
                              [| discriminate]
      end.
      injection Hb as <-. split; [reflexivity | eauto].
    + match goal with
      | |- (if ?b then _ else _) = _ -> _ => destruct b; [| discriminate]
      end.
      intros [= <-]. split; [reflexivity | eauto].
  - intros [= <-]. split; [reflexivity | eauto].
Qed.

(** The same for [YamlLoader.build], with the payload key ["data"]. *)
Lemma yaml_loader_result_shape (w : World) (c : Component) (v : value) :
  YamlLoader.build w c = Ok v ->
  xorb (has_key v "error") (has_key v "data") = true
  /\ (exists d, v = VDict d /\ assoc d "component" = Some (VStr (uid c))
                /\ assoc d "kind" = Some (VStr "yaml")).
Proof.
  unfold YamlLoader.build.
  destruct (get (conf c) "path" (VStr "")) as [p | e]; simpl;
    [| discriminate].
  destruct (YamlLoader.Path w p) as [yp | e]; simpl; [| discriminate].
  destruct (negb _).
  - intros [= <-]. split; [reflexivity | eauto].
  - destruct (read_text w _ ≫= safe_load w) as [data | e].
    + intros [= <-]. split; [reflexivity | eauto].
    + match goal with
      | |- (if ?b then _ else _) = _ -> _ => destruct b; [| discriminate]
      end.
      intros [= <-]. split; [reflexivity | eauto].
Qed.

End LoaderClaims.

(** ** The self-improvement loop *)

Section LoopFacts.
Import Metrics Registry Loop Vocabulary.
Variable clock : nat -> datetime.
Variable random : nat -> R.

(** A step that writes no event and touches neither cycle counter. *)
Ltac silent_step :=
  unfold logs; cbn; rewrite app_nil_r; repeat split; constructor.

Lemma bind_run {A B} (m : M A) (f : A -> M B) (st : State) :
  (m ≫= f) st = f (m st).1 (m st).2.
Proof. reflexivity. Qed.

Lemma logs_refl (st : State) : logs st st [].
Proof. silent_step. Qed.

Lemma logs_trans (st1 st2 st3 : State) (evs1 evs2 : list Event) :
  logs st1 st2 evs1 -> logs st2 st3 evs2 -> logs st1 st3 (evs1 ++ evs2).
Proof.
  intros (Hl1 & Hc1 & Ht1 & Hf1) (Hl2 & Hc2 & Ht2 & Hf2).
  unfold logs. rewrite Hl2, Hl1, Hc2, Ht2, app_assoc.
  repeat split; try assumption.
  apply Forall_app. split; [exact Hf1 |].
  now rewrite Hc1 in Hf2.
Qed.

Lemma snapshot_run (st : State) :
  snapshot clock st
  = (Metrics.snapshot None (clock (ticks st)), set_ticks (S (ticks st)) st).
Proof. reflexivity. Qed.

Lemma snapshot_logs (st : State) : logs st (snapshot clock st).2 [].
Proof. rewrite snapshot_run. silent_step. Qed.

Lemma log_event_logs (ty : string) (d : event_data) (st : State) :
  exists ev, logs st (log_event clock ty d st).2 [ev]
             /\ type ev = ty /\ data ev = d.
Proof.
  eexists. unfold logs. cbn. repeat split. repeat constructor.
Qed.


Lemma reflect_logs (st : State) :
  exists ev, logs st (reflect clock st).2 [ev] /\ type ev = "reflect"
             /\ (reflect clock st).1 = Metrics.snapshot None (clock (ticks st)).
Proof.
  eexists. unfold logs. cbn. repeat split. repeat constructor.
Qed.

Lemma plan_length (snap : Snapshot) (st : State) :
  length (plan clock snap st).1 = 3%nat.
Proof.
  unfold plan. cbn. destruct (Rlt_dec _ _); reflexivity.
Qed.

Lemma plan_logs (snap : Snapshot) (st : State) :
  exists ev, logs st (plan clock snap st).2 [ev] /\ type ev = "plan"
    /\ exists g tys, data ev = PlanData g (len (plan clock snap st).1) tys.
Proof.
  eexists. unfold logs. cbn. repeat split.
  - repeat constructor.
  - eauto.
Qed.

Lemma act_logs (experiments : list Experiment) :
  forall st, exists evs,
    logs st (act clock random experiments st).2 evs
    /\ type <$> evs = replicate (length experiments) "act"
    /\ data <$> evs = ActData <$> (act clock random experiments st).1
    /\ length (act clock random experiments st).1 = length experiments
    /\ Forall (fun r => executed r = true)
         (act clock random experiments st).1.
Proof.
  induction experiments as [| exp rest IH]; intros st.
  - exists []. cbn. repeat split; try constructor. apply logs_refl.
  - cbn [act]. rewrite !bind_run.
    set (st1 := (uniform random 0 (expected_gain exp * 1.5) st).2).
    set (g := (uniform random 0 (expected_gain exp * 1.5) st).1).
    set (result := {| res_type := exp_type exp;
                      res_description := exp_description exp;
                      executed := true; actual_gain := g |}).
    destruct (log_event_logs "act" (ActData result) st1)
      as (ev & Hev & Hty & Hda).
    set (st2 := (log_event clock "act" (ActData result) st1).2) in *.
    destruct (IH st2) as (evs & Hevs & Htys & Hdas & Hlen & Hex).
    exists (ev :: evs). cbn [mret M_ret fst snd]. rewrite !fmap_cons.
    cbn [length replicate].
    refine (conj _ (conj _ (conj _ (conj _ _)))).
    + change (ev :: evs) with ([ev] ++ evs).
      apply (logs_trans st st2); [| exact Hevs].
      apply (logs_trans st st1 st2 [] [ev]); [| exact Hev].
      subst st1. silent_step.
    + now rewrite Hty, Htys.
    + now rewrite Hda, Hdas.
    + now rewrite Hlen.
    + constructor; [reflexivity | exact Hex].
Qed.

Lemma sort_results_logs (results : list ExperimentResult) :
  forall kept_ rejected_ st,
    logs st (sort_results results kept_ rejected_ st).2 [].
Proof.
  induction results as [| r rest IH]; intros kept_ rejected_ st.
  - apply logs_refl.
  - cbn [sort_results]. destruct (Rle_dec _ _).
    + rewrite !bind_run.
      set (st1 := (modify _ _).2).
      apply (logs_trans st st1 _ [] []); [| apply IH].
      subst st1. silent_step.
    + apply IH.
Qed.

Lemma learn_logs (results : list ExperimentResult) (snap_before : Snapshot)
    (st : State) :
  exists ev, logs st (learn clock results snap_before st).2 [ev]
    /\ type ev = "learn"
    /\ r_gain (learn clock results snap_before st).1
       = (snap_r (Metrics.snapshot None (clock (ticks st)))
          - snap_r snap_before)%R.
Proof.
  unfold learn. rewrite bind_run.
  set (st1 := (snapshot clock st).2).
  rewrite bind_run.
  pose proof (sort_results_logs results [] [] st1) as Hs.
  set (sr := sort_results results [] [] st1) in *.
  destruct sr as [[kept_ rejected_] st2] eqn:Hsr. cbn [fst snd] in *.
  rewrite bind_run. cbn [gets fst snd].
  rewrite bind_run.
  match goal with
  | |- context [log_event clock "learn" ?d st2] =>
      destruct (log_event_logs "learn" d st2) as (ev & Hev & Hty & _)
  end.
  exists ev. cbn [mret M_ret fst snd].
  refine (conj _ (conj _ _)).
  - apply (logs_trans st st2 _ [] [ev]); [| exact Hev].
    apply (logs_trans st st1 st2 [] []); [| exact Hs].
    apply snapshot_logs.
  - exact Hty.
  - reflexivity.
Qed.


(** One cycle, phase by phase. *)
Lemma run_cycle_trace (st : State) :
  let summary := (run_cycle clock random st).1 in
  let st' := (run_cycle clock random st).2 in
  exists ev_reflect ev_plan evs_act ev_learn results g tys,
    log st' = log st ++ [ev_reflect; ev_plan] ++ evs_act ++ [ev_learn]
    /\ type ev_reflect = "reflect"
    /\ type ev_plan = "plan"
    /\ data ev_plan = PlanData g (cs_experiments summary) tys
    /\ type <$> evs_act = replicate (length results) "act"
    /\ data <$> evs_act = ActData <$> results
    /\ Forall (fun r => executed r = true) results
    /\ len results = cs_experiments summary
    /\ type ev_learn = "learn"
    /\ Forall (fun e => cycle e = (cycle_count st + 1)%Z)
         ([ev_reflect; ev_plan] ++ evs_act ++ [ev_learn])
    /\ cycle_count st' = (cycle_count st + 1)%Z
    /\ cs_cycle summary = (cycle_count st + 1)%Z
    /\ total_experiments st'
       = (total_experiments st + cs_experiments summary)%Z.
Proof.
  cbv zeta.
  set (st0 := set_cycle_count (cycle_count st + 1) st).
  destruct (reflect_logs st0) as (ev_r & Hr & Htr & _).
  set (snap := (reflect clock st0).1) in *.
  set (st1 := (reflect clock st0).2) in *.
  destruct (plan_logs snap st1) as (ev_p & Hp & Htp & g & tys & Hdp).
  pose proof (plan_length snap st1) as Hpl.
  set (exps := (plan clock snap st1).1) in *.
  set (st2 := (plan clock snap st1).2) in *.
  destruct (act_logs exps st2) as (evs & Ha & Hta & Hda & Hlen & Hex).
  set (results := (act clock random exps st2).1) in *.
  set (st3 := (act clock random exps st2).2) in *.
  set (st4 := set_total_experiments (total_experiments st3 + len results) st3).
  destruct (learn_logs results snap st4) as (ev_l & Hl & Htl & _).
  set (summary := (learn clock results snap st4).1) in *.
  set (st5 := (learn clock results snap st4).2) in *.
  assert (Hrun : run_cycle clock random st
    = ({| cs_cycle := cycle_count st5;
          cs_experiments := len exps;
          cs_r_gain := r_gain summary;
          cs_improvements := learn_improvements summary |}, st5))
    by reflexivity.
  rewrite Hrun. cbn [fst snd cs_experiments cs_cycle].
  assert (Hlens : len results = len exps).
  { unfold len. now rewrite Hlen. }
  pose proof (logs_trans _ _ _ _ _ (logs_trans _ _ _ _ _ Hr Hp) Ha) as H03.
  destruct H03 as (Hlog3 & Hc3 & Ht3 & Hf3).
  destruct Hl as (Hlog5 & Hc5 & Ht5 & Hf5).
  exists ev_r, ev_p, evs, ev_l, results, g, tys.
  refine (conj _ (conj Htr (conj Htp (conj Hdp (conj _ (conj Hda
            (conj Hex (conj Hlens (conj Htl (conj _ (conj _
            (conj _ _)))))))))))).
  - rewrite Hlog5. subst st4. cbn [log set_total_experiments].
    rewrite Hlog3. subst st0. cbn [log set_cycle_count].
    now rewrite <- !app_assoc.
  - now rewrite Hta, Hlen.
  - rewrite app_assoc. apply Forall_app. split.
    + exact Hf3.
    + subst st4. cbn [cycle_count set_total_experiments] in Hf5.
      now rewrite Hc3 in Hf5.
  - rewrite Hc5. subst st4. cbn [cycle_count set_total_experiments].
    now rewrite Hc3.
  - rewrite Hc5. subst st4. cbn [cycle_count set_total_experiments].
    now rewrite Hc3.
  - rewrite Ht5. subst st4. cbn [total_experiments set_total_experiments].
    rewrite Ht3. subst st0. cbn [total_experiments set_cycle_count].
    now rewrite Hlens.
Qed.


Lemma run_cycles_counters (k : nat) :
  forall st,
    length (run_cycles clock random k st).1 = k
    /\ cycle_count (run_cycles clock random k st).2
       = (cycle_count st + Z.of_nat k)%Z
    /\ total_experiments (run_cycles clock random k st).2
       = (total_experiments st
          + sum (cs_experiments <$> (run_cycles clock random k st).1))%Z.
Proof.
  induction k as [| k IH]; intros st.
  - cbn. repeat split; lia.
  - cbn [run_cycles]. rewrite !bind_run.
    destruct (run_cycle_trace st)
      as (? & ? & ? & ? & ? & ? & ? & _ & _ & _ & _ & _ & _ & _ & _ & _ & _
          & Hc & _ & Ht).
    cbv zeta in Hc, Ht.
    destruct (IH (run_cycle clock random st).2) as (Hlen & Hck & Htk).
    cbn [mret M_ret fst snd length]. rewrite fmap_cons.
    cbn [sum foldr]. fold (sum (cs_experiments <$>
      (run_cycles clock random k (run_cycle clock random st).2).1)).
    rewrite Hlen, Hck, Htk, Hc, Ht. repeat split; lia.
Qed.

(** The fitness difference [learn] reports inside a cycle. *)
Lemma run_cycle_r_gain (st : State) :
  cs_r_gain (run_cycle clock random st).1 = 0%R.
Proof.
  set (st0 := set_cycle_count (cycle_count st + 1) st).
  destruct (reflect_logs st0) as (_ & _ & _ & Hsnap).
  set (snap := (reflect clock st0).1) in *.
  set (st1 := (reflect clock st0).2).
  set (exps := (plan clock snap st1).1).
  set (st2 := (plan clock snap st1).2).
  set (results := (act clock random exps st2).1).
  set (st3 := (act clock random exps st2).2).
  set (st4 := set_total_experiments (total_experiments st3 + len results) st3).
  destruct (learn_logs results snap st4) as (_ & _ & _ & Hgain).
  change (cs_r_gain (run_cycle clock random st).1)
    with (r_gain (learn clock results snap st4).1).
  rewrite Hgain, Hsnap, !snapshot_r_constant. apply Rminus_diag.
Qed.

(** The [break] of [run] is never taken. *)
Lemma run_loop_cycles (n : nat) :
  forall st,
    cycle_count (run_loop clock random n st).2
    = (cycle_count st + Z.of_nat n)%Z.
Proof.
  induction n as [| n IH]; intros st.
  - cbn. lia.
  - cbn [run_loop]. rewrite !bind_run, snapshot_run. cbn [fst snd].
    destruct (Rle_dec 0.999 _) as [Hge | _].
    + rewrite snapshot_r_constant in Hge.
      pose proof fitness_below_stop. exfalso. lra.
    + rewrite IH. cbn [cycle_count set_ticks].
      destruct (run_cycle_trace st)
        as (? & ? & ? & ? & ? & ? & ? & _ & _ & _ & _ & _ & _ & _ & _ & _
            & _ & Hc & _).
      cbv zeta in Hc. rewrite Hc. lia.
Qed.

Lemma run_cycles_of_run (max_cycles : Z) (st : State) :
  cycle_count (run clock random max_cycles st).2
  = (cycle_count st + Z.max 0 max_cycles)%Z
  /\ rs_cycles (run clock random max_cycles st).1
     = (cycle_count st + Z.max 0 max_cycles)%Z.
Proof.
  pose proof (run_loop_cycles (Z.to_nat max_cycles) st) as Hn.
  unfold run. rewrite !bind_run.
  set (st1 := (run_loop clock random (Z.to_nat max_cycles) st).2) in *.
  cbn [mret M_ret gets fst snd rs_cycles].
  rewrite snapshot_run. cbn [snd cycle_count set_ticks].
  rewrite Hn. split; lia.
Qed.


(** ** Claims about the loop *)

(** C9: a call of [run_cycle] adds exactly [1] to [cycle_count] and the
    number [n] of experiments of its plan phase to [total_experiments];
    it appends to the log one ["reflect"] event, one ["plan"] event (which
    records [n]), [n] ["act"] events, one for each executed experiment, and
    one ["learn"] event, all stamped with the new cycle number. Hence after
    [k] cycles [cycle_count] has grown by [k] and [total_experiments] by
    the sum of the experiment counts of the [k] cycles. *)
Theorem run_cycle_accounting (st : State) (k : nat) :
  let summary := (run_cycle clock random st).1 in
  let st' := (run_cycle clock random st).2 in
  let n := cs_experiments summary in
  cycle_count st' = (cycle_count st + 1)%Z
  /\ total_experiments st' = (total_experiments st + n)%Z
  /\ (exists evs results g tys,
        log st' = log st ++ evs
        /\ type <$> evs = cycle_phases (Z.to_nat n)
        /\ Forall (fun e => cycle e = cycle_count st') evs
        /\ data <$> evs !! 1%nat = Some (PlanData g n tys)
        /\ len results = n
        /\ Forall (fun r => executed r = true) results
        /\ data <$> take (Z.to_nat n) (drop 2 evs) = ActData <$> results)
  /\ (let summaries := (run_cycles clock random k st).1 in
      let st_k := (run_cycles clock random k st).2 in
      length summaries = k
      /\ cycle_count st_k = (cycle_count st + Z.of_nat k)%Z
      /\ total_experiments st_k
         = (total_experiments st + sum (cs_experiments <$> summaries))%Z).
Proof.
  cbv zeta.
  destruct (run_cycle_trace st)
    as (ev_r & ev_p & evs & ev_l & results & g & tys & Hlog & Htr & Htp
        & Hdp & Hta & Hda & Hex & Hlen & Htl & Hcy & Hc & _ & Ht).
  cbv zeta in *.
  assert (Hn : Z.to_nat (cs_experiments (run_cycle clock random st).1)
               = length results).
  { rewrite <- Hlen. unfold len. apply Nat2Z.id. }
  assert (Hle : length evs = length results).
  { rewrite <- (length_fmap type evs), Hta. apply length_replicate. }
  refine (conj Hc (conj Ht (conj _ (run_cycles_counters k st)))).
  exists ([ev_r; ev_p] ++ evs ++ [ev_l]), results, g, tys.
  refine (conj Hlog (conj _ (conj _ (conj _ (conj Hlen (conj Hex _)))))).
  - rewrite Hn. unfold cycle_phases. rewrite !fmap_app, Hta.
    cbn [fmap list_fmap]. now rewrite Htr, Htp, Htl.
  - now rewrite Hc.
  - cbn. now rewrite Hdp.
  - rewrite Hn. cbn [app drop]. rewrite drop_0.
    rewrite take_app_length' by (symmetry; exact Hle). exact Hda.
Qed.

(** The state [run_loop] leaves is the state after [n] rounds of
    [run_cycle] and the snapshot of the stop test: no round is skipped. *)
Lemma run_loop_state (n : nat) :
  forall st,
    (run_loop clock random n st).2
    = Nat.iter n
        (fun s => (snapshot clock (run_cycle clock random s).2).2) st.
Proof.
  induction n as [| n IH]; intros st; [reflexivity |].
  rewrite Nat.iter_succ_r. cbn [run_loop].
  rewrite !bind_run, snapshot_run. cbn [fst snd].
  destruct (Rle_dec 0.999 _) as [Hge | _].
  - exfalso. rewrite snapshot_r_constant in Hge.
    pose proof fitness_below_stop. lra.
  - rewrite IH. reflexivity.
Qed.

(** C3: the fitness a snapshot reports is the one constant
    [rd(1085/1200)], whatever the time argument, the clock, the registry
    and the loop state; it lies below the stop level [0.999]; the gain
    [learn] computes in a cycle is [0]; and [run(max_cycles)] performs
    exactly [max_cycles] cycles (none for a negative argument): the state
    it leaves is the state after that many rounds of [run_cycle] and the
    snapshot of the stop test, followed by the closing snapshot, and the
    cycle counter, in the state and in the summary, has grown by that
    number. *)
Theorem fitness_is_constant_and_run_never_stops_early
    (now_ : option datetime) (t : datetime) (st : State) (max_cycles : Z) :
  snap_r (Metrics.snapshot now_ t) = rd_default (1085 / 1200)
  /\ snap_r (snapshot clock st).1 = rd_default (1085 / 1200)
  /\ (rd_default (1085 / 1200) < 0.999)%R
  /\ cs_r_gain (run_cycle clock random st).1 = 0%R
  /\ (run clock random max_cycles st).2
     = (snapshot clock
          (Nat.iter (Z.to_nat max_cycles)
             (fun s => (snapshot clock (run_cycle clock random s).2).2)
             st)).2
  /\ cycle_count (run clock random max_cycles st).2
     = (cycle_count st + Z.max 0 max_cycles)%Z
  /\ rs_cycles (run clock random max_cycles st).1
     = (cycle_count st + Z.max 0 max_cycles)%Z.
Proof.
  refine (conj _ (conj _ (conj _ (conj _ (conj _ _))))).
  - apply snapshot_r_constant.
  - rewrite snapshot_run. apply snapshot_r_constant.
  - apply fitness_below_stop.
  - apply run_cycle_r_gain.
  - unfold run. rewrite !bind_run, run_loop_state. reflexivity.
  - apply run_cycles_of_run.
Qed.

End LoopFacts.

(** * Further properties *)

(** ** The step-by-step smoothers on every input *)

Section SmoothersEverywhere.
Import Metrics RecursivePhi SpecWords.
Local Open Scope R_scope.

Lemma clamp_unit (x : R) : 0 <= clamp x <= 1.
Proof. apply clamp01_range. Qed.

Lemma clamp_idem (x : R) : clamp (clamp x) = clamp x.
Proof. apply clamp_id, clamp_unit. Qed.

Lemma recursive_clamps_first (x : R) (n : Z) :
  phi_smooth_recursive x n = phi_smooth_recursive (clamp x) n.
Proof.
  rewrite (phi_smooth_recursive_equation_1 x n),
          (phi_smooth_recursive_equation_1 (clamp x) n).
  destruct (Z_le_gt_dec n 0); simpl; now rewrite clamp_idem.
Qed.

Lemma recursive_everywhere (x : R) (n : Z) :
  phi_smooth_recursive x n = Nat.iter (Z.to_nat n) (f PHI) (clamp x).
Proof.
  rewrite recursive_clamps_first.
  apply recursive_as_iter; [reflexivity | apply clamp_unit].
Qed.

Lemma iterative_everywhere (x : R) (n : Z) :
  phi_smooth_iterative x n = Nat.iter (Z.to_nat n) (f PHI) (clamp x).
Proof.
  unfold phi_smooth_iterative. cbv zeta.
  change (fun x0 : R => 1 - (1 - x0) / PHI) with (f PHI).
  apply clamp_id, iter_f_unit, clamp_unit.
Qed.

Lemma lambda_everywhere (k : nat) :
  forall (x : R) (n : Z), Z.to_nat n = k ->
  lambda_ps x n = Nat.iter k (f PHI) (clamp x).
Proof.
  induction k as [| k IH]; intros x n Hk; simp lambda_ps.
  - destruct (Z_le_gt_dec n 0) as [Hle | Hgt]; simpl; [reflexivity | lia].
  - destruct (Z_le_gt_dec n 0) as [Hle | Hgt]; simpl; [lia |].
    rewrite (IH _ (n - 1)%Z) by lia.
    change (1 - (1 - Rmax 0 (Rmin 1 x)) / PHI) with (f PHI (clamp x)).
    rewrite (clamp_id (f PHI (clamp x))) by apply f_unit, clamp_unit.
    symmetry. apply (Nat.iter_succ_r k (f PHI) (clamp x)).
Qed.

Lemma ps_clamps_first (x : R) (n : Z) : ps x n = ps (clamp x) n.
Proof.
  unfold ps. cbv zeta. fold (clamp x). fold (clamp (clamp x)).
  now rewrite clamp_idem.
Qed.

Lemma lambda_is_recursive (x : R) (n : Z) :
  phi_smooth_lambda x n = phi_smooth_recursive x n.
Proof.
  unfold phi_smooth_lambda.
  now rewrite recursive_everywhere, (lambda_everywhere _ x n eq_refl).
Qed.

Lemma iterative_is_recursive (x : R) (n : Z) :
  phi_smooth_iterative x n = phi_smooth_recursive x n.
Proof. now rewrite recursive_everywhere, iterative_everywhere. Qed.

Lemma ps_is_recursive (x : R) (n : Z) :
  (0 <= n)%Z -> ps x n = phi_smooth_recursive x n.
Proof.
  intros Hn. rewrite recursive_everywhere, ps_clamps_first.
  apply ps_as_iter; [apply clamp_unit | exact Hn].
Qed.

Lemma recursive_no_depth (x : R) (n : Z) :
  (n <= 0)%Z -> phi_smooth_recursive x n = clamp x.
Proof.
  intros Hn. rewrite recursive_everywhere.
  now replace (Z.to_nat n) with 0%nat by lia.
Qed.

Lemma iter_f_add (a b : nat) (x : R) :
  Nat.iter (a + b) (f PHI) x = Nat.iter b (f PHI) (Nat.iter a (f PHI) x).
Proof.
  rewrite Nat.add_comm. induction b as [| b IH]; simpl; [reflexivity |].
  now rewrite IH.
Qed.

(** Nesting two smoothings adds their depths (a negative depth counts as
    none). *)
Theorem nested_adds_depths (x : R) (outer inner : Z) :
  phi_smooth_nested x outer inner
  = phi_smooth_recursive x (Z.max 0 inner + Z.max 0 outer).
Proof.
  unfold phi_smooth_nested. cbv zeta.
  rewrite !recursive_everywhere.
  rewrite (clamp_id (Nat.iter _ _ _)) by apply iter_f_unit, clamp_unit.
  rewrite <- iter_f_add. f_equal. lia.
Qed.

End SmoothersEverywhere.

(** ** The convergence trace *)

Section ConvergenceTrace.
Import Metrics RecursivePhi SpecWords.
Local Open Scope R_scope.

(** The [i]-th smoothing of the clamped input. *)
Local Abbreviation step_n x i := (Nat.iter i (f PHI) (clamp x)).

Lemma f_climbs (v : R) : 0 <= v <= 1 -> v <= f PHI v.
Proof.
  intros Hv. unfold f. rewrite PHI_is_P. pose proof P_gt_1 as HP.
  assert (Hi : 0 < / P < 1).
  { split; [apply Rinv_0_lt_compat; lra |].
    assert (Hlt : / P < / 1) by (apply Rinv_lt_contravar; lra).
    now rewrite Rinv_1 in Hlt. }
  unfold Rdiv. nra.
Qed.

Lemma trace_loop_spec (x : R) (k : nat) :
  forall (j : nat) (current : R) (trace : list R),
    current = step_n x j ->
    trace = (fun i => step_n x i) <$> seq 0 (S j) ->
    trace_loop k current trace
    = (fun i => step_n x i) <$> seq 0 (S (j + k)).
Proof.
  induction k as [| k IH]; intros j current trace Hc Ht.
  - simpl. now rewrite Nat.add_0_r.
  - cbn [trace_loop]. cbv zeta.
    rewrite (IH (S j)).
    + f_equal. f_equal. lia.
    + rewrite Hc.
      change (1 - (1 - step_n x j) / PHI) with (f PHI (step_n x j)).
      apply clamp_id, f_unit, iter_f_unit, clamp_unit.
    + rewrite Ht, Hc.
      change (1 - (1 - step_n x j) / PHI) with (f PHI (step_n x j)).
      rewrite (clamp_id (f PHI _))
        by apply f_unit, iter_f_unit, clamp_unit.
      rewrite (seq_S (S j) 0), fmap_app. reflexivity.
Qed.

Lemma trace_as_steps (x : R) (max_depth : Z) :
  phi_convergence_trace x max_depth
  = (fun i => step_n x i) <$> seq 0 (S (Z.to_nat max_depth)).
Proof.
  unfold phi_convergence_trace. cbv zeta.
  now rewrite (trace_loop_spec x (Z.to_nat max_depth) 0 (clamp x) [clamp x]).
Qed.

Lemma trace_lookup (x : R) (max_depth : Z) (i : nat) :
  (i <= Z.to_nat max_depth)%nat ->
  phi_convergence_trace x max_depth !! i = Some (step_n x i).
Proof.
  intros Hi. rewrite trace_as_steps, list_lookup_fmap.
  rewrite lookup_seq_lt by lia. reflexivity.
Qed.

Lemma trace_lookup_inv (x : R) (max_depth : Z) (i : nat) (v : R) :
  phi_convergence_trace x max_depth !! i = Some v ->
  (i <= Z.to_nat max_depth)%nat /\ v = step_n x i.
Proof.
  intros H. assert (Hlt : (i < S (Z.to_nat max_depth))%nat).
  { apply lookup_lt_Some in H.
    now rewrite trace_as_steps, length_fmap, length_seq in H. }
  split; [lia |]. rewrite trace_lookup in H by lia. congruence.
Qed.

(** The trace lists the smoothings of depth [0] to [max_depth] in order:
    it has [max_depth + 1] entries (one for a negative [max_depth]), its
    [i]-th entry is [phi_smooth_recursive x i], every entry lies in
    [[0,1]], and the entries never decrease. *)
Theorem convergence_trace_spec (x : R) (max_depth : Z) :
  let trace := phi_convergence_trace x max_depth in
  length trace = S (Z.to_nat max_depth)
  /\ (forall i, (i <= Z.to_nat max_depth)%nat ->
        trace !! i = Some (phi_smooth_recursive x (Z.of_nat i)))
  /\ Forall (fun v => 0 <= v <= 1) trace
  /\ (forall i a b, trace !! i = Some a -> trace !! S i = Some b -> a <= b).
Proof.
  cbv zeta. repeat split.
  - now rewrite trace_as_steps, length_fmap, length_seq.
  - intros i Hi. rewrite trace_lookup by exact Hi.
    now rewrite recursive_everywhere, Nat2Z.id.
  - apply Forall_forall. intros v Hv.
    apply list_elem_of_lookup in Hv as [i Hi].
    apply trace_lookup_inv in Hi as [_ ->].
    apply iter_f_unit, clamp_unit.
  - intros i a b Ha Hb.
    apply trace_lookup_inv in Ha as [_ ->].
    apply trace_lookup_inv in Hb as [_ ->].
    simpl. apply f_climbs, iter_f_unit, clamp_unit.
Qed.

Lemma convergence_trace_spec_witness :
  phi_convergence_trace (1/2) 2 !! 1%nat
  = Some (phi_smooth_recursive (1/2) (Z.of_nat 1)).
Proof.
  destruct (convergence_trace_spec (1/2) 2) as (_ & H & _).
  apply H. vm_compute. lia.
Defined.

End ConvergenceTrace.


(** ** [pack] *)

Section DepthAndPack.
Import Metrics RecursivePhi SpecWords.
Local Open Scope R_scope.

(** Whatever its argument, a compression of depth [n >= 0] is at least
    the compression of [0]. *)
Lemma ps_floor (y : R) (n : Z) : (0 <= n)%Z -> ps 0 n <= ps y n <= 1.
Proof.
  intros Hn. split; [| apply ps_range].
  rewrite (ps_clamps_first y). pose proof (clamp_unit y) as Hc.
  destruct (Req_dec (clamp y) 0) as [-> | Hne]; [lra |].
  left. apply ps_strict_mono; lra || assumption.
Qed.

Lemma ps_zero_depth3_floor : 3 / 4 <= ps 0 3.
Proof.
  eapply Rle_trans; [| apply ps_depth3_lower; lra]. lra.
Qed.

(** [pack] of the empty list is [0]; of any other list it lies between
    [ps 0 3 >= 3/4] and [1], so it is never [0]; of a single value [v] it
    is the double compression of [v]. *)
Theorem pack_bounds (values : list R) (v : R) :
  pack [] = 0
  /\ (values <> [] -> ps 0 3 <= pack values <= 1)
  /\ 3 / 4 <= ps 0 3
  /\ pack [v] = ps (ps v 3) 3.
Proof.
  refine (conj eq_refl (conj _ (conj ps_zero_depth3_floor _))).
  - intros Hne. destruct values as [| v0 rest]; [contradiction |].
    unfold pack. apply ps_floor. lia.
  - unfold pack. cbn [fold_left len length]. cbv zeta.
    pose proof (ps_floor v 3 ltac:(lia)) as Hv.
    pose proof ps_zero_depth3_floor as H0.
    rewrite Rmult_1_l.
    change (IZR (len [v])) with 1. rewrite Rdiv_1_r.
    set (y := ps v 3) in *. set (z := ps 0 3) in *.
    unfold float_pow. destruct (Req_dec_T y 0) as [Hz | _]; [lra |].
    rewrite Rpower_1 by lra. reflexivity.
Qed.

Lemma pack_bounds_witness : ps 0 3 <= pack [1/2; 1/4] <= 1.
Proof.
  destruct (pack_bounds [1/2; 1/4] 0) as (_ & H & _).
  apply H. discriminate.
Defined.

End DepthAndPack.

(** ** More on the registry *)

Section MoreRegistry.
Import Py Registry Vocabulary Terms Examples.

(** [use] binds last-write-wins: the kind it names is bound to the new
    loader, every other kind keeps its binding, binding the same kind twice
    keeps the second loader only, the components are untouched, and a
    component of another kind materializes as before. *)
Theorem use_last_write_wins (w : World) (s : Registry)
    (k k' l l' u : string) (c : Component) :
  loaders (use s k l) !! k = Some l
  /\ (k <> k' -> loaders (use s k l) !! k' = loaders s !! k')
  /\ use (use s k l') k l = use s k l
  /\ components (use s k l) = components s
  /\ (components s !! u = Some c -> kind c <> k ->
      materialize w (use s k l) u = materialize w s u).
Proof.
  repeat split.
  - apply lookup_insert_eq.
  - intros Hne. now apply lookup_insert_ne.
  - unfold use. simpl. now rewrite insert_insert_eq.
  - intros Hc Hk. unfold materialize. simpl. rewrite Hc. simpl.
    rewrite lookup_insert_ne by congruence. reflexivity.
Qed.

Lemma use_last_write_wins_witness :
  loaders (use registry_a "python" "m.P") !! "yaml"
  = loaders registry_a !! "yaml"
  /\ materialize world (use registry_a "python" "m.P") "A"
     = materialize world registry_a "A".
Proof.
  destruct (use_last_write_wins world registry_a "python" "yaml" "m.P" ""
              "A" component_a) as (_ & H1 & _ & _ & H2).
  split; [apply H1; discriminate | apply H2; [reflexivity | discriminate]].
Defined.

(** [list_components] lists each registered uid once, lists exactly the
    uids a lookup finds, and is as long as [component_count] says. *)
Theorem list_components_spec (s : Registry) :
  NoDup (list_components s)
  /\ (forall u, u ∈ list_components s <-> is_Some (components s !! u))
  /\ Z.of_nat (length (list_components s)) = component_count s.
Proof.
  unfold list_components, component_count. repeat split.
  - apply NoDup_fst_map_to_list.
  - intros Hu. apply list_elem_of_fmap in Hu as ([u' c] & -> & Hin).
    apply elem_of_map_to_list in Hin. simpl. eauto.
  - intros [c Hc]. apply list_elem_of_fmap. exists (u, c).
    split; [reflexivity | now apply elem_of_map_to_list].
  - now rewrite length_fmap, length_map_to_list.
Qed.

Lemma register_manifest_outcome (rows : list row) :
  forall s s', (register_manifest s rows).1 = (register_manifest s' rows).1.
Proof.
  induction rows as [| r rest IH]; intros s s'; simpl; [reflexivity |].
  destruct (component_of_row r) as [c | e]; [apply IH | reflexivity].
Qed.

(** After a load, a uid holds the last accepted component with that uid,
    or what it held before when there is none. *)
Lemma register_manifest_lookup (rows : list row) :
  forall s i,
    components (register_manifest s rows).2 !! i
    = match last_with_uid i (accepted rows) with
      | Some c => Some c
      | None => components s !! i
      end.
Proof.
  induction rows as [| r rest IH]; intros s i; simpl; [reflexivity |].
  destruct (component_of_row r) as [c | e]; simpl; [| reflexivity].
  rewrite IH. simpl.
  destruct (last_with_uid i (accepted rest)) as [c' |]; [reflexivity |].
  rewrite lookup_insert.
  destruct (String.eqb_spec (uid c) i) as [Heq | Hne];
    case_decide; congruence.
Qed.

Lemma registry_eq (s s' : Registry) :
  components s = components s' -> loaders s = loaders s' -> s = s'.
Proof. destruct s, s'. simpl. now intros -> ->. Qed.

(** Loading a manifest a second time changes nothing: the outcome and the
    store are those of the first load, whether it succeeded or stopped at
    a malformed record. *)
Theorem register_manifest_idempotent (s : Registry) (rows : list row) :
  register_manifest (register_manifest s rows).2 rows
  = register_manifest s rows.
Proof.
  apply injective_projections.
  - apply register_manifest_outcome.
  - apply registry_eq.
    + apply map_eq. intros i. rewrite !register_manifest_lookup.
      now destruct (last_with_uid i (accepted rows)).
    + now rewrite !register_manifest_loaders.
Qed.

Lemma accepted_well_formed (rows : list row) :
  Forall well_formed rows -> length (accepted rows) = length rows.
Proof.
  induction 1 as [| r rest Hr _ IH]; simpl; [reflexivity |].
  destruct (component_of_well_formed r Hr) as (c & -> & _).
  simpl. now rewrite IH.
Qed.

Lemma register_manifest_size_bounds (rows : list row) :
  forall s,
    (size (components s) <= size (components (register_manifest s rows).2)
     <= size (components s) + length rows)%nat.
Proof.
  induction rows as [| r rest IH]; intros s; simpl; [lia |].
  destruct (component_of_row r) as [c | e]; simpl; [| lia].
  specialize (IH {| components := <[uid c := c]> (components s);
                    loaders := loaders s |}).
  simpl in IH. rewrite map_size_insert in IH.
  destruct (components s !! uid c); simpl in IH; lia.
Qed.

(** Duplicate ids are resolved last-write-wins: after a load, each uid
    holds the component of the last accepted record with that uid, with
    that record's kind and its config (or an empty dict), and uids no
    accepted record names keep what they held; the count never drops and
    grows by at most the number of records. *)
Theorem register_manifest_last_wins (s : Registry) (rows : list row)
    (i : string) :
  components (register_manifest s rows).2 !! i
  = match last_with_uid i (accepted rows) with
    | Some c => Some c
    | None => components s !! i
    end
  /\ (component_count s <= component_count (register_manifest s rows).2
      <= component_count s + Metrics.len rows)%Z
  /\ (forall r rest, rows = rest ++ [r] -> Forall well_formed rows ->
      row_id r = Some i ->
      exists k,
        row_kind r = Some k
        /\ components (register_manifest s rows).2 !! i
           = Some {| uid := i; kind := k;
                     conf := default (VDict []) (row_config r) |}).
Proof.
  split; [apply register_manifest_lookup |]. split.
  - pose proof (register_manifest_size_bounds rows s).
    unfold component_count, Metrics.len. lia.
  - intros r rest -> Hwf Hid.
    apply Forall_app in Hwf as [Hrest Hr].
    inversion Hr as [| ? ? [_ [k Hk]] _]; subst.
    exists k. split; [exact Hk |].
    rewrite register_manifest_app
      by now apply register_manifest_well_formed.
    simpl. unfold component_of_row. rewrite Hid, Hk. simpl.
    apply lookup_insert_eq.
Qed.

Lemma register_manifest_last_wins_witness :
  exists k,
    row_kind row_a' = Some k
    /\ components (register_manifest init ([row_a; row_b] ++ [row_a'])).2
         !! "A"
       = Some {| uid := "A"; kind := k;
                 conf := default (VDict []) (row_config row_a') |}.
Proof.
  destruct (register_manifest_last_wins init ([row_a; row_b] ++ [row_a'])
              "A") as (_ & _ & H).
  apply (H row_a' [row_a; row_b]).
  - reflexivity.
  - repeat constructor; simpl; eauto.
  - reflexivity.
Defined.

(** With the bindings of [setup_registry], a component whose kind is none
    of ["yaml"], ["python"], ["http"] cannot be materialized: the dispatch
    raises [KeyError] of the kind, in every world and after any manifest
    load. *)
Theorem setup_registry_kinds (w : World) (rows : list row) (u : string)
    (c : Component) :
  components (register_manifest Cli.setup_registry rows).2 !! u = Some c ->
  kind c <> "yaml" -> kind c <> "python" -> kind c <> "http" ->
  materialize w (register_manifest Cli.setup_registry rows).2 u
  = Raise (Exn KeyError (kind c)).
Proof.
  intros Hc Hy Hp Hh. unfold materialize. rewrite Hc. simpl.
  rewrite register_manifest_loaders. unfold Cli.setup_registry, use. simpl.
  rewrite !lookup_insert_ne by congruence. now rewrite lookup_empty.
Qed.

Lemma setup_registry_kinds_witness :
  materialize world
    (register_manifest Cli.setup_registry
       [{| row_id := Some "G"; row_kind := Some "grpc";
           row_config := None |}]).2 "G"
  = Raise (Exn KeyError "grpc").
Proof.
  apply (setup_registry_kinds world _ "G"
           {| uid := "G"; kind := "grpc"; conf := VDict [] |});
    [reflexivity | discriminate | discriminate | discriminate].
Defined.

End MoreRegistry.

(** ** More on the phases of the loop *)

Section MorePhases.
Import Metrics Registry Loop Vocabulary Terms.
Variable clock : nat -> datetime.
Variable random : nat -> R.

Lemma draws_log_event (ty : string) (d : event_data) (st : State) :
  draws (log_event clock ty d st).2 = draws st.
Proof. reflexivity. Qed.

Lemma draws_uniform (a b : R) (st : State) :
  draws (uniform random a b st).2 = S (draws st).
Proof. reflexivity. Qed.

Lemma act_outcomes (experiments : list Experiment) :
  forall st,
    (act clock random experiments st).1
    = imap (outcome random (draws st)) experiments
    /\ draws (act clock random experiments st).2
       = (draws st + length experiments)%nat
    /\ improvements (act clock random experiments st).2 = improvements st
    /\ registry (act clock random experiments st).2 = registry st.
Proof.
  induction experiments as [| exp rest IH]; intros st.
  - cbn. repeat split. lia.
  - cbn [act]. rewrite !bind_run.
    set (st1 := (uniform random 0 (expected_gain exp * 1.5) st).2).
    set (g := (uniform random 0 (expected_gain exp * 1.5) st).1).
    set (result := {| res_type := exp_type exp;
                      res_description := exp_description exp;
                      executed := true; actual_gain := g |}).
    set (st2 := (log_event clock "act" (ActData result) st1).2).
    destruct (IH st2) as (Hres & Hd & Hi & Hr).
    cbn [mret M_ret fst snd]. rewrite Hres, Hd, Hi, Hr.
    refine (conj _ (conj _ (conj eq_refl eq_refl))).
    + rewrite imap_cons. f_equal.
      * unfold outcome. subst result g. cbn. now rewrite Nat.add_0_r.
      * apply imap_ext. intros i x _. unfold outcome. simpl.
        subst st2 st1. rewrite ?draws_log_event, ?draws_uniform.
        cbn. now rewrite Nat.add_succ_r.
    + subst st2 st1. rewrite draws_log_event, draws_uniform.
      cbn [length]. lia.
Qed.

(** [act] answers one result per experiment, in order: the [i]-th result
    carries the type and the description of the [i]-th experiment, is
    marked executed, and gains [1.5 * expected_gain] times the next random
    number; with random numbers in [[0,1]] and a non-negative expected
    gain, the gain lies in [[0, 1.5 * expected_gain]]. One random number is
    drawn per experiment and the counter of kept improvements does not
    move. *)
Theorem act_one_result_per_experiment
    (experiments : list Experiment) (st : State) (i : nat)
    (exp : Experiment) :
  (forall k, (0 <= random k <= 1)%R) ->
  experiments !! i = Some exp -> (0 <= expected_gain exp)%R ->
  length (act clock random experiments st).1 = length experiments
  /\ (exists r,
        (act clock random experiments st).1 !! i = Some r
        /\ res_type r = exp_type exp
        /\ res_description r = exp_description exp
        /\ executed r = true
        /\ actual_gain r
           = (expected_gain exp * 1.5 * random (draws st + i))%R
        /\ (0 <= actual_gain r <= expected_gain exp * 1.5)%R)
  /\ draws (act clock random experiments st).2
     = (draws st + length experiments)%nat
  /\ improvements (act clock random experiments st).2 = improvements st.
Proof.
  intros Hrand Hexp Hpos.
  destruct (act_outcomes experiments st) as (Hres & Hd & Hi & _).
  rewrite Hres, Hd, Hi. refine (conj _ (conj _ (conj eq_refl eq_refl))).
  - apply length_imap.
  - exists (outcome random (draws st) i exp). rewrite list_lookup_imap, Hexp.
    simpl. repeat split; try lra.
    + specialize (Hrand (draws st + i)%nat).
      set (u := random _) in *. set (e := expected_gain exp) in *. nra.
    + specialize (Hrand (draws st + i)%nat).
      set (u := random _) in *. set (e := expected_gain exp) in *. nra.
Qed.

Lemma count_kept_range (results : list ExperimentResult) :
  (0 <= count_kept results <= len results)%Z.
Proof.
  unfold len. induction results as [| r rest IH]; simpl; [lia |].
  destruct (Rle_dec _ _); lia.
Qed.

Lemma sort_results_spec (results : list ExperimentResult) :
  forall kept_ rejected_ st,
    let out := sort_results results kept_ rejected_ st in
    len out.1.1 = (len kept_ + count_kept results)%Z
    /\ len out.1.2
       = (len rejected_ + (len results - count_kept results))%Z
    /\ improvements out.2 = (improvements st + count_kept results)%Z
    /\ draws out.2 = draws st /\ ticks out.2 = ticks st.
Proof.
  induction results as [| r rest IH]; intros kept_ rejected_ st; cbv zeta.
  - cbn. unfold len. repeat split; simpl; lia.
  - cbn [sort_results count_kept].
    destruct (Rle_dec _ _) as [Hge | Hlt].
    + rewrite !bind_run.
      set (st1 := (modify _ _).2).
      destruct (IH (kept_ ++ [r]) rejected_ st1) as (Hk & Hr & Hi & Hd & Ht).
      cbv zeta in *. rewrite Hk, Hr, Hi, Hd, Ht.
      subst st1. cbn. unfold len. rewrite length_app. simpl.
      repeat split; lia.
    + destruct (IH kept_ (rejected_ ++ [r]) st) as (Hk & Hr & Hi & Hd & Ht).
      cbv zeta in *. rewrite Hk, Hr, Hi, Hd, Ht.
      unfold len. rewrite length_app. simpl. repeat split; lia.
Qed.

Lemma learn_counts
    (results : list ExperimentResult) (snap_before : Snapshot) (st : State) :
  let summary := (learn clock results snap_before st).1 in
  let st' := (learn clock results snap_before st).2 in
  kept summary = count_kept results
  /\ (kept summary + rejected summary = len results)%Z
  /\ (0 <= kept summary <= len results)%Z
  /\ improvements st' = (improvements st + kept summary)%Z
  /\ learn_improvements summary = improvements st'
  /\ r_before summary = snap_r snap_before
  /\ rollforward_threshold POLICIES = 0.002%R.
Proof.
  cbv zeta. unfold learn. rewrite bind_run.
  set (st1 := (snapshot clock st).2).
  rewrite bind_run.
  destruct (sort_results_spec results [] [] st1) as (Hk & Hr & Hi & _).
  cbv zeta in *.
  set (sr := sort_results results [] [] st1) in *.
  destruct sr as [[kept_ rejected_] st2]. cbn [fst snd] in *.
  rewrite !bind_run. cbn [gets mret M_ret fst snd kept rejected
                          learn_improvements r_before].
  pose proof (count_kept_range results) as Hc.
  change (len []) with 0%Z in *.
  assert (Himp : improvements
            (log_event clock "learn"
               (LearnData
                  {| r_before := snap_r snap_before;
                     r_after := snap_r (snapshot clock st).1;
                     r_gain := (snap_r (snapshot clock st).1
                                - snap_r snap_before)%R;
                     kept := len kept_; rejected := len rejected_;
                     learn_improvements := improvements st2 |}) st2).2
          = improvements st2) by reflexivity.
  rewrite Himp, Hi, Hk, Hr. subst st1. cbn [improvements].
  repeat split; try lia; reflexivity.
Qed.

(** [learn] sorts every result into kept or rejected: the two counts of
    its summary add up to the number of results, [kept] counts the results
    whose gain reaches the roll-forward threshold [0.002], the counter
    [improvements] grows by exactly [kept], the summary reports the new
    counter, and [r_before] is the fitness of the snapshot passed in. *)
Theorem learn_sorts_every_result
    (results : list ExperimentResult) (snap_before : Snapshot) (st : State) :
  let summary := (learn clock results snap_before st).1 in
  let st' := (learn clock results snap_before st).2 in
  kept summary = count_kept results
  /\ (kept summary + rejected summary = len results)%Z
  /\ (0 <= kept summary <= len results)%Z
  /\ improvements st' = (improvements st + kept summary)%Z
  /\ learn_improvements summary = improvements st'
  /\ r_before summary = snap_r snap_before
  /\ rollforward_threshold POLICIES = 0.002%R.
Proof. apply learn_counts. Qed.

Lemma plan_after_reflect (st st_any : State) :
  (plan clock (reflect clock st).1 st_any).1 = above_gate_experiments.
Proof.
  destruct (reflect_logs clock st) as (_ & _ & _ & ->).
  unfold plan. cbn [mbind M_bind mret M_ret fst snd].
  rewrite snapshot_r_constant.
  destruct (Rlt_dec _ _) as [Hlt | _]; [| reflexivity].
  exfalso. pose proof fitness_above_gate as Hge.
  change (min_gate POLICIES) with TH in Hlt.
  apply (Rlt_not_le _ _ Hlt Hge).
Qed.

Lemma count_kept_above_gate (k : nat) :
  (forall j, (0 <= random j <= 1)%R) ->
  count_kept (imap (outcome random k) above_gate_experiments)
  = if Rle_dec (2 / 3) (random k) then 1%Z else 0%Z.
Proof.
  intros Hrand. cbn [imap above_gate_experiments count_kept outcome
                     compose actual_gain expected_gain].
  change (rollforward_threshold POLICIES) with 0.002%R.
  pose proof (Hrand (k + 0)%nat) as H0.
  pose proof (Hrand (k + 1)%nat) as H1.
  pose proof (Hrand (k + 2)%nat) as H2.
  replace (k + 0)%nat with k in * by lia.
  set (u0 := random k) in *. set (u1 := random (k + 1)) in *.
  set (u2 := random (k + 2)) in *.
  destruct (Rle_dec 0.002 (0 + (0.001 * 1.5 - 0) * u1)) as [Hb | _];
    [exfalso; lra |].
  destruct (Rle_dec 0.002 (0 + (0.001 * 1.5 - 0) * u2)) as [Hb | _];
    [exfalso; lra |].
  destruct (Rle_dec 0.002 (0 + (0.002 * 1.5 - 0) * u0)) as [Ha | Ha];
    destruct (Rle_dec (2 / 3) u0) as [Hc | Hc];
    try reflexivity; exfalso; lra.
Qed.

Lemma run_cycle_improvements (st : State) :
  (forall j, (0 <= random j <= 1)%R) ->
  let summary := (run_cycle clock random st).1 in
  let st' := (run_cycle clock random st).2 in
  improvements st'
  = (improvements st
     + if Rle_dec (2 / 3) (random (draws st)) then 1 else 0)%Z
  /\ cs_improvements summary = improvements st'
  /\ cs_experiments summary = 3%Z
  /\ draws st' = (draws st + 3)%nat
  /\ (forall st1 st2,
        (plan clock (reflect clock st1).1 st2).1 = above_gate_experiments).
Proof.
  intros Hrand. cbv zeta.
  set (st0 := set_cycle_count (cycle_count st + 1) st).
  set (snap := (reflect clock st0).1).
  set (st1 := (reflect clock st0).2).
  pose proof (plan_after_reflect st0 st1) as Hplan. fold snap in Hplan.
  set (exps := (plan clock snap st1).1) in *.
  set (st2 := (plan clock snap st1).2).
  destruct (act_outcomes exps st2) as (Hres & Hd & Hi & _).
  set (results := (act clock random exps st2).1) in *.
  set (st3 := (act clock random exps st2).2) in *.
  set (st4 := set_total_experiments (total_experiments st3 + len results) st3).
  destruct (learn_counts results snap st4)
    as (Hk & _ & _ & Himp & Hli & _).
  cbv zeta in *.
  set (summary := (learn clock results snap st4).1) in *.
  set (st5 := (learn clock results snap st4).2) in *.
  assert (Hrun : run_cycle clock random st
    = ({| cs_cycle := cycle_count st5;
          cs_experiments := len exps;
          cs_r_gain := r_gain summary;
          cs_improvements := learn_improvements summary |}, st5))
    by reflexivity.
  rewrite Hrun. cbn [fst snd cs_improvements cs_experiments].
  assert (Hd2 : draws st2 = draws st) by reflexivity.
  assert (Hi2 : improvements st2 = improvements st) by reflexivity.
  assert (Hd5 : draws st5 = draws st3).
  { subst st5. unfold learn. rewrite bind_run.
    destruct (sort_results_spec results [] []
                (snapshot clock st4).2) as (_ & _ & _ & Hds & _).
    cbv zeta in Hds. rewrite bind_run.
    destruct (sort_results results [] [] (snapshot clock st4).2)
      as [[kept_ rejected_] stx]. cbn [fst snd] in *.
    rewrite !bind_run. cbn [gets mret M_ret fst snd].
    rewrite draws_log_event. exact Hds. }
  refine (conj _ (conj Hli (conj _ (conj _ plan_after_reflect)))).
  - rewrite Himp, Hk. subst st4. cbn [improvements set_total_experiments].
    rewrite Hi, Hi2, Hres, Hplan, Hd2.
    now rewrite count_kept_above_gate.
  - now rewrite Hplan.
  - rewrite Hd5, Hd, Hd2, Hplan. reflexivity.
Qed.

(** In a cycle the gate is open, so [plan] always chooses the three
    above-gate experiments; with random numbers in [[0,1]] only the first
    of them, whose expected gain is [0.002], can reach the roll-forward
    threshold. So a cycle draws three random numbers and adds [0] or [1]
    to [improvements]: [1] when its first random number is at least
    [0.667], [0] when that number is at most [0.666]. (In between lies
    [2/3], where rounding decides.) *)
Theorem run_cycle_keeps_at_most_one (st : State) :
  (forall j, (0 <= random j <= 1)%R) ->
  let summary := (run_cycle clock random st).1 in
  let st' := (run_cycle clock random st).2 in
  (improvements st <= improvements st' <= improvements st + 1)%Z
  /\ ((0.667 <= random (draws st))%R ->
      improvements st' = (improvements st + 1)%Z)
  /\ ((random (draws st) <= 0.666)%R -> improvements st' = improvements st)
  /\ cs_improvements summary = improvements st'
  /\ cs_experiments summary = 3%Z
  /\ draws st' = (draws st + 3)%nat
  /\ (forall st1 st2,
        (plan clock (reflect clock st1).1 st2).1 = above_gate_experiments).
Proof.
  intros Hrand. cbv zeta.
  destruct (run_cycle_improvements st Hrand) as (Hi & Hs & H3 & Hd & Hp).
  cbv zeta in *.
  refine (conj _ (conj _ (conj _ (conj Hs (conj H3 (conj Hd Hp)))))).
  - rewrite Hi. destruct (Rle_dec _ _); lia.
  - intros Hu. rewrite Hi.
    destruct (Rle_dec _ _) as [_ | Hn]; [reflexivity | exfalso; lra].
  - intros Hu. rewrite Hi.
    destruct (Rle_dec _ _) as [Hy | _]; [exfalso; lra | lia].
Qed.

(** One cycle, in numbers. *)
Lemma run_cycle_step (st : State) :
  (forall j, (0 <= random j <= 1)%R) ->
  let st' := (run_cycle clock random st).2 in
  cycle_count st' = (cycle_count st + 1)%Z
  /\ total_experiments st' = (total_experiments st + 3)%Z
  /\ (exists evs, log st' = log st ++ evs /\ length evs = 6%nat)
  /\ (improvements st <= improvements st' <= improvements st + 1)%Z.
Proof.
  intros Hrand. cbv zeta.
  destruct (run_cycle_trace clock random st)
    as (ev_r & ev_p & evs & ev_l & results & g & tys & Hlog & _ & _ & _
        & Hta & _ & _ & Hlen & _ & _ & Hc & _ & Ht).
  destruct (run_cycle_improvements st Hrand) as (Hi & _ & H3 & _).
  cbv zeta in *. rewrite H3 in *.
  refine (conj Hc (conj Ht (conj _ _))).
  - exists ([ev_r; ev_p] ++ evs ++ [ev_l]). split; [exact Hlog |].
    assert (Hl : length evs = length results).
    { rewrite <- (length_fmap type evs), Hta. apply length_replicate. }
    rewrite !length_app, Hl. unfold len in Hlen. simpl. lia.
  - rewrite Hi. destruct (Rle_dec _ _); lia.
Qed.

Lemma snapshot_step (st : State) :
  let st' := (snapshot clock st).2 in
  cycle_count st' = cycle_count st
  /\ total_experiments st' = total_experiments st
  /\ log st' = log st /\ improvements st' = improvements st.
Proof. repeat split. Qed.

Lemma advanced_step (n : nat) (st st1 st2 st' : State) :
  (forall j, (0 <= random j <= 1)%R) ->
  st1 = (run_cycle clock random st).2 ->
  cycle_count st2 = cycle_count st1 ->
  total_experiments st2 = total_experiments st1 ->
  log st2 = log st1 -> improvements st2 = improvements st1 ->
  advanced n st2 st' -> advanced (S n) st st'.
Proof.
  intros Hrand -> Hc2 Ht2 Hl2 Hi2 (Hc & Ht & (evs & Hl & He) & Hi).
  destruct (run_cycle_step st Hrand) as (Hc1 & Ht1 & (evs1 & Hl1 & He1) & Hi1).
  cbv zeta in *. unfold advanced.
  rewrite Hc, Ht, Hl, Hc2, Ht2, Hl2, Hc1, Ht1, Hl1.
  rewrite Hi2 in Hi.
  refine (conj _ (conj _ (conj _ _))); try lia.
  exists (evs1 ++ evs). rewrite app_assoc, length_app. split; [reflexivity |].
  lia.
Qed.

Lemma advanced_refl (st : State) : advanced 0 st st.
Proof.
  unfold advanced. repeat split; try lia.
  exists []. now rewrite app_nil_r.
Qed.

Lemma run_loop_advanced (n : nat) :
  (forall j, (0 <= random j <= 1)%R) ->
  forall st, advanced n st (run_loop clock random n st).2.
Proof.
  intros Hrand. induction n as [| n IH]; intros st.
  - apply advanced_refl.
  - cbn [run_loop]. rewrite !bind_run, snapshot_run. cbn [fst snd].
    destruct (Rle_dec 0.999 _) as [Hge | _].
    + exfalso. rewrite snapshot_r_constant in Hge.
      pose proof fitness_below_stop. lra.
    + eapply advanced_step; [exact Hrand | reflexivity | | | | | apply IH];
        reflexivity.
Qed.

Lemma cycles_loop_advanced (n : nat) :
  (forall j, (0 <= random j <= 1)%R) ->
  forall st, advanced n st (Cli.cycles_loop clock random n st).2.
Proof.
  intros Hrand. induction n as [| n IH]; intros st.
  - apply advanced_refl.
  - cbn [Cli.cycles_loop]. rewrite !bind_run.
    eapply advanced_step; [exact Hrand | reflexivity | | | | | apply IH];
      reflexivity.
Qed.

(** [run(max_cycles)] with random numbers in [[0,1]] performs
    [n = max(0, max_cycles)] cycles: it adds [n] to [cycle_count], [3 n] to
    [total_experiments] and between [0] and [n] to [improvements], appends
    [6 n] lines to the log without touching the lines already there, and
    reports the three counters and the constant fitness in its summary. *)
Theorem run_totals (max_cycles : Z) (st : State) :
  (forall j, (0 <= random j <= 1)%R) ->
  let summary := (run clock random max_cycles st).1 in
  let st' := (run clock random max_cycles st).2 in
  advanced (Z.to_nat max_cycles) st st'
  /\ Z.of_nat (Z.to_nat max_cycles) = Z.max 0 max_cycles
  /\ rs_cycles summary = cycle_count st'
  /\ rs_total_experiments summary = total_experiments st'
  /\ rs_improvements summary = improvements st'
  /\ rs_final_r_dod summary = rd_default (1085 / 1200).
Proof.
  intros Hrand. cbv zeta.
  pose proof (run_loop_advanced (Z.to_nat max_cycles) Hrand st) as Hadv.
  unfold run. rewrite !bind_run.
  set (st1 := (run_loop clock random (Z.to_nat max_cycles) st).2) in *.
  cbn [mret M_ret gets fst snd rs_cycles rs_total_experiments
       rs_improvements rs_final_r_dod].
  rewrite snapshot_run. cbn [fst snd].
  refine (conj _ (conj _ (conj eq_refl (conj eq_refl (conj eq_refl _))))).
  - exact Hadv.
  - lia.
  - apply snapshot_r_constant.
Qed.

(** A manifest load succeeds exactly on well-formed records. *)
Lemma register_manifest_ok_iff (s : Registry.Registry)
    (rows : list Registry.row) :
  (register_manifest s rows).1 = Py.Ok tt <-> Forall well_formed rows.
Proof.
  split; [| apply register_manifest_well_formed].
  revert s. induction rows as [| r rest IH]; intros s Hok; [constructor |].
  simpl in Hok. unfold component_of_row in Hok.
  destruct (row_id r) as [i |] eqn:Hi; [| discriminate].
  destruct (row_kind r) as [k |] eqn:Hk; [| discriminate].
  simpl in Hok. constructor.
  - split; [rewrite Hi | rewrite Hk]; eauto.
  - eapply IH, Hok.
Qed.

(** [improve_mode] exits with [1], having neither read the clock nor
    written to the log, exactly when the manifest could not be read or
    holds a record that is not well-formed; otherwise it exits with [0]
    after [n = max(0, cycles)] cycles of a fresh loop: [cycle_count = n],
    [total_experiments = 3 n], [improvements] between [0] and [n], and
    [6 n] new lines at the end of the log. *)
Theorem improve_mode_outcome
    (data : Py.result (list Registry.row)) (cycles : Z) (env : State) :
  (forall j, (0 <= random j <= 1)%R) ->
  let code := (Cli.improve_mode clock random data cycles env).1 in
  let st' := (Cli.improve_mode clock random data cycles env).2 in
  (code = 1%Z <->
     (exists e, data = Py.Raise e)
     \/ (exists rows, data = Py.Ok rows /\ ~ Forall well_formed rows))
  /\ (code = 1%Z -> st' = env)
  /\ (code <> 1%Z ->
      code = 0%Z
      /\ cycle_count st' = Z.max 0 cycles
      /\ total_experiments st' = (3 * Z.max 0 cycles)%Z
      /\ (0 <= improvements st' <= Z.max 0 cycles)%Z
      /\ exists evs, log st' = log env ++ evs
                     /\ length evs = (6 * Z.to_nat cycles)%nat).
Proof.
  intros Hrand. cbv zeta. unfold Cli.improve_mode.
  destruct data as [rows | e].
  - pose proof (register_manifest_ok_iff Cli.setup_registry rows) as Hiff.
    destruct (register_manifest Cli.setup_registry rows) as [[[] | e] reg];
      cbn [fst snd] in *.
    + refine (conj _ (conj _ _)).
      * split; [discriminate |].
        intros [[e He] | (rows' & [= <-] & Hn)]; [discriminate |].
        exfalso. apply Hn, Hiff. reflexivity.
      * discriminate.
      * intros _. split; [reflexivity |].
        set (env1 := (snapshot clock env).2).
        set (loop := Cli.new_loop reg env1).
        destruct (cycles_loop_advanced (Z.to_nat cycles) Hrand loop)
          as (Hc & Ht & (evs & Hl & He) & Hi).
        set (st1 := (Cli.cycles_loop clock random (Z.to_nat cycles) loop).2)
          in *.
        rewrite snapshot_run. cbn [snd cycle_count total_experiments
                                   improvements log set_ticks].
        rewrite Hc, Ht, Hl. subst loop env1.
        cbn [Cli.new_loop cycle_count total_experiments improvements log]
          in *.
        rewrite snapshot_run. cbn [snd log set_ticks].
        refine (conj _ (conj _ (conj _ _))); try lia.
        exists evs. split; [reflexivity | exact He].
    + refine (conj _ (conj _ _)).
      * split; [| reflexivity]. intros _. right. exists rows.
        split; [reflexivity |]. intros Hwf. apply Hiff in Hwf. discriminate.
      * reflexivity.
      * intros Hn. contradiction.
  - cbn [fst snd]. refine (conj _ (conj _ _)).
    + split; [| reflexivity]. intros _. left. eauto.
    + reflexivity.
    + intros Hn. contradiction.
Qed.

End MorePhases.

(** Concrete runs of the loop: a clock that stands still and a random
    generator that always answers [1/2]. *)
Section LoopWitnesses.
Import Metrics Registry Loop Vocabulary Terms Examples.

Lemma half_in_unit : forall j : nat, (0 <= (fun _ : nat => 1 / 2) j <= 1)%R.
Proof. intros j. simpl. lra. Qed.

Lemma act_one_result_per_experiment_witness :
  length (act (fun _ => 0%Z) (fun _ => (1 / 2)%R) above_gate_experiments
            (Loop.init Registry.init)).1
  = length above_gate_experiments.
Proof.
  destruct (act_one_result_per_experiment (fun _ => 0%Z)
              (fun _ => (1 / 2)%R) above_gate_experiments
              (Loop.init Registry.init) 0
              {| exp_type := "discover_components";
                 exp_description :=
                   "Search for new quantum-coherent components";
                 expected_gain := 0.002 |})
    as (H & _); [apply half_in_unit | reflexivity | simpl; lra |].
  exact H.
Defined.

Lemma run_cycle_keeps_at_most_one_witness :
  improvements
    (run_cycle (fun _ => 0%Z) (fun _ => (1 / 2)%R)
       (Loop.init Registry.init)).2
  = improvements (Loop.init Registry.init).
Proof.
  destruct (run_cycle_keeps_at_most_one (fun _ => 0%Z) (fun _ => (1 / 2)%R)
              (Loop.init Registry.init) half_in_unit) as (_ & _ & H & _).
  apply H. lra.
Defined.

Lemma run_totals_witness :
  advanced (Z.to_nat 2) (Loop.init registry_a)
    (run (fun _ => 0%Z) (fun _ => (1 / 2)%R) 2 (Loop.init registry_a)).2.
Proof.
  destruct (run_totals (fun _ => 0%Z) (fun _ => (1 / 2)%R) 2
              (Loop.init registry_a) half_in_unit) as (H & _).
  exact H.
Defined.

Lemma improve_mode_outcome_witness :
  (Cli.improve_mode (fun _ => 0%Z) (fun _ => (1 / 2)%R)
     (Py.Ok [row_a; row_no_id_yaml]) 2 (Loop.init Registry.init)).2
  = Loop.init Registry.init.
Proof.
  destruct (improve_mode_outcome (fun _ => 0%Z) (fun _ => (1 / 2)%R)
              (Py.Ok [row_a; row_no_id_yaml]) 2 (Loop.init Registry.init)
              half_in_unit) as (_ & H & _).
  apply H. reflexivity.
Defined.

End LoopWitnesses.

(** ** More on the loaders *)

Section MoreLoaders.
Import Py Registry Vocabulary Examples.
#[local] Arguments caught : simpl never.

Lemma yaml_loader_result_shape_witness :
  xorb (has_key
          (VDict [("error", VStr "YAML file not found: /srv/a.yaml");
                  ("component", VStr "A"); ("kind", VStr "yaml");
                  ("config", VDict [("path", VStr "a.yaml")])]) "error")
       (has_key
          (VDict [("error", VStr "YAML file not found: /srv/a.yaml");
                  ("component", VStr "A"); ("kind", VStr "yaml");
                  ("config", VDict [("path", VStr "a.yaml")])]) "data")
  = true.
Proof.
  destruct (yaml_loader_result_shape bare_world component_a _ eq_refl)
    as [H _].
  exact H.
Defined.

Lemma python_loader_result_shape_witness :
  xorb (has_key
          (VDict [("error", VStr "No factory path specified");
                  ("component", VStr "c2"); ("kind", VStr "python")])
          "error")
       (has_key
          (VDict [("error", VStr "No factory path specified");
                  ("component", VStr "c2"); ("kind", VStr "python")])
          "result")
  = true.
Proof.
  destruct (python_loader_result_shape bare_world pathless _ eq_refl)
    as [H _].
  exact H.
Defined.

(** [YamlLoader.build] never lets a [YAMLError] out; and when the config
    is a dict whose ["path"] is a string or absent, existing files can be
    read, and the decoder fails with [YAMLError] only, it does not raise
    at all. *)
Theorem yaml_loader_contract (w : World) (c : Component)
    (d : list (string * value)) :
  (forall e, YamlLoader.build w c = Raise e -> caught e [YAMLError] = false)
  /\ (conf c = VDict d ->
      (assoc d "path" = None \/ exists s, assoc d "path" = Some (VStr s)) ->
      (forall p, path_exists w p = true -> exists t, read_text w p = Ok t) ->
      (forall t e, safe_load w t = Raise e -> caught e [YAMLError] = true) ->
      exists v, YamlLoader.build w c = Ok v).
Proof.
  split.
  - intros e. unfold YamlLoader.build.
    destruct (get (conf c) "path" (VStr "")) as [p | e0] eqn:Hg; simpl.
    + destruct (YamlLoader.Path w p) as [yp | e1] eqn:Hp; simpl.
      * destruct (negb _); [discriminate |].
        destruct (read_text w _ ≫= safe_load w) as [data | e2];
          [discriminate |].
        match goal with
        | |- (if ?b then _ else _) = _ -> _ =>
            destruct b eqn:Hc; [discriminate |]
        end.
        intros [= <-]. exact Hc.
      * intros [= <-]. destruct p; try discriminate; now inversion Hp.
    + intros [= <-]. destruct (conf c); try discriminate; now inversion Hg.
  - intros Hconf Hpath Hread Hload. unfold YamlLoader.build.
    rewrite Hconf. simpl.
    assert (Hs : exists s,
      match assoc d "path" with Some v => v | None => VStr "" end = VStr s).
    { destruct Hpath as [-> | [s ->]]; eauto. }
    destruct Hs as [s ->]. simpl.
    set (yp := if path_exists w (path_str w s) then path_str w s
               else cwd_join w (path_str w s)).
    destruct (path_exists w yp) eqn:Hex; simpl; [| eauto].
    destruct (Hread yp Hex) as [t ->]. simpl.
    destruct (safe_load w t) as [data | e] eqn:Hl; [eauto |].
    rewrite (Hload t e Hl). eauto.
Qed.

Lemma yaml_loader_contract_witness :
  exists v, YamlLoader.build disk_world component_a = Ok v.
Proof.
  destruct (yaml_loader_contract disk_world component_a
              [("path", VStr "a.yaml")]) as [_ H].
  apply H.
  - reflexivity.
  - right. eexists. reflexivity.
  - intros p Hp. simpl in *. rewrite Hp. eexists. reflexivity.
  - intros t e. simpl.
    destruct (String.eqb t "key: [unclosed"); [| discriminate].
    intros [= <-]. reflexivity.
Defined.

(** The run of the witness reads the file and meets the decoder's
    error. *)
Lemma yaml_loader_parse_error_run :
  YamlLoader.build disk_world component_a
  = Ok (VDict [("error",
                VStr "YAML parsing error: while parsing a flow sequence");
               ("component", VStr "A"); ("kind", VStr "yaml");
               ("source", VStr "a.yaml")]).
Proof. reflexivity. Qed.

(** [PythonLoader.build] does not raise when the config is a dict, the
    factory path is absent, falsy or a string with a dot, and importing,
    attribute lookup and the factory call fail with [ImportError],
    [AttributeError] or [TypeError] (or a subclass) only. *)
Theorem python_loader_contract (w : World) (c : Component)
    (d : list (string * value)) :
  conf c = VDict d ->
  (match assoc d "factory" with
   | None => True
   | Some v => truthy v = false
               \/ exists s a b, v = VStr s /\ cut_last_dot s = Some (a, b)
   end) ->
  (forall m e, import_module w m = Raise e ->
     caught e [ImportError; AttributeError; TypeError] = true) ->
  (forall m n e, getattr w m n = Raise e ->
     caught e [ImportError; AttributeError; TypeError] = true) ->
  (forall f a k e, call w f a k = Raise e ->
     caught e [ImportError; AttributeError; TypeError] = true) ->
  exists v, PythonLoader.build w c = Ok v.
Proof.
  intros Hconf Hfac Him Hga Hca. unfold PythonLoader.build.
  rewrite Hconf. simpl.
  set (args := match assoc d "args" with Some v => v | None => VDict [] end).
  set (kwargs :=
         match assoc d "kwargs" with Some v => v | None => VDict [] end).
  destruct (assoc d "factory") as [fp |]; [| simpl; eauto].
  destruct (truthy fp) eqn:Htr; simpl; [| eauto].
  destruct Hfac as [Hf | (s & a & b & -> & Hcut)]; [congruence |].
  destruct (PythonLoader.try_body w c (VStr s) args kwargs) as [r | e] eqn:Hb;
    [eauto |].
  assert (Hc : caught e [ImportError; AttributeError; TypeError] = true).
  { unfold PythonLoader.try_body in Hb. simpl in Hb.
    unfold rsplit_dot in Hb. rewrite Hcut in Hb. simpl in Hb.
    destruct (import_module w a) as [m | e1] eqn:Hm; simpl in Hb;
      [| injection Hb as <-; eapply Him; eauto].
    destruct (getattr w m b) as [f | e2] eqn:Hg; simpl in Hb;
      [| injection Hb as <-; eapply Hga; eauto].
    destruct args as [| | | | | l | da |]; simpl in Hb;
      try (destruct kwargs; simpl in Hb;
           try (injection Hb as <-; reflexivity));
      match type of Hb with
      | (call w ?f0 ?a0 ?k0 ≫= _) = _ =>
          destruct (call w f0 a0 k0) as [res | e3] eqn:Hcall; simpl in Hb;
            [discriminate | injection Hb as <-; eapply Hca; eauto]
      end. }
  rewrite Hc. eauto.
Qed.

Lemma python_loader_contract_witness :
  exists v,
    PythonLoader.build bare_world
      {| uid := "p"; kind := "python";
         conf := VDict [("factory", VStr "builtins.dict")] |} = Ok v.
Proof.
  apply (python_loader_contract bare_world _
           [("factory", VStr "builtins.dict")]).
  - reflexivity.
  - right. exists "builtins.dict", "builtins", "dict". split; reflexivity.
  - intros m e. simpl. destruct (String.eqb _ _); [discriminate |].
    now intros [= <-].
  - intros m n e. simpl.
    destruct m as [| | | | | | | [| [| ?]]];
      try (now intros [= <-]).
    destruct (String.eqb _ _); [discriminate | now intros [= <-]].
  - intros f a k e. simpl. now intros [= <-].
Defined.

(** When ["args"] is a dict (or absent), [PythonLoader.build] never looks
    at ["kwargs"]: two configs that differ in that entry only give the same
    result. *)
Theorem python_loader_dict_args_ignore_kwargs (w : World) (u k : string)
    (d : list (string * value)) (kw1 kw2 : value) :
  (assoc d "args" = None \/ exists a, assoc d "args" = Some (VDict a)) ->
  PythonLoader.build w
    {| uid := u; kind := k; conf := VDict (("kwargs", kw1) :: d) |}
  = (PythonLoader.build w
       {| uid := u; kind := k; conf := VDict (("kwargs", kw2) :: d) |}).
Proof.
  intros Hargs. unfold PythonLoader.build, PythonLoader.try_body. simpl.
  destruct Hargs as [-> | [a ->]]; reflexivity.
Qed.

Lemma python_loader_dict_args_ignore_kwargs_witness :
  PythonLoader.build world
    {| uid := "p"; kind := "python";
       conf := VDict [("kwargs", VInt 1); ("factory", VStr "m.f")] |}
  = (PythonLoader.build world
       {| uid := "p"; kind := "python";
          conf := VDict [("kwargs", VNone); ("factory", VStr "m.f")] |}).
Proof.
  apply (python_loader_dict_args_ignore_kwargs world "p" "python"
           [("factory", VStr "m.f")] (VInt 1) VNone).
  left. reflexivity.
Defined.

End MoreLoaders.

(** ** The backend's copies of the scoring functions *)

Section BackendCopies.
Import Metrics RecursivePhi SpecWords Floats.
Local Open Scope R_scope.

Lemma clip_is_clamp (x : R) : PsietrEngine.clip x = clamp x.
Proof.
  unfold PsietrEngine.clip, clamp.
  destruct (Rlt_dec x 0) as [Hlt | Hge].
  - rewrite Rmin_right by lra. now rewrite Rmax_left by lra.
  - destruct (Rgt_dec x 1) as [Hgt | Hle].
    + rewrite Rmin_left by lra. now rewrite Rmax_right by lra.
    + rewrite Rmin_right by lra. now rewrite Rmax_right by lra.
Qed.

Lemma engine_phi_smooth_everywhere (x : R) (n : Z) :
  PsietrEngine.phi_smooth x n = phi_smooth_recursive x n.
Proof.
  unfold PsietrEngine.phi_smooth. cbv zeta. rewrite !clip_is_clamp.
  change (fun x0 : R => 1 - (1 - x0) / PsietrEngine.PHI) with (f PHI).
  rewrite recursive_everywhere.
  apply clamp_id, iter_f_unit, clamp_unit.
Qed.

Lemma engine_phi_smooth_unit (x : R) (n : Z) :
  0 <= PsietrEngine.phi_smooth x n <= 1.
Proof.
  rewrite engine_phi_smooth_everywhere, recursive_everywhere.
  apply iter_f_unit, clamp_unit.
Qed.

Lemma overflow_bound_gt_1 : 1 < overflow_bound.
Proof.
  unfold overflow_bound.
  assert (H2 : (2 : R) <> 0) by lra.
  replace 1024%Z with (970 + (2 + 52))%Z by reflexivity.
  rewrite !(powerRZ_add 2) by exact H2.
  assert (HA : 1 <= powerRZ 2 970).
  { change 970%Z with (Z.of_nat 970). rewrite <- pow_powerRZ.
    apply pow_R1_Rle. lra. }
  assert (HB : 1 <= powerRZ 2 52).
  { change 52%Z with (Z.of_nat 52). rewrite <- pow_powerRZ.
    apply pow_R1_Rle. lra. }
  change (powerRZ 2 2) with (2 * (2 * 1)).
  set (A := powerRZ 2 970) in *. set (B := powerRZ 2 52) in *. nra.
Qed.

(** A base in [(0,1]] with an exponent [>= 0] has its power in
    [(0,1]]: no overflow there. *)
Lemma power_unit (x y : R) :
  0 < x <= 1 -> 0 <= y ->
  power x y = Done (Rpower x y) /\ 0 <= Rpower x y <= 1.
Proof.
  intros [H0 H1] Hy.
  assert (Hle : Rpower x y <= 1).
  { replace 1 with (Rpower 1 y).
    - apply Rle_Rpower_l; [exact Hy | lra].
    - unfold Rpower. rewrite ln_1, Rmult_0_r. apply exp_0. }
  assert (Hpos : 0 < Rpower x y) by (unfold Rpower; apply exp_pos).
  split; [| lra]. unfold power.
  destruct (Rlt_dec 0 x); [| lra].
  pose proof overflow_bound_gt_1.
  destruct (Rle_dec overflow_bound (Rpower x y)); [lra | reflexivity].
Qed.

Lemma power_zero (y : R) : 0 < y -> power 0 y = Done 0.
Proof.
  intros Hy. unfold power.
  destruct (Rlt_dec 0 0); [lra |]. destruct (Req_dec_T 0 0); [| lra].
  destruct (Rlt_dec 0 y); [reflexivity | lra].
Qed.

Lemma power_negative (x y : R) : x < 0 -> power x y = Raised TypeError.
Proof.
  intros Hx. unfold power.
  destruct (Rlt_dec 0 x); [lra |]. destruct (Req_dec_T x 0); [lra |].
  reflexivity.
Qed.

(** The fitness functions of the backend part ways below zero: for a
    negative [psi] the verbose form and the recursive form cut [psi] to
    [0] and answer what they answer for [0] (with the default rates, a
    number in [[0,1]]), while the compact form takes the square root of
    the negative number and raises a [TypeError], whatever the other
    arguments. So the fitness validator of [duality.py], which calls the
    verbose form and then the compact one, raises for every negative
    [psi]. *)
Theorem rdod_copies_differ_below_zero
    (psi tests confirm distortion tolerance : R) (phi_depth : Z) :
  psi < 0 ->
  PsietrEngine.calculate_rdod psi tests confirm distortion
  = PsietrEngine.calculate_rdod 0 tests confirm distortion
  /\ RecursivePhiPowers.rdod_recursive psi tests confirm distortion phi_depth
     = RecursivePhiPowers.rdod_recursive 0 tests confirm distortion phi_depth
  /\ (exists v, PsietrEngine.calculate_rdod psi 0.998 0.999 0.00023 = Done v
                /\ 0 <= v <= 1)
  /\ PsietrCompact.rd psi tests confirm distortion = Raised TypeError
  /\ Duality.validate_rdod_equivalence psi tolerance = Raised TypeError.
Proof.
  intros Hneg.
  assert (Hmax : Rmax 0 psi = Rmax 0 0).
  { rewrite (Rmax_left 0 psi) by lra. now rewrite Rmax_left by lra. }
  assert (Hv : exists v,
    PsietrEngine.calculate_rdod psi 0.998 0.999 0.00023 = Done v
    /\ 0 <= v <= 1).
  { unfold PsietrEngine.calculate_rdod, PsietrEngine.phi_power_smooth.
    cbv zeta. rewrite (Rmax_left 0 psi) by lra.
    rewrite !(Rmax_right 0) by lra.
    rewrite (power_zero 0.5) by lra.
    destruct (power_unit 0.998 0.3) as [-> _]; [lra | lra |].
    destruct (power_unit 0.999 0.2) as [-> _]; [lra | lra |].
    cbn [mbind outcome_bind mret outcome_ret].
    eexists. split; [reflexivity |].
    pose proof (engine_phi_smooth_unit 0 3) as Ha.
    pose proof (engine_phi_smooth_unit (Rpower 0.998 0.3) 3) as Hb.
    pose proof (engine_phi_smooth_unit (Rpower 0.999 0.2) 3) as Hc.
    unfold PsietrEngine.SIGMA.
    set (a := PsietrEngine.phi_smooth 0 3) in *.
    set (b := PsietrEngine.phi_smooth (Rpower 0.998 0.3) 3) in *.
    set (c := PsietrEngine.phi_smooth (Rpower 0.999 0.2) 3) in *.
    assert (0 <= a * b <= 1) by nra.
    assert (0 <= a * b * c <= 1) by nra.
    nra. }
  refine (conj _ (conj _ (conj Hv (conj _ _)))).
  - unfold PsietrEngine.calculate_rdod, PsietrEngine.phi_power_smooth.
    cbv zeta. now rewrite Hmax.
  - unfold RecursivePhiPowers.rdod_recursive,
      RecursivePhiPowers.phi_smooth_power. cbv zeta. now rewrite Hmax.
  - unfold PsietrCompact.rd. now rewrite (power_negative psi 0.5 Hneg).
  - unfold Duality.validate_rdod_equivalence.
    destruct Hv as (v & -> & _). cbn [mbind outcome_bind].
    unfold PsietrCompact.rd. now rewrite (power_negative psi 0.5 Hneg).
Qed.

Lemma rdod_copies_differ_below_zero_witness :
  PsietrCompact.rd (-1) 0.998 0.999 0.00023 = Raised TypeError
  /\ Duality.validate_rdod_equivalence (-1) (1 / 1000000) = Raised TypeError.
Proof.
  destruct (rdod_copies_differ_below_zero (-1) 0.998 0.999 0.00023
              (1 / 1000000) 3) as (_ & _ & _ & H1 & H2); [lra |].
  split; [exact H1 | exact H2].
Defined.

End BackendCopies.

(** ** Weighted smoothing, and the days to Omega *)

Section WeightedAndDays.
Import Metrics RecursivePhi SpecWords Floats RecursivePhiPowers.
Local Open Scope R_scope.

Lemma recursive_unit (x : R) (n : Z) : 0 <= phi_smooth_recursive x n <= 1.
Proof. rewrite recursive_everywhere. apply iter_f_unit, clamp_unit. Qed.

(** One pair of [phi_smooth_weighted]. *)
Lemma phi_smooth_power_outcome (v w : R) (n : Z) :
  (v <= 0 -> w < 0 -> phi_smooth_power v w n = Raised ZeroDivisionError)
  /\ (v <= 1 -> 0 <= w ->
      exists s, phi_smooth_power v w n = Done s /\ 0 <= s <= 1)
  /\ (phi_smooth_power v w n = Raised ZeroDivisionError
      \/ phi_smooth_power v w n = Raised OverflowError
      \/ exists s, phi_smooth_power v w n = Done s /\ 0 <= s <= 1).
Proof.
  unfold phi_smooth_power.
  assert (Hzero : v <= 0 -> Rmax 0 v = 0) by (intros; now apply Rmax_left).
  refine (conj _ (conj _ _)).
  - intros Hv Hw. rewrite (Hzero Hv). unfold power.
    destruct (Rlt_dec 0 0); [lra |]. destruct (Req_dec_T 0 0); [| lra].
    destruct (Rlt_dec 0 w); [lra |]. destruct (Req_dec_T w 0); [lra |].
    reflexivity.
  - intros Hv Hw. destruct (Rle_dec v 0) as [Hv0 | Hv0].
    + rewrite (Hzero Hv0). unfold power.
      destruct (Rlt_dec 0 0); [lra |]. destruct (Req_dec_T 0 0); [| lra].
      destruct (Rlt_dec 0 w);
        [eexists; split; [reflexivity | apply recursive_unit] |].
      destruct (Req_dec_T w 0); [| lra].
      eexists; split; [reflexivity | apply recursive_unit].
    + rewrite (Rmax_right 0 v) by lra.
      destruct (power_unit v w) as [-> _]; [lra | lra |].
      eexists; split; [reflexivity | apply recursive_unit].
  - unfold power.
    destruct (Rlt_dec 0 (Rmax 0 v)).
    + destruct (Rle_dec overflow_bound _); [now right; left |].
      right; right. eexists; split; [reflexivity | apply recursive_unit].
    + destruct (Req_dec_T (Rmax 0 v) 0).
      * destruct (Rlt_dec 0 w);
          [right; right; eexists; split;
             [reflexivity | apply recursive_unit] |].
        destruct (Req_dec_T w 0); [| now left].
        right; right. eexists; split; [reflexivity | apply recursive_unit].
      * exfalso. pose proof (Rmax_l 0 v). lra.
Qed.

Lemma weighted_loop_tame (pairs : list (R * R)) (n : Z) :
  forall result, 0 <= result <= 1 ->
  Forall (fun vw => vw.1 <= 1 /\ 0 <= vw.2) pairs ->
  exists r, weighted_loop pairs n result = Done r /\ 0 <= r <= 1.
Proof.
  induction pairs as [| [v w] rest IH]; intros result Hres Hall.
  - simpl. eauto.
  - apply Forall_cons in Hall as [[Hv Hw] Hall]. simpl in Hv, Hw.
    cbn [weighted_loop].
    destruct (phi_smooth_power_outcome v w n) as (_ & Hgood & _).
    destruct (Hgood Hv Hw) as (s & -> & Hs). cbn [mbind outcome_bind].
    apply IH; [nra | exact Hall].
Qed.

Lemma weighted_loop_zero_division (tame rest : list (R * R)) (v w : R)
    (n : Z) :
  forall result, 0 <= result <= 1 ->
  Forall (fun vw => vw.1 <= 1 /\ 0 <= vw.2) tame ->
  v <= 0 -> w < 0 ->
  weighted_loop (tame ++ (v, w) :: rest) n result = Raised ZeroDivisionError.
Proof.
  induction tame as [| [v' w'] tame IH]; intros result Hres Hall Hv Hw.
  - cbn [app weighted_loop].
    destruct (phi_smooth_power_outcome v w n) as (Hbad & _).
    now rewrite (Hbad Hv Hw).
  - apply Forall_cons in Hall as [[Hv' Hw'] Hall]. simpl in Hv', Hw'.
    cbn [app weighted_loop].
    destruct (phi_smooth_power_outcome v' w' n) as (_ & Hgood & _).
    destruct (Hgood Hv' Hw') as (s & -> & Hs). cbn [mbind outcome_bind].
    apply IH; [nra | exact Hall | exact Hv | exact Hw].
Qed.

Lemma weighted_loop_outcomes (pairs : list (R * R)) (n : Z) :
  forall result, 0 <= result <= 1 ->
  weighted_loop pairs n result = Raised ZeroDivisionError
  \/ weighted_loop pairs n result = Raised OverflowError
  \/ exists r, weighted_loop pairs n result = Done r /\ 0 <= r <= 1.
Proof.
  induction pairs as [| [v w] rest IH]; intros result Hres.
  - right; right. simpl. eauto.
  - cbn [weighted_loop].
    destruct (phi_smooth_power_outcome v w n)
      as (_ & _ & [-> | [-> | (s & -> & Hs)]]);
      [now left | now right; left |].
    cbn [mbind outcome_bind]. apply IH. nra.
Qed.

(** [phi_smooth_weighted] raises [ValueError] when the two lists differ in
    length, whatever they hold. On lists of one length: when every value
    is at most [1] and every weight at least [0] it answers a number in
    [[0,1]]; when such pairs are followed by a value [<= 0] with a
    negative weight it raises [ZeroDivisionError]; and in every case it
    raises [ZeroDivisionError] or [OverflowError] (a power out of range)
    or answers a number in [[0,1]]. *)
Theorem phi_smooth_weighted_outcomes (values weights : list R) (n : Z) :
  (length values <> length weights ->
   phi_smooth_weighted values weights n
   = Raised (ValueError "Values and weights must have same length"))
  /\ (length values = length weights ->
      (Forall (fun vw => vw.1 <= 1 /\ 0 <= vw.2) (zip values weights) ->
       exists r, phi_smooth_weighted values weights n = Done r
                 /\ 0 <= r <= 1)
      /\ (forall tame rest v w,
            zip values weights = tame ++ (v, w) :: rest ->
            Forall (fun vw => vw.1 <= 1 /\ 0 <= vw.2) tame ->
            v <= 0 -> w < 0 ->
            phi_smooth_weighted values weights n = Raised ZeroDivisionError)
      /\ (phi_smooth_weighted values weights n = Raised ZeroDivisionError
          \/ phi_smooth_weighted values weights n = Raised OverflowError
          \/ exists r, phi_smooth_weighted values weights n = Done r
                       /\ 0 <= r <= 1)).
Proof.
  unfold phi_smooth_weighted. split.
  - intros Hne. apply Nat.eqb_neq in Hne. now rewrite Hne.
  - intros Heq. apply Nat.eqb_eq in Heq. rewrite Heq. cbn [negb].
    refine (conj _ (conj _ _)).
    + apply weighted_loop_tame. lra.
    + intros tame rest v w -> Hall Hv Hw.
      apply weighted_loop_zero_division; [lra | assumption..].
    + apply weighted_loop_outcomes. lra.
Qed.

Lemma phi_smooth_weighted_outcomes_witness :
  phi_smooth_weighted [1/2; 1/3] [1] 3
  = Raised (ValueError "Values and weights must have same length")
  /\ phi_smooth_weighted [1/2; 0] [1; -1] 3 = Raised ZeroDivisionError
  /\ exists r, phi_smooth_weighted [1/2; 1/3] [1; 2] 3 = Done r
               /\ 0 <= r <= 1.
Proof.
  destruct (phi_smooth_weighted_outcomes [1/2; 1/3] [1] 3) as [H1 _].
  destruct (phi_smooth_weighted_outcomes [1/2; 0] [1; -1] 3)
    as [_ H2].
  destruct (phi_smooth_weighted_outcomes [1/2; 1/3] [1; 2] 3)
    as [_ H3].
  refine (conj _ (conj _ _)).
  - apply H1. simpl. lia.
  - destruct (H2 eq_refl) as (_ & H & _).
    apply (H [(1/2, 1)] [] 0 (-1)); [reflexivity | | lra | lra].
    repeat constructor; simpl; lra.
  - destruct (H3 eq_refl) as (H & _). apply H.
    repeat constructor; simpl; lra.
Defined.

(** [phi_smooth_cascade] smooths entry by entry: the result has the
    length of the input, its [i]-th entry is the smoothing of the [i]-th
    value, and every entry lies in [[0,1]]. [phi_smooth_product] answers a
    number in [[0,1]], and [1] for the empty list. *)
Theorem cascade_and_product_bounds (values : list R) (n : Z) :
  length (phi_smooth_cascade values n) = length values
  /\ (forall i v, values !! i = Some v ->
        phi_smooth_cascade values n !! i = Some (phi_smooth_recursive v n))
  /\ Forall (fun v => 0 <= v <= 1) (phi_smooth_cascade values n)
  /\ 0 <= phi_smooth_product values n <= 1
  /\ phi_smooth_product [] n = 1.
Proof.
  unfold phi_smooth_cascade, phi_smooth_product. cbv zeta.
  refine (conj _ (conj _ (conj _ (conj _ _)))).
  - apply length_fmap.
  - intros i v Hv. now rewrite list_lookup_fmap, Hv.
  - apply Forall_fmap, Forall_forall. intros v _. apply recursive_unit.
  - apply recursive_unit.
  - simpl. rewrite recursive_everywhere.
    assert (Hc : clamp 1 = 1) by (apply clamp_id; lra). rewrite Hc.
    induction (Z.to_nat n) as [| k IH]; simpl; [reflexivity |].
    rewrite IH. unfold f. unfold Rdiv. lra.
Qed.

Lemma cascade_and_product_bounds_witness :
  phi_smooth_cascade [1/2; 2] 3 !! 1%nat = Some (phi_smooth_recursive 2 3).
Proof.
  destruct (cascade_and_product_bounds [1/2; 2] 3) as (_ & H & _).
  apply H. reflexivity.
Defined.

(** The days to Omega are never negative, are [0] exactly from the Omega
    instant on, do not grow as time passes, and are what [snapshot]
    reports under ["d"]. *)
Theorem days_to_omega_spec (t t' clock : datetime) :
  0 <= Constants.days_to_omega (Some t) clock
  /\ (Constants.days_to_omega (Some t) clock = 0 <-> (Constants.OMEGA <= t)%Z)
  /\ ((t <= t')%Z ->
      Constants.days_to_omega (Some t') clock
      <= Constants.days_to_omega (Some t) clock)
  /\ Constants.days_to_omega (Some t) clock = snap_d (snapshot (Some t) clock)
  /\ Constants.days_to_omega None clock = snap_d (snapshot None clock).
Proof.
  unfold Constants.days_to_omega, snapshot, total_seconds. cbn [snap_d].
  change Constants.OMEGA with O_.
  replace 86400.0 with 86400 by lra. replace 0.0 with 0 by lra.
  assert (Hd : forall u : Z,
    IZR (O_ - u) / 1000000 / 86400 = IZR (O_ - u) / 86400000000).
  { intros u. field. }
  rewrite !Hd. repeat split.
  - apply Rmax_l.
  - intros H0.
    destruct (Z_le_gt_dec O_ t) as [Hle | Hgt]; [exact Hle | exfalso].
    assert (Hpos : 0 < IZR (O_ - t)) by (apply IZR_lt; lia).
    rewrite Rmax_right in H0; nra.
  - intros Hle. apply Rmax_left.
    assert (Hnp : IZR (O_ - t) <= 0) by (apply IZR_le; lia). nra.
  - intros Htt. apply Rle_max_compat_l.
    assert (Hm : IZR (O_ - t') <= IZR (O_ - t)) by (apply IZR_le; lia).
    nra.
Qed.

Lemma days_to_omega_spec_witness :
  Constants.days_to_omega (Some 1766620800000001%Z) 0%Z
  <= Constants.days_to_omega (Some 0%Z) 0%Z.
Proof.
  destruct (days_to_omega_spec 0%Z 1766620800000001%Z 0%Z) as (_ & _ & H & _).
  apply H. lia.
Defined.

End WeightedAndDays.

(** ** The HTTP loader *)

Section HttpLoaderFacts.
Import Py Registry Vocabulary HttpLoader Terms.
#[local] Arguments net_caught : simpl never.

(** Without a url (the field is absent, empty or otherwise falsy) the
    loader answers the error dict ["No URL specified"] whatever the
    network is: no request is built. *)
Theorem http_loader_no_url (net : Net) (c : Component)
    (d : list (string * value)) :
  conf c = VDict d ->
  (match assoc d "url" with None => True | Some v => truthy v = false end) ->
  build net c
  = Got (VDict [("error", VStr "No URL specified");
                ("component", VStr (uid c));
                ("kind", VStr "http")]).
Proof.
  intros Hconf Hurl. unfold build. rewrite Hconf. simpl.
  destruct (assoc d "url") as [v |]; [now rewrite Hurl | reflexivity].
Qed.

Lemma http_loader_no_url_witness :
  build dead_net {| uid := "h"; kind := "http";
                    conf := VDict [("url", VStr "")] |}
  = Got (VDict [("error", VStr "No URL specified");
                ("component", VStr "h"); ("kind", VStr "http")]).
Proof.
  apply (http_loader_no_url dead_net
           {| uid := "h"; kind := "http"; conf := VDict [("url", VStr "")] |}
           [("url", VStr "")]);
    [reflexivity | reflexivity].
Defined.

Lemma add_headers_failure (net : Net) (hs : list (string * value)) :
  (forall r k v e, add_header net r k v = Failed e ->
     net_caught e [URLError; HTTPError; TimeoutError] = true) ->
  forall req e, add_headers net req hs = Failed e ->
  net_caught e [URLError; HTTPError; TimeoutError] = true.
Proof.
  intros Hadd. induction hs as [| [k v] rest IH]; intros req e; simpl.
  - discriminate.
  - destruct (add_header net req k v) as [req' | e'] eqn:Ha; simpl.
    + apply IH.
    + intros [= <-]. eapply Hadd, Ha.
Qed.

(** [HttpLoader.build] never lets a [URLError], an [HTTPError] or a
    [TimeoutError] out; a dict it returns has exactly one of the keys
    ["error"] and ["data"]; and when the config is a dict whose
    ["headers"] are a dict or absent, the transport fails with those three
    classes only and the JSON decoder with [JSONDecodeError] only, it does
    not raise at all. *)
Theorem http_loader_contract (net : Net) (c : Component)
    (d : list (string * value)) :
  (forall e, build net c = Failed e ->
     net_caught e [URLError; HTTPError; TimeoutError] = false)
  /\ (forall v, build net c = Got v ->
      xorb (has_key v "error") (has_key v "data") = true)
  /\ (conf c = VDict d ->
      (assoc d "headers" = None
       \/ exists h, assoc d "headers" = Some (VDict h)) ->
      (forall u m e, Request net u m = Failed e ->
         net_caught e [URLError; HTTPError; TimeoutError] = true) ->
      (forall r k v e, add_header net r k v = Failed e ->
         net_caught e [URLError; HTTPError; TimeoutError] = true) ->
      (forall r t e, urlopen net r t = Failed e ->
         net_caught e [URLError; HTTPError; TimeoutError] = true) ->
      (forall r e, read_decode net r = Failed e ->
         net_caught e [URLError; HTTPError; TimeoutError] = true) ->
      (forall s e, json_loads net s = Failed e ->
         net_caught e [JSONDecodeError] = true) ->
      exists v, build net c = Got v).
Proof.
  refine (conj _ (conj _ _)).
  - intros e. unfold build.
    destruct (lift (get (conf c) "url" (VStr ""))) as [url | e0] eqn:H1;
      simpl.
    2:{ intros [= <-]. destruct (conf c); try discriminate; now inversion H1. }
    destruct (lift (get (conf c) "method" (VStr "GET"))) as [m | e0] eqn:H2;
      simpl.
    2:{ intros [= <-]. destruct (conf c); try discriminate; now inversion H2. }
    destruct (lift (get (conf c) "headers" (VDict []))) as [h | e0] eqn:H3;
      simpl.
    2:{ intros [= <-]. destruct (conf c); try discriminate; now inversion H3. }
    destruct (lift (get (conf c) "timeout" (VInt 30))) as [t | e0] eqn:H4;
      simpl.
    2:{ intros [= <-]. destruct (conf c); try discriminate; now inversion H4. }
    destruct (negb (truthy url)); [discriminate |].
    destruct (try_body net c url m h t) as [r | e1]; [discriminate |].
    destruct (net_caught e1 [URLError; HTTPError; TimeoutError]) eqn:Hc;
      [discriminate |].
    now intros [= <-].
  - intros v. unfold build.
    destruct (lift (get (conf c) "url" (VStr ""))) as [url | e0]; simpl;
      [| discriminate].
    destruct (lift (get (conf c) "method" (VStr "GET"))) as [m | e0]; simpl;
      [| discriminate].
    destruct (lift (get (conf c) "headers" (VDict []))) as [h | e0]; simpl;
      [| discriminate].
    destruct (lift (get (conf c) "timeout" (VInt 30))) as [t | e0]; simpl;
      [| discriminate].
    destruct (negb (truthy url)); [now intros [= <-] |].
    destruct (try_body net c url m h t) as [r | e1] eqn:Hb.
    + intros [= <-]. unfold try_body in Hb.
      destruct (Request net url m) as [req |]; simpl in Hb; [| discriminate].
      destruct (items h) as [hs |]; simpl in Hb; [| discriminate].
      destruct (add_headers net req hs) as [req' |]; simpl in Hb;
        [| discriminate].
      destruct (urlopen net req' t) as [resp |]; simpl in Hb;
        [| discriminate].
      destruct (read_decode net resp) as [data |]; simpl in Hb;
        [| discriminate].
      destruct (json_loads net data) as [j | e2]; simpl in Hb.
      * now injection Hb as <-.
      * destruct (net_caught e2 [JSONDecodeError]); simpl in Hb;
          [now injection Hb as <- | discriminate].
    + destruct (net_caught e1 [URLError; HTTPError; TimeoutError]);
        [now intros [= <-] | discriminate].
  - intros Hconf Hh Hreq Hadd Hopen Hread Hjson. unfold build.
    rewrite Hconf. simpl.
    set (url := match assoc d "url" with Some v => v | None => VStr "" end).
    set (m := match assoc d "method" with Some v => v | None => VStr "GET" end).
    set (t := match assoc d "timeout" with Some v => v | None => VInt 30 end).
    assert (Hhs : exists hs,
      match assoc d "headers" with Some v => v | None => VDict [] end
      = VDict hs).
    { destruct Hh as [-> | [h ->]]; eauto. }
    destruct Hhs as [hs ->].
    destruct (negb (truthy url)); [eauto |].
    destruct (try_body net c url m (VDict hs) t) as [r | e] eqn:Hb; [eauto |].
    assert (Hc : net_caught e [URLError; HTTPError; TimeoutError] = true).
    { unfold try_body in Hb.
      destruct (Request net url m) as [req | e1] eqn:Hr; simpl in Hb;
        [| injection Hb as <-; eapply Hreq, Hr].
      destruct (add_headers net req hs) as [req' | e2] eqn:Ha; simpl in Hb;
        [| injection Hb as <-; eapply add_headers_failure; eauto].
      destruct (urlopen net req' t) as [resp | e3] eqn:Ho; simpl in Hb;
        [| injection Hb as <-; eapply Hopen, Ho].
      destruct (read_decode net resp) as [data | e4] eqn:Hd; simpl in Hb;
        [| injection Hb as <-; eapply Hread, Hd].
      destruct (json_loads net data) as [j | e5] eqn:Hj; simpl in Hb;
        [discriminate |].
      rewrite (Hjson data e5 Hj) in Hb. discriminate. }
    rewrite Hc. eauto.
Qed.

Lemma http_loader_contract_witness :
  exists v,
    build dead_net {| uid := "h"; kind := "http";
                      conf := VDict [("url", VStr "http://x/")] |} = Got v.
Proof.
  destruct (http_loader_contract dead_net
              {| uid := "h"; kind := "http";
                 conf := VDict [("url", VStr "http://x/")] |}
              [("url", VStr "http://x/")]) as (_ & _ & H).
  apply H.
  - reflexivity.
  - left. reflexivity.
  - intros u m e. discriminate.
  - intros r k v e. discriminate.
  - intros r t e. now intros [= <-].
  - intros r e. now intros [= <-].
  - intros s e. now intros [= <-].
Defined.

End HttpLoaderFacts.

(** ** The expansion plan of the skills *)

Section SkillsFacts.
Import Py Registry Vocabulary Examples Skills.

(** [expand_manifest] asks for exactly what is missing to reach the
    target: never a negative number, [0] once the target is reached, and
    after loading [N] well-formed records with fresh, pairwise distinct
    ids it asks for [N] fewer (but not fewer than [0]). *)
Theorem expand_manifest_needed (s : Registry) (target : Z)
    (rows : list row) :
  (0 <= needed (expand_manifest s target))%Z
  /\ (current_count (expand_manifest s target)
      + needed (expand_manifest s target)
      = Z.max (component_count s) target)%Z
  /\ (Forall well_formed rows -> NoDup (row_id <$> rows) ->
      (forall r i, r ∈ rows -> row_id r = Some i ->
                   components s !! i = None) ->
      needed (expand_manifest (register_manifest s rows).2 target)
      = Z.max 0 (needed (expand_manifest s target) - Metrics.len rows)).
Proof.
  unfold expand_manifest. cbn [needed current_count].
  refine (conj _ (conj _ _)); try lia.
  intros Hwf Hnd Hfresh. unfold component_count, Metrics.len.
  rewrite (register_manifest_size rows s Hwf Hnd Hfresh). lia.
Qed.

Lemma expand_manifest_needed_witness :
  needed (expand_manifest (register_manifest init [row_a; row_b]).2 350)
  = Z.max 0 (needed (expand_manifest init 350)
             - Metrics.len [row_a; row_b]).
Proof.
  destruct (expand_manifest_needed init 350 [row_a; row_b]) as (_ & _ & H).
  apply H.
  - repeat constructor; simpl; eauto.
  - apply (bool_decide_unpack _). vm_compute. reflexivity.
  - intros r i _ _. apply lookup_empty.
Defined.

End SkillsFacts.

(** * Properties of the binary64 embedding *)

(** ** Rounding keeps the order *)

Section RoundingFacts.
Import Binary64.
Local Open Scope Q_scope.

Lemma two_pow_pos (k : Z) : 0 < 2 ^ k.
Proof. apply Qpower_0_lt. reflexivity. Qed.

Lemma two_pow_le (j k : Z) : (j <= k)%Z -> 2 ^ j <= 2 ^ k.
Proof. intros H. apply Qpower_le_compat_l; [exact H | discriminate]. Qed.

Lemma two_pow_lt_inv (j k : Z) : 2 ^ j < 2 ^ k -> (j < k)%Z.
Proof. intros H. apply (Qpower_lt_compat_l_inv 2); [exact H | reflexivity]. Qed.

Lemma two_pow_succ (k : Z) : 2 ^ (k + 1) == 2 * 2 ^ k.
Proof.
  rewrite Qpower_plus by discriminate. rewrite Qmult_comm. reflexivity.
Qed.

Lemma two_pow_inject (z : Z) : (0 <= z)%Z -> inject_Z (2 ^ z) == 2 ^ z.
Proof. intros H. now rewrite Zpower_Qpower. Qed.

Lemma Q_as_quotient (q : Q) : q * inject_Z (Zpos (Qden q)) == inject_Z (Qnum q).
Proof.
  destruct q as [a b]. unfold Qeq, Qmult, inject_Z. simpl. lia.
Qed.

Lemma ilog2_spec (q : Q) : 0 < q -> 2 ^ ilog2 q <= q /\ q < 2 ^ (ilog2 q + 1).
Proof.
  intros Hq.
  pose proof (Q_as_quotient q) as Hab.
  assert (Ha : (0 < Qnum q)%Z).
  { destruct q as [a b]. unfold Qlt in Hq. simpl in *. lia. }
  set (a := Qnum q) in *. set (b := Zpos (Qden q)) in *.
  assert (Hb : (0 < b)%Z) by (unfold b; lia).
  destruct (Z.log2_spec a Ha) as [Ha1 Ha2].
  destruct (Z.log2_spec b Hb) as [Hb1 Hb2].
  pose proof (Z.log2_nonneg a) as Hla. pose proof (Z.log2_nonneg b) as Hlb.
  set (la := Z.log2 a) in *. set (lb := Z.log2 b) in *.
  assert (HA1 : 2 ^ la <= inject_Z a).
  { rewrite <- two_pow_inject by exact Hla. now rewrite <- Zle_Qle. }
  assert (HA2 : inject_Z a < 2 * 2 ^ la).
  { rewrite <- two_pow_succ, <- two_pow_inject by lia.
    rewrite <- Zlt_Qlt. unfold Z.succ in Ha2. exact Ha2. }
  assert (HB1 : 2 ^ lb <= inject_Z b).
  { rewrite <- two_pow_inject by exact Hlb. now rewrite <- Zle_Qle. }
  assert (HB2 : inject_Z b < 2 * 2 ^ lb).
  { rewrite <- two_pow_succ, <- two_pow_inject by lia.
    rewrite <- Zlt_Qlt. unfold Z.succ in Hb2. exact Hb2. }
  assert (Hk : 2 ^ (la - lb) * 2 ^ lb == 2 ^ la).
  { rewrite <- Qpower_plus by discriminate. now replace (la - lb + lb)%Z with la by lia. }
  pose proof (two_pow_pos la) as Hpa. pose proof (two_pow_pos lb) as Hpb.
  pose proof (two_pow_pos (la - lb)) as Hpk.
  assert (Hlo : 2 ^ (la - lb) < 2 * q).
  { (* 2^k * b < 2 * 2^k * 2^lb = 2 * 2^la <= 2 a = 2 q b *)
    apply Qmult_lt_r with (z := inject_Z b); [now rewrite <- (Zlt_Qlt 0) |].
    set (B := inject_Z b) in *. set (A := inject_Z a) in *.
    set (K := 2 ^ (la - lb)) in *. set (X := 2 ^ la) in *. set (Y := 2 ^ lb) in *.
    Lqa.nra. }
  assert (Hhi : q < 2 * 2 ^ (la - lb)).
  { apply Qmult_lt_r with (z := inject_Z b); [now rewrite <- (Zlt_Qlt 0) |].
    set (B := inject_Z b) in *. set (A := inject_Z a) in *.
    set (K := 2 ^ (la - lb)) in *. set (X := 2 ^ la) in *. set (Y := 2 ^ lb) in *.
    Lqa.nra. }
  unfold ilog2. fold a b la lb. cbv zeta.
  destruct (Qle_bool (2 ^ (la - lb)) q) eqn:E.
  - apply Qle_bool_iff in E. split; [exact E |]. now rewrite two_pow_succ.
  - assert (Hlt : q < 2 ^ (la - lb)).
    { apply Qnot_le_lt. intros H. apply Qle_bool_iff in H. congruence. }
    replace (la - lb - 1 + 1)%Z with (la - lb)%Z by lia. split; [| exact Hlt].
    assert (H2 : 2 ^ (la - lb) == 2 * 2 ^ (la - lb - 1)).
    { rewrite <- two_pow_succ. now replace (la - lb - 1 + 1)%Z with (la - lb)%Z by lia. }
    Lqa.lra.
Qed.


Lemma ilog2_comp (p q : Q) : p == q -> 0 < p -> ilog2 p = ilog2 q.
Proof.
  intros E Hp.
  assert (Hq : 0 < q) by now rewrite <- E.
  destruct (ilog2_spec p Hp) as [P1 P2]. destruct (ilog2_spec q Hq) as [Q1 Q2].
  assert (ilog2 p < ilog2 q + 1)%Z.
  { apply two_pow_lt_inv. apply Qle_lt_trans with q; [| exact Q2].
    apply Qle_trans with p; [exact P1 | now apply Qle_lteq; right]. }
  assert (ilog2 q < ilog2 p + 1)%Z.
  { apply two_pow_lt_inv. apply Qle_lt_trans with p; [| exact P2].
    apply Qle_trans with q; [exact Q1 | now apply Qle_lteq; right]. }
  lia.
Qed.

Lemma ilog2_mono (p q : Q) : 0 < p -> p <= q -> (ilog2 p <= ilog2 q)%Z.
Proof.
  intros Hp Hpq.
  assert (Hq : 0 < q) by (eapply Qlt_le_trans; eassumption).
  destruct (ilog2_spec p Hp) as [P1 _]. destruct (ilog2_spec q Hq) as [_ Q2].
  assert (ilog2 p < ilog2 q + 1)%Z.
  { apply two_pow_lt_inv. eapply Qle_lt_trans; [exact P1 |].
    eapply Qle_lt_trans; eassumption. }
  lia.
Qed.

(** The nearest integer is at most one half away. *)
Lemma rne_near (t : Q) :
  t - (1 # 2) <= inject_Z (rne t) /\ inject_Z (rne t) <= t + (1 # 2).
Proof.
  unfold rne. cbv zeta.
  pose proof (Qfloor_le t) as H1. pose proof (Qlt_floor t) as H2.
  rewrite inject_Z_plus in H2. change (inject_Z 1) with 1 in H2.
  destruct (Qcompare_spec (t - inject_Z (Qfloor t)) (1 # 2)) as [E | E | E].
  - destruct (Z.even (Qfloor t)).
    + split; Lqa.lra.
    + rewrite inject_Z_plus. change (inject_Z 1) with 1. split; Lqa.lra.
  - split; Lqa.lra.
  - rewrite inject_Z_plus. change (inject_Z 1) with 1. split; Lqa.lra.
Qed.

#[global] Instance rne_comp : Proper (Qeq ==> eq) rne.
Proof.
  intros p q E. unfold rne. cbv zeta.
  rewrite (Qfloor_comp p q E).
  assert (E' : p - inject_Z (Qfloor q) == q - inject_Z (Qfloor q))
    by now rewrite E.
  now rewrite (Qcompare_comp _ _ E' (1 # 2) (1 # 2) (Qeq_refl _)).
Qed.

Lemma rne_Z (n : Z) : rne (inject_Z n) = n.
Proof.
  unfold rne. cbv zeta. rewrite Qfloor_Z.
  destruct (Qcompare_spec (inject_Z n - inject_Z n) (1 # 2)) as [E | E | E].
  - exfalso. Lqa.lra.
  - reflexivity.
  - exfalso. Lqa.lra.
Qed.

Lemma rne_mono (s t : Q) : s <= t -> (rne s <= rne t)%Z.
Proof.
  intros Hst.
  destruct (Z_le_gt_dec (rne s) (rne t)) as [H | H]; [exact H | exfalso].
  assert (H1 : inject_Z (rne t) + 1 <= inject_Z (rne s)).
  { change 1 with (inject_Z 1). rewrite <- inject_Z_plus, <- Zle_Qle. lia. }
  destruct (rne_near s) as [_ Hs]. destruct (rne_near t) as [Ht _].
  assert (E : s == t) by Lqa.lra.
  rewrite (rne_comp s t E) in H. lia.
Qed.

Lemma rne_le_Z (t : Q) (n : Z) : t <= inject_Z n -> (rne t <= n)%Z.
Proof. intros H. rewrite <- (rne_Z n). now apply rne_mono. Qed.

Lemma rne_ge_Z (t : Q) (n : Z) : inject_Z n <= t -> (n <= rne t)%Z.
Proof. intros H. rewrite <- (rne_Z n). now apply rne_mono. Qed.

Lemma ulp_exp_mono (p q : Q) : 0 < p -> p <= q -> (ulp_exp p <= ulp_exp q)%Z.
Proof.
  intros Hp Hpq. unfold ulp_exp. pose proof (ilog2_mono p q Hp Hpq). lia.
Qed.

Lemma ulp_exp_comp (p q : Q) : p == q -> 0 < p -> ulp_exp p = ulp_exp q.
Proof. intros E Hp. unfold ulp_exp. now rewrite (ilog2_comp p q E Hp). Qed.

Lemma round_pos_comp (p q : Q) : p == q -> 0 < p -> round_pos p == round_pos q.
Proof.
  intros E Hp. unfold round_pos. rewrite (ulp_exp_comp p q E Hp).
  assert (E' : p / 2 ^ ulp_exp q == q / 2 ^ ulp_exp q) by now rewrite E.
  now rewrite (rne_comp _ _ E').
Qed.

(** A positive number and its scaled significand. *)
Lemma scaled_bounds (q : Q) :
  0 < q ->
  q / 2 ^ ulp_exp q < inject_Z (2 ^ 53)
  /\ ((-1074 < ulp_exp q)%Z -> inject_Z (2 ^ 52) <= q / 2 ^ ulp_exp q).
Proof.
  intros Hq. destruct (ilog2_spec q Hq) as [L1 L2].
  pose proof (two_pow_pos (ulp_exp q)) as He.
  split.
  - apply Qlt_shift_div_r; [exact He |].
    rewrite two_pow_inject by lia. rewrite <- Qpower_plus by discriminate.
    eapply Qlt_le_trans; [exact L2 |]. apply two_pow_le. unfold ulp_exp. lia.
  - intros Hn. apply Qle_shift_div_l; [exact He |].
    rewrite two_pow_inject by lia. rewrite <- Qpower_plus by discriminate.
    eapply Qle_trans; [| exact L1]. apply two_pow_le. unfold ulp_exp in *. lia.
Qed.

Lemma round_pos_mono (p q : Q) : 0 < p -> p <= q -> round_pos p <= round_pos q.
Proof.
  intros Hp Hpq.
  assert (Hq : 0 < q) by (eapply Qlt_le_trans; eassumption).
  pose proof (ulp_exp_mono p q Hp Hpq) as He.
  unfold round_pos.
  destruct (Z.eq_dec (ulp_exp p) (ulp_exp q)) as [E | NE].
  - rewrite E. apply Qmult_le_compat_r; [| apply Qlt_le_weak, two_pow_pos].
    rewrite <- Zle_Qle. apply rne_mono.
    apply Qmult_le_compat_r; [exact Hpq |].
    apply Qlt_le_weak, Qinv_lt_0_compat, two_pow_pos.
  - destruct (scaled_bounds p Hp) as [Pu _].
    destruct (scaled_bounds q Hq) as [_ Ql].
    specialize (Ql ltac:(unfold ulp_exp in *; lia)).
    apply Qlt_le_weak, rne_le_Z in Pu. apply rne_ge_Z in Ql.
    apply Qle_trans with (inject_Z (2 ^ 53) * 2 ^ ulp_exp p).
    { apply Qmult_le_compat_r; [now rewrite <- Zle_Qle |].
      apply Qlt_le_weak, two_pow_pos. }
    apply Qle_trans with (inject_Z (2 ^ 52) * 2 ^ ulp_exp q).
    2:{ apply Qmult_le_compat_r; [now rewrite <- Zle_Qle |].
        apply Qlt_le_weak, two_pow_pos. }
    rewrite !two_pow_inject by lia. rewrite <- !Qpower_plus by discriminate.
    apply two_pow_le. lia.
Qed.

Lemma round_pos_nonneg (q : Q) : 0 < q -> 0 <= round_pos q.
Proof.
  intros Hq. unfold round_pos.
  apply Qmult_le_0_compat; [| apply Qlt_le_weak, two_pow_pos].
  change 0 with (inject_Z 0). rewrite <- Zle_Qle. apply rne_ge_Z.
  apply Qlt_le_weak. apply Qlt_shift_div_l; [apply two_pow_pos |].
  now rewrite Qmult_0_l.
Qed.

Lemma round_nonneg (q : Q) : 0 <= q -> 0 <= round q.
Proof.
  intros Hq. unfold round.
  destruct (Qcompare_spec q 0) as [E | E | E].
  - apply Qle_refl.
  - exfalso. Lqa.lra.
  - now apply round_pos_nonneg.
Qed.

(** Rounding keeps the order of non-negative numbers. *)
Lemma round_mono (p q : Q) : 0 <= p -> p <= q -> round p <= round q.
Proof.
  intros Hp Hpq. unfold round at 1.
  destruct (Qcompare_spec p 0) as [E | E | E].
  - apply round_nonneg. Lqa.lra.
  - exfalso. Lqa.lra.
  - unfold round. destruct (Qcompare_spec q 0) as [F | F | F];
      [exfalso; Lqa.lra | exfalso; Lqa.lra |].
    now apply round_pos_mono.
Qed.

#[global] Instance round_comp : Proper (Qeq ==> Qeq) round.
Proof.
  intros p q E. unfold round.
  rewrite (Qcompare_comp p q E 0 0 (Qeq_refl 0)).
  destruct (Qcompare_spec q 0) as [F | F | F].
  - reflexivity.
  - apply Qopp_comp. apply round_pos_comp; [now rewrite E |].
    rewrite E. Lqa.lra.
  - apply round_pos_comp; [exact E | now rewrite E].
Qed.

Lemma round_0 : round 0 == 0.
Proof. reflexivity. Qed.

Lemma round_1 : round 1 == 1.
Proof. vm_compute. reflexivity. Qed.

Lemma round_unit (q : Q) : 0 <= q <= 1 -> 0 <= round q <= 1.
Proof.
  intros [H0 H1]. split; [now apply round_nonneg |].
  apply Qle_trans with (round 1); [now apply round_mono |].
  rewrite round_1. apply Qle_refl.
Qed.

End RoundingFacts.

(** ** Finite results and the clamp *)

Section Float64Facts.
Import Binary64 Floats Float64.
Local Open Scope Q_scope.

Lemma round_pos_Z (n : Z) :
  (0 < n < 2 ^ 53)%Z -> round_pos (inject_Z n) == inject_Z n.
Proof.
  intros [Hn Hn53].
  assert (Hq : 0 < inject_Z n) by now rewrite <- (Zlt_Qlt 0).
  destruct (ilog2_spec _ Hq) as [L1 L2].
  assert (H0 : (0 <= ilog2 (inject_Z n))%Z).
  { assert (2 ^ 0 < 2 ^ (ilog2 (inject_Z n) + 1)).
    { eapply Qle_lt_trans; [| exact L2]. change (2 ^ 0) with (inject_Z 1).
      rewrite <- Zle_Qle. lia. }
    apply two_pow_lt_inv in H. lia. }
  assert (H52 : (ilog2 (inject_Z n) < 53)%Z).
  { apply two_pow_lt_inv. eapply Qle_lt_trans; [exact L1 |].
    rewrite <- two_pow_inject by lia. now rewrite <- Zlt_Qlt. }
  unfold round_pos.
  assert (He : ulp_exp (inject_Z n) = (ilog2 (inject_Z n) - 52)%Z)
    by (unfold ulp_exp; lia).
  rewrite He. set (e := (ilog2 (inject_Z n) - 52)%Z).
  assert (Hscale : inject_Z n / 2 ^ e == inject_Z (n * 2 ^ (- e))).
  { rewrite inject_Z_mult, two_pow_inject by lia.
    rewrite Qpower_opp. reflexivity. }
  rewrite (rne_comp _ _ Hscale), rne_Z.
  rewrite inject_Z_mult, two_pow_inject by lia.
  rewrite <- Qmult_assoc, <- Qpower_plus by discriminate.
  replace (- e + e)%Z with 0%Z by lia. apply Qmult_1_r.
Qed.

(** The integers below [2^53] are floats. *)
Lemma round_Z (n : Z) : (0 <= n < 2 ^ 53)%Z -> round (inject_Z n) == inject_Z n.
Proof.
  intros [Hn Hn53]. unfold round.
  destruct (Qcompare_spec (inject_Z n) 0) as [E | E | E].
  - now rewrite E.
  - exfalso. change 0 with (inject_Z 0) in E. rewrite <- Zlt_Qlt in E. lia.
  - apply round_pos_Z. change 0 with (inject_Z 0) in E.
    rewrite <- Zlt_Qlt in E. lia.
Qed.

Lemma Fin_eq (p q : Qc) : p == q -> Fin p = Fin q.
Proof. intros E. f_equal. now apply Qc_is_canon. Qed.

Lemma Q2Qc_this (q : Q) : Q2Qc q == q.
Proof. apply Qred_correct. Qed.

#[global] Instance Q2Qc_comp : Proper (Qeq ==> eq) Q2Qc.
Proof. intros p q E. now apply Q2Qc_eq_iff. Qed.

Lemma Q2Qc_unit (q : Q) : 0 <= q <= 1 -> 0 <= Q2Qc q <= 1.
Proof. intros H. pose proof (Q2Qc_this q) as E. split; Lqa.lra. Qed.

Lemma finish_finite (q : Q) :
  0 <= q -> round q < 2 ^ 1024 -> finish q = Fin (Q2Qc (round q)).
Proof.
  intros Hq Hr. unfold finish. cbv zeta.
  rewrite (Qabs_pos _ (round_nonneg q Hq)).
  destruct (Qle_bool (2 ^ 1024) (round q)) eqn:E; [| reflexivity].
  exfalso. apply Qle_bool_iff in E. set (a := 2 ^ 1024) in *. Lqa.lra.
Qed.

Lemma finish_overflow (q : Q) :
  0 <= q -> 2 ^ 1024 <= round q -> finish q = Inf false.
Proof.
  intros Hq Hr. unfold finish. cbv zeta.
  rewrite (Qabs_pos _ (round_nonneg q Hq)).
  apply Qle_bool_iff in Hr. rewrite Hr. unfold negative.
  apply Qle_bool_iff in Hq. now rewrite Hq.
Qed.

Lemma finish_comp (p q : Q) : p == q -> finish p = finish q.
Proof.
  intros E. unfold finish, negative. cbv zeta.
  pose proof (round_comp p q E) as Er.
  assert (B1 : Qle_bool (2 ^ 1024) (Qabs (round p))
               = Qle_bool (2 ^ 1024) (Qabs (round q))).
  { apply eq_true_iff_eq. rewrite !Qle_bool_iff. now rewrite Er. }
  assert (B2 : Qle_bool 0 p = Qle_bool 0 q).
  { apply eq_true_iff_eq. rewrite !Qle_bool_iff. now rewrite E. }
  rewrite B1, B2.
  destruct (Qle_bool (2 ^ 1024) (Qabs (round q))); [reflexivity |].
  apply Fin_eq. now rewrite !Q2Qc_this.
Qed.

(** An operation whose exact result lies between two small integers
    gives a finite float between them. *)
Lemma finish_between (q : Q) (lo hi : Z) :
  (0 <= lo)%Z -> (hi < 2 ^ 53)%Z -> inject_Z lo <= q <= inject_Z hi ->
  finish q = Fin (Q2Qc (round q))
  /\ inject_Z lo <= round q <= inject_Z hi.
Proof.
  intros Hlo Hhi [H1 H2].
  assert (Hlh : (lo <= hi)%Z).
  { rewrite Zle_Qle. eapply Qle_trans; eassumption. }
  assert (Hlo0 : 0 <= inject_Z lo).
  { change 0 with (inject_Z 0). now rewrite <- Zle_Qle. }
  assert (Hq0 : 0 <= q) by (eapply Qle_trans; eassumption).
  assert (R1 : inject_Z lo <= round q).
  { rewrite <- (round_Z lo) by lia. now apply round_mono. }
  assert (R2 : round q <= inject_Z hi).
  { rewrite <- (round_Z hi) by lia. now apply round_mono. }
  split; [| split; assumption].
  apply finish_finite; [exact Hq0 |].
  eapply Qle_lt_trans; [exact R2 |].
  apply Qlt_le_trans with (2 ^ 53).
  - rewrite <- two_pow_inject by lia. now rewrite <- Zlt_Qlt.
  - apply two_pow_le. lia.
Qed.

Lemma finish_unit (q : Q) :
  0 <= q <= 1 ->
  finish q = Fin (Q2Qc (round q)) /\ 0 <= round q <= 1.
Proof. intros H. apply (finish_between q 0 1); [lia | lia | exact H]. Qed.

(** [max(0, min(1, x))] *)
Lemma clamp64_cases (a : float) :
  max zero (min one a) = zero \/ max zero (min one a) = one
  \/ exists v : Qc, a = Fin v /\ max zero (min one a) = Fin v /\ 0 < v < 1.
Proof.
  destruct a as [q | [|] |]; [| now left | now right; left | now right; left].
  unfold max, min, zero, one. cbn [less].
  destruct (Qle_bool (Q2Qc 1) q) eqn:E1; cbn [negb less].
  { right. left. reflexivity. }
  destruct (Qle_bool q (Q2Qc 0)) eqn:E0; cbn [negb].
  { left. reflexivity. }
  right. right. exists q. split; [reflexivity |]. split; [reflexivity |].
  assert (~ Q2Qc 1 <= q) by (rewrite <- Qle_bool_iff; congruence).
  assert (~ q <= Q2Qc 0) by (rewrite <- Qle_bool_iff; congruence).
  change (this (Q2Qc 1)) with 1 in *. change (this (Q2Qc 0)) with 0 in *.
  split; Lqa.lra.
Qed.

Lemma clamp64_unit (a : float) :
  exists v : Qc, max zero (min one a) = Fin v /\ 0 <= v <= 1.
Proof.
  destruct (clamp64_cases a) as [-> | [-> | (v & _ & -> & Hv)]].
  - exists (Q2Qc 0). split; [reflexivity | split; discriminate].
  - exists (Q2Qc 1). split; [reflexivity | split; discriminate].
  - exists v. split; [reflexivity | split; Lqa.lra].
Qed.

Lemma clamp64_id (v : Qc) : 0 <= v <= 1 -> max zero (min one (Fin v)) = Fin v.
Proof.
  intros [H0 H1].
  destruct (clamp64_cases (Fin v)) as [E | [E | (w & Ew & E & _)]];
    rewrite E; [| | now rewrite Ew].
  - revert E. unfold max, min, zero, one. cbn [less].
    destruct (Qle_bool (Q2Qc 1) v) eqn:E1; cbn [negb less]; [discriminate |].
    destruct (Qle_bool v (Q2Qc 0)) eqn:E0; cbn [negb].
    + intros _. apply Qle_bool_iff in E0. change (this (Q2Qc 0)) with 0 in E0.
      apply Fin_eq. change (this (Q2Qc 0)) with 0. Lqa.lra.
    + intros [= ->]. reflexivity.
  - revert E. unfold max, min, zero, one. cbn [less].
    destruct (Qle_bool (Q2Qc 1) v) eqn:E1; cbn [negb less].
    + intros _. apply Qle_bool_iff in E1. change (this (Q2Qc 1)) with 1 in E1.
      apply Fin_eq. change (this (Q2Qc 1)) with 1. Lqa.lra.
    + destruct (Qle_bool v (Q2Qc 0)); cbn [negb]; [discriminate |].
      intros [= ->]. reflexivity.
Qed.

End Float64Facts.

(** ** The arithmetic against the kernel's binary64 *)

Section PrimCheckFacts.
Import PrimCheck.

(** On the sample operands the rounded operations of [Float64] return
    what the machine's binary64 operations return. *)
Lemma arithmetic_agrees_with_primitive_floats :
  forallb agree samples = true.
Proof. vm_compute. reflexivity. Qed.

End PrimCheckFacts.

(** ** Where [P ** n] leaves the range *)

Section PowerBoundsFacts.
Import PowerBounds.
Local Open Scope Q_scope.

Lemma down_le (q : Q) : down q <= q.
Proof.
  unfold down. apply Qle_shift_div_r; [reflexivity |]. apply Qfloor_le.
Qed.

Lemma down_nonneg (q : Q) : 0 <= q -> 0 <= down q.
Proof.
  intros Hq. unfold down. apply Qle_shift_div_l; [reflexivity |].
  rewrite Qmult_0_l. change 0 with (inject_Z 0). rewrite <- Zle_Qle.
  rewrite <- (Qfloor_Z 0). apply Qfloor_resp_le.
  apply Qmult_le_0_compat; [exact Hq | discriminate].
Qed.

Lemma up_ge (q : Q) : q <= up q.
Proof.
  unfold up. apply Qle_shift_div_l; [reflexivity |]. apply Qle_ceiling.
Qed.

Lemma Qpower_xO (b : Q) (p : positive) :
  b ^ Zpos p~0 == b ^ Zpos p * b ^ Zpos p.
Proof.
  replace (Zpos p~0) with (Zpos p + Zpos p)%Z by lia.
  apply Qpower_plus'. lia.
Qed.

Lemma Qpower_xI (b : Q) (p : positive) :
  b ^ Zpos p~1 == b ^ Zpos p * b ^ Zpos p * b.
Proof.
  replace (Zpos p~1) with (Zpos p~0 + 1)%Z by lia.
  rewrite Qpower_plus' by lia. now rewrite Qpower_xO.
Qed.

Lemma pow_lo_spec (b : Q) (p : positive) :
  0 <= b -> 0 <= pow_lo b p /\ pow_lo b p <= b ^ Zpos p.
Proof.
  intros Hb. induction p as [p [IH0 IH] | p [IH0 IH] |]; cbn [pow_lo].
  - assert (H2 : 0 <= pow_lo b p * pow_lo b p)
      by now apply Qmult_le_0_compat.
    split; [apply down_nonneg; now apply Qmult_le_0_compat |].
    eapply Qle_trans; [apply down_le |]. rewrite Qpower_xI.
    apply Qmult_le_compat_r; [| exact Hb].
    apply Qmult_le_compat_nonneg; split; assumption.
  - split; [apply down_nonneg; now apply Qmult_le_0_compat |].
    eapply Qle_trans; [apply down_le |]. rewrite Qpower_xO.
    apply Qmult_le_compat_nonneg; split; assumption.
  - split; [exact Hb | apply Qle_refl].
Qed.

Lemma pow_hi_spec (b : Q) (p : positive) :
  0 <= b -> b ^ Zpos p <= pow_hi b p.
Proof.
  intros Hb.
  assert (Hp : forall q, 0 <= b ^ Zpos q) by (intros q; now apply Qpower_0_le).
  induction p as [p IH | p IH |]; cbn [pow_hi].
  - eapply Qle_trans; [| apply up_ge]. rewrite Qpower_xI.
    assert (H2 : 0 <= pow_hi b p) by (eapply Qle_trans; [apply (Hp p) | exact IH]).
    apply Qmult_le_compat_r; [| exact Hb].
    apply Qmult_le_compat_nonneg; split; auto.
  - eapply Qle_trans; [| apply up_ge]. rewrite Qpower_xO.
    apply Qmult_le_compat_nonneg; split; auto.
  - apply Qle_refl.
Qed.

End PowerBoundsFacts.

Section PowersOfP.
Import Binary64 Floats Float64 Metrics64 Terms64.
Local Open Scope Q_scope.

Lemma P_value : P == 910872158600853 # 562949953421312.
Proof. vm_compute. reflexivity. Qed.

Lemma P_ge_1 : 1 <= P.
Proof. rewrite P_value. discriminate. Qed.

Lemma P_pow_ge_1 (n : Z) : (0 <= n)%Z -> 1 <= P ^ n.
Proof.
  intros Hn. change 1 with (P ^ 0) at 1.
  apply Qpower_le_compat_l; [exact Hn | apply P_ge_1].
Qed.

Lemma P_pow_1474 : round (P ^ 1474) < 2 ^ 1024.
Proof.
  apply Qle_lt_trans with (round (PowerBounds.pow_hi P 1474)).
  - apply round_mono; [now apply Qpower_0_le |].
    now apply pow_hi_spec.
  - apply Qlt_alt. vm_compute. reflexivity.
Qed.

Lemma P_pow_1475 : 2 ^ 1024 <= round (P ^ 1475).
Proof.
  apply Qle_trans with (round (PowerBounds.pow_lo P 1475)).
  - apply Qle_bool_iff. vm_compute. reflexivity.
  - destruct (pow_lo_spec P 1475) as [H0 H1]; [discriminate |].
    now apply round_mono.
Qed.

Lemma round_P_pow_small (n : Z) :
  (0 <= n <= 1474)%Z -> 1 <= round (P ^ n) /\ round (P ^ n) < 2 ^ 1024.
Proof.
  intros [H0 H1]. split.
  - apply Qle_trans with (round 1); [rewrite round_1; apply Qle_refl |].
    apply round_mono; [discriminate | now apply P_pow_ge_1].
  - eapply Qle_lt_trans; [| apply P_pow_1474].
    apply round_mono.
    + eapply Qle_trans; [| apply (P_pow_ge_1 n H0)]. discriminate.
    + apply Qpower_le_compat_l; [exact H1 | apply P_ge_1].
Qed.

Lemma round_P_pow_big (n : Z) : (1475 <= n)%Z -> 2 ^ 1024 <= round (P ^ n).
Proof.
  intros Hn. eapply Qle_trans; [apply P_pow_1475 |].
  apply round_mono.
  - eapply Qle_trans; [| apply (P_pow_ge_1 1475)]; [discriminate | lia].
  - apply Qpower_le_compat_l; [exact Hn | apply P_ge_1].
Qed.

Lemma of_int_small (n : Z) :
  (0 <= n < 2 ^ 53)%Z ->
  exists w : Qc, of_int n = Done (Fin w) /\ Qfloor w = n /\ w == inject_Z n.
Proof.
  intros Hn. unfold of_int.
  assert (Hr : round (inject_Z n) == inject_Z n) by now apply round_Z.
  rewrite finish_finite.
  - eexists. split; [reflexivity |].
    split; [| now rewrite Q2Qc_this].
    rewrite (Qfloor_comp _ (inject_Z n)); [apply Qfloor_Z |].
    now rewrite Q2Qc_this.
  - change 0 with (inject_Z 0). rewrite <- Zle_Qle. lia.
  - rewrite Hr. apply Qlt_le_trans with (2 ^ 53).
    + rewrite <- two_pow_inject by lia. rewrite <- Zlt_Qlt. lia.
    + apply two_pow_le. lia.
Qed.

Lemma pow_int_P_small (n : Z) :
  (0 <= n <= 1474)%Z -> pow_int P n = Done (Fin (Q2Qc (round (P ^ n)))).
Proof.
  intros Hn. unfold pow_int.
  destruct (of_int_small n) as (w & -> & Hw & _); [lia |].
  cbn [mbind outcome_bind]. rewrite Hw.
  change (Qeq_bool P 0) with false. cbn [andb].
  destruct (round_P_pow_small n Hn) as [_ Hlt].
  rewrite finish_finite; [reflexivity | | exact Hlt].
  eapply Qle_trans; [| apply P_pow_ge_1]; [discriminate | lia].
Qed.

Lemma pow_int_P_big (n : Z) :
  (1475 <= n)%Z -> pow_int P n = Raised OverflowError.
Proof.
  intros Hn. unfold pow_int, of_int.
  assert (Hn0 : 0 <= inject_Z n).
  { change 0 with (inject_Z 0). rewrite <- Zle_Qle. lia. }
  destruct (finish (inject_Z n)) as [w | s |] eqn:Ew;
    cbn [mbind outcome_bind]; [| reflexivity | reflexivity].
  assert (Hw : w == round (inject_Z n)).
  { revert Ew. unfold finish. cbv zeta.
    destruct (Qle_bool _ _); [discriminate |].
    intros [= <-]. apply Q2Qc_this. }
  assert (He : (1475 <= Qfloor w)%Z).
  { rewrite <- (Qfloor_Z 1475). apply Qfloor_resp_le.
    rewrite Hw. rewrite <- (round_Z 1475) by lia.
    apply round_mono; [discriminate |]. rewrite <- Zle_Qle. lia. }
  set (e := Qfloor w) in *.
  change (Qeq_bool P 0) with false. cbn [andb].
  rewrite finish_overflow; [reflexivity | | now apply round_P_pow_big].
  eapply Qle_trans; [| apply P_pow_ge_1]; [discriminate | lia].
Qed.


End PowersOfP.

(** ** [ps] on the unit interval *)

Section PsOnUnitInterval.
Import Binary64 Floats Float64 Metrics64 Terms64.
Local Open Scope Q_scope.

Lemma sub_one_unit (x : Qc) :
  0 <= x <= 1 ->
  sub one (Fin x) = Fin (Q2Qc (round (1 - x))) /\ 0 <= round (1 - x) <= 1.
Proof.
  intros Hx. unfold sub, one. change (this (Q2Qc 1)) with 1.
  apply finish_unit. split; Lqa.lra.
Qed.

Lemma quotient_unit (a pw : Qc) :
  0 <= a <= 1 -> 1 <= pw ->
  div (Fin a) (Fin pw) = Done (Fin (Q2Qc (round (a / pw))))
  /\ 0 <= round (a / pw) <= 1.
Proof.
  intros Ha Hp.
  assert (Hq : 0 <= a / pw <= 1).
  { split.
    - apply Qle_shift_div_l; Lqa.lra.
    - apply Qle_shift_div_r; Lqa.lra. }
  unfold div, is_zero.
  assert (Hnz : Qeq_bool pw 0 = false).
  { destruct (Qeq_bool pw 0) eqn:E; [| reflexivity].
    apply Qeq_bool_iff in E. exfalso. Lqa.lra. }
  rewrite Hnz. cbn [quotient].
  destruct (finish_unit (a / pw) Hq) as [-> Hb]. now split.
Qed.

(** What [ps] computes on the unit interval while [P ** n] is in range. *)
Lemma ps_unit (x : Qc) (n : Z) :
  0 <= x <= 1 -> (0 <= n <= 1474)%Z ->
  returns (ps (Fin x) n) (ps_value x n) /\ 0 <= ps_value x n <= 1.
Proof.
  intros Hx Hn. unfold ps, ps_value. cbv zeta.
  rewrite (clamp64_id x Hx).
  destruct (sub_one_unit x Hx) as [-> Ha].
  rewrite (pow_int_P_small n Hn). cbn [mbind outcome_bind].
  destruct (round_P_pow_small n Hn) as [Hp1 _].
  set (a := round (1 - x)) in *. set (pw := round (P ^ n)) in *.
  destruct (quotient_unit (Q2Qc a) (Q2Qc pw)) as [-> Hb];
    [now rewrite Q2Qc_this | now rewrite Q2Qc_this |].
  cbn [mbind outcome_bind mret outcome_ret].
  assert (Eb : round (Q2Qc a / Q2Qc pw) == round (a / pw)).
  { apply round_comp. now rewrite !Q2Qc_this. }
  rewrite Eb in Hb. set (b := round (a / pw)) in *.
  destruct (sub_one_unit (Q2Qc (round (Q2Qc a / Q2Qc pw)))) as [-> Hc].
  { now rewrite Q2Qc_this, Eb. }
  assert (Ec : round (1 - Q2Qc (round (Q2Qc a / Q2Qc pw))) == round (1 - b)).
  { apply round_comp. now rewrite Q2Qc_this, Eb. }
  rewrite Ec in Hc.
  split; [| exact Hc].
  rewrite clamp64_id by now rewrite Q2Qc_this, Ec.
  eexists. split; [reflexivity |]. now rewrite Q2Qc_this.
Qed.

Lemma ps_value_mono (x y : Q) (n : Z) :
  0 <= x -> x <= y -> y <= 1 -> (0 <= n <= 1474)%Z ->
  ps_value x n <= ps_value y n.
Proof.
  intros Hx Hxy Hy Hn. unfold ps_value.
  destruct (round_P_pow_small n Hn) as [Hp1 _].
  set (pw := round (P ^ n)) in *.
  assert (Ha : 0 <= round (1 - y) <= round (1 - x) /\ round (1 - x) <= 1).
  { split; [split |].
    - apply round_nonneg. Lqa.lra.
    - apply round_mono; Lqa.lra.
    - apply round_unit. split; Lqa.lra. }
  set (a := round (1 - x)) in *. set (a' := round (1 - y)) in *.
  assert (Hb : 0 <= a' / pw <= a / pw /\ a / pw <= 1).
  { split; [split |].
    - apply Qle_shift_div_l; Lqa.lra.
    - apply Qmult_le_compat_r; [Lqa.lra |].
      apply Qinv_le_0_compat. Lqa.lra.
    - apply Qle_shift_div_r; Lqa.lra. }
  assert (Hc : 0 <= round (a' / pw) <= round (a / pw) /\ round (a / pw) <= 1).
  { split; [split |].
    - apply round_nonneg. Lqa.lra.
    - apply round_mono; Lqa.lra.
    - apply round_unit. split; Lqa.lra. }
  apply round_mono; Lqa.lra.
Qed.

End PsOnUnitInterval.

(** ** The size of a rounding error *)

Section RoundingError.
Import Binary64.
Local Open Scope Q_scope.

(** Rounding moves a positive number by at most half a unit in the last
    place. *)
Lemma round_pos_near (q : Q) :
  0 < q ->
  q - (1 # 2) * 2 ^ ulp_exp q <= round_pos q
  /\ round_pos q <= q + (1 # 2) * 2 ^ ulp_exp q.
Proof.
  intros Hq. unfold round_pos.
  pose proof (two_pow_pos (ulp_exp q)) as He.
  destruct (rne_near (q / 2 ^ ulp_exp q)) as [N1 N2].
  set (e := 2 ^ ulp_exp q) in *. set (m := inject_Z (rne (q / e))) in *.
  assert (Hs : q / e * e == q) by (field; Lqa.lra).
  set (t := q / e) in *.
  assert (M1 : (t - (1 # 2)) * e <= m * e)
    by (apply Qmult_le_compat_r; Lqa.lra).
  assert (M2 : m * e <= (t + (1 # 2)) * e)
    by (apply Qmult_le_compat_r; Lqa.lra).
  clearbody t m e. split; Lqa.lra.
Qed.

(** In the unit interval the error is at most [2^-54]. *)
Lemma round_near_unit (q : Q) :
  0 <= q <= 1 ->
  q - (1 # 2 ^ 54) <= round q /\ round q <= q + (1 # 2 ^ 54).
Proof.
  intros [H0 H1].
  destruct (Qlt_le_dec q 1) as [Hlt | Hge].
  - unfold round. destruct (Qcompare_spec q 0) as [E | E | E].
    + rewrite E. split; discriminate.
    + exfalso. Lqa.lra.
    + destruct (round_pos_near q E) as [N1 N2].
      assert (He : 2 ^ ulp_exp q <= 2 ^ (-53)).
      { apply two_pow_le. unfold ulp_exp.
        assert (ilog2 q < 0)%Z; [| lia].
        apply two_pow_lt_inv. destruct (ilog2_spec q E) as [L1 _].
        eapply Qle_lt_trans; [exact L1 |]. exact Hlt. }
      assert (Hu : 2 ^ (-53) == 2 * (1 # 2 ^ 54)) by reflexivity.
      rewrite Hu in He.
      set (e := 2 ^ ulp_exp q) in *. set (r := round_pos q) in *.
      set (u := 1 # 2 ^ 54) in *. clearbody e r u. split; Lqa.lra.
  - assert (E : q == 1) by Lqa.lra.
    rewrite (round_comp q 1 E), round_1. rewrite E. split; discriminate.
Qed.

(** From [1] on the error is at most [2^-53] of the number. *)
Lemma round_near_rel (q : Q) :
  1 <= q ->
  q - q * (1 # 2 ^ 53) <= round q /\ round q <= q + q * (1 # 2 ^ 53).
Proof.
  intros H1.
  assert (Hq : 0 < q) by Lqa.lra.
  unfold round. destruct (Qcompare_spec q 0) as [E | E | E];
    [exfalso; Lqa.lra | exfalso; Lqa.lra |].
  destruct (round_pos_near q Hq) as [N1 N2].
  destruct (ilog2_spec q Hq) as [L1 L2].
  assert (Hi : (0 <= ilog2 q)%Z).
  { assert (2 ^ 0 < 2 ^ (ilog2 q + 1)).
    { eapply Qle_lt_trans; [| exact L2]. exact H1. }
    apply two_pow_lt_inv in H. lia. }
  assert (He : ulp_exp q = (ilog2 q + - 52)%Z) by (unfold ulp_exp; lia).
  rewrite He in N1, N2.
  assert (Hu : 2 ^ (ilog2 q + - 52) == 2 ^ ilog2 q * (2 * (1 # 2 ^ 53))).
  { rewrite Qpower_plus by discriminate.
    apply Qmult_comp; [reflexivity |]. reflexivity. }
  set (e := 2 ^ (ilog2 q + - 52)) in *. set (r := round_pos q) in *.
  set (l := 2 ^ ilog2 q) in *.
  set (u := 1 # 2 ^ 53) in *.
  assert (Hlu : l * u <= q * u)
    by (apply Qmult_le_compat_r; [exact L1 | discriminate]).
  clearbody e r l u. split; Lqa.lra.
Qed.

End RoundingError.

(** ** The step-by-step smoothers *)

Section StepsBinary64.
Import Binary64 Floats Float64 RecursivePhi64 SpecWords64 Terms64.
Local Open Scope Q_scope.

Lemma PHI_is_P64 : PHI = Metrics64.P.
Proof. reflexivity. Qed.

Lemma over_PHI (a : Q) : a / PHI == a * (562949953421312 # 910872158600853).
Proof. reflexivity. Qed.

Lemma step_value_unit (x : Q) : 0 <= x <= 1 -> 0 <= step_value x <= 1.
Proof.
  intros Hx. unfold step_value. apply round_unit.
  assert (Ha : 0 <= round (1 - x) <= 1) by (apply round_unit; split; Lqa.lra).
  assert (Hb : 0 <= round (round (1 - x) / PHI) <= 1).
  { apply round_unit. rewrite over_PHI. split; Lqa.lra. }
  split; Lqa.lra.
Qed.

Lemma step_value_comp (x y : Q) : x == y -> step_value x == step_value y.
Proof. intros E. unfold step_value. now rewrite E. Qed.

Lemma step_unit (x : Qc) :
  0 <= x <= 1 -> step (Fin x) = Fin (Q2Qc (step_value x)).
Proof.
  intros Hx. unfold step, step_value.
  destruct (sub_one_unit x Hx) as [-> Ha].
  set (a := round (1 - x)) in *.
  assert (Hq : 0 <= Q2Qc a / PHI <= 1).
  { rewrite Q2Qc_this, over_PHI. split; Lqa.lra. }
  cbn [quotient]. destruct (finish_unit _ Hq) as [-> Hb].
  assert (Eb : round (Q2Qc a / PHI) == round (a / PHI)).
  { apply round_comp. now rewrite Q2Qc_this. }
  destruct (sub_one_unit (Q2Qc (round (Q2Qc a / PHI)))) as [-> _].
  { now apply Q2Qc_unit. }
  apply Fin_eq. rewrite !Q2Qc_this. reflexivity.
Qed.

(** The steps never leave the unit interval. *)
Lemma iter_step_unit (k : nat) (x : Qc) :
  0 <= x <= 1 ->
  exists w : Qc, Nat.iter k step (Fin x) = Fin w /\ 0 <= w <= 1.
Proof.
  intros Hx. induction k as [| k (w & E & Hw)].
  - now exists x.
  - rewrite Nat.iter_succ, E, (step_unit w Hw). eexists. split; [reflexivity |].
    now apply Q2Qc_unit, step_value_unit.
Qed.

Lemma clamp_fin_id (v : Qc) : 0 <= v <= 1 -> clamp (Fin v) = Fin v.
Proof. apply clamp64_id. Qed.

Lemma recursive_as_steps (k : nat) :
  forall (x : Qc) (n : Z), Z.to_nat n = k -> 0 <= x <= 1 ->
  phi_smooth_recursive (Fin x) n = Nat.iter k step (Fin x).
Proof.
  induction k as [| k IH]; intros x n Hk Hx; simp phi_smooth_recursive.
  - destruct (Z_le_gt_dec n 0) as [Hle | Hgt]; simpl; [| lia].
    now apply clamp_fin_id.
  - destruct (Z_le_gt_dec n 0) as [Hle | Hgt]; simpl; [lia |].
    rewrite (clamp_fin_id x Hx), (step_unit x Hx).
    rewrite (IH _ (n - 1)%Z); [| lia |].
    + rewrite <- (step_unit x Hx). symmetry.
      apply (Nat.iter_succ_r k step (Fin x)).
    + now apply Q2Qc_unit, step_value_unit.
Qed.

Lemma iterative_as_steps (x : Qc) (n : Z) :
  0 <= x <= 1 ->
  phi_smooth_iterative (Fin x) n = Nat.iter (Z.to_nat n) step (Fin x).
Proof.
  intros Hx. unfold phi_smooth_iterative. cbv zeta.
  rewrite (clamp_fin_id x Hx).
  destruct (iter_step_unit (Z.to_nat n) x Hx) as (w & -> & Hw).
  now apply clamp_fin_id.
Qed.

Lemma spec_steps_as_steps (k : nat) (x : Qc) :
  0 <= x <= 1 -> compress_by_steps PHI (Fin x) k = Nat.iter k step (Fin x).
Proof.
  intros Hx. unfold compress_by_steps. rewrite (clamp_fin_id x Hx).
  induction k as [| k IH]; [reflexivity |].
  rewrite !Nat.iter_succ, IH. unfold clamped_step.
  destruct (iter_step_unit k x Hx) as (w & -> & Hw).
  rewrite (clamp_fin_id w Hw). change (f PHI (Fin w)) with (step (Fin w)).
  rewrite (step_unit w Hw). apply clamp_fin_id.
  now apply Q2Qc_unit, step_value_unit.
Qed.

End StepsBinary64.

(** ** The distance to the exact closed form *)

Section ErrorAnalysis.
Import Binary64 Floats Float64 RecursivePhi64 SpecWords64 Terms64.
Local Open Scope Q_scope.

Lemma PHI_pow_pos (n : Z) : 0 < PHI ^ n.
Proof. apply Qpower_0_lt. reflexivity. Qed.

Lemma closed_form_succ (x : Q) (k : Z) :
  (0 <= k)%Z ->
  closed_form x (k + 1) == 1 - (1 - closed_form x k) / PHI.
Proof.
  intros Hk. unfold closed_form.
  rewrite Qpower_plus by discriminate.
  pose proof (PHI_pow_pos k) as Hp. change (PHI ^ 1) with (this PHI).
  set (T := PHI ^ k) in *.
  assert (HT : ~ T == 0) by Lqa.lra.
  assert (HP : ~ PHI == 0) by (intros H; unfold Qeq in H; discriminate H).
  field. tauto.
Qed.

Lemma closed_form_0 (x : Q) : closed_form x 0 == x.
Proof. unfold closed_form. change (PHI ^ 0) with 1. field. Qed.

(** One rounded step against one exact step: an error of [8 * 2^-54]
    does not grow. *)
Lemma step_value_near (w y : Q) :
  0 <= w <= 1 ->
  y - 8 * (1 # 2 ^ 54) <= w <= y + 8 * (1 # 2 ^ 54) ->
  1 - (1 - y) / PHI - 8 * (1 # 2 ^ 54) <= step_value w
  /\ step_value w <= 1 - (1 - y) / PHI + 8 * (1 # 2 ^ 54).
Proof.
  intros Hw Hy. unfold step_value.
  destruct (round_near_unit (1 - w)) as [A1 A2]; [split; Lqa.lra |].
  assert (Ha : 0 <= round (1 - w) <= 1) by (apply round_unit; split; Lqa.lra).
  set (a := round (1 - w)) in *.
  assert (Hq : 0 <= a / PHI <= 1) by (rewrite over_PHI; split; Lqa.lra).
  destruct (round_near_unit (a / PHI) Hq) as [B1 B2].
  assert (Hb : 0 <= round (a / PHI) <= 1) by now apply round_unit.
  set (b := round (a / PHI)) in *.
  destruct (round_near_unit (1 - b)) as [C1 C2]; [split; Lqa.lra |].
  set (c := round (1 - b)) in *.
  rewrite over_PHI in B1, B2. rewrite over_PHI.
  set (eps := 1 # 2 ^ 54) in *.
  assert (He : 0 <= eps) by discriminate.
  clearbody a b c eps. split; Lqa.lra.
Qed.

(** The step-by-step forms stay within [8 * 2^-54] of the closed form. *)
Lemma steps_near_closed_form (k : nat) (x : Qc) :
  0 <= x <= 1 ->
  exists w : Qc, Nat.iter k step (Fin x) = Fin w /\ 0 <= w <= 1
    /\ closed_form x (Z.of_nat k) - 8 * (1 # 2 ^ 54) <= w
    /\ w <= closed_form x (Z.of_nat k) + 8 * (1 # 2 ^ 54).
Proof.
  intros Hx. induction k as [| k (w & E & Hw & L & U)].
  - exists x. split; [reflexivity |]. split; [exact Hx |].
    change (Z.of_nat 0) with 0%Z. rewrite closed_form_0.
    set (eps := 1 # 2 ^ 54). assert (He : 0 <= eps) by discriminate.
    clearbody eps. split; Lqa.lra.
  - rewrite Nat.iter_succ, E, (step_unit w Hw).
    eexists. split; [reflexivity |].
    split; [now apply Q2Qc_unit, step_value_unit |].
    rewrite Q2Qc_this. rewrite Nat2Z.inj_succ. unfold Z.succ.
    rewrite closed_form_succ by lia.
    apply step_value_near; [exact Hw | split; assumption].
Qed.

End ErrorAnalysis.

Section ClosedFormError.
Import Binary64 Floats Float64 RecursivePhi64 SpecWords64 Terms64.
Local Open Scope Q_scope.

(** The closed form [ps] stays within [5 * 2^-54] of the exact one. *)
Lemma ps_value_near (x : Q) (n : Z) :
  0 <= x <= 1 -> (0 <= n <= 1474)%Z ->
  closed_form x n - 5 * (1 # 2 ^ 54) <= ps_value x n
  /\ ps_value x n <= closed_form x n + 5 * (1 # 2 ^ 54).
Proof.
  intros Hx Hn. unfold ps_value, closed_form. rewrite PHI_is_P64.
  destruct (round_P_pow_small n Hn) as [Hp1 _].
  assert (HT : 1 <= Metrics64.P ^ n) by (apply P_pow_ge_1; lia).
  destruct (round_near_rel _ HT) as [T1 T2].
  set (T := Metrics64.P ^ n) in *. set (pw := round T) in *.
  destruct (round_near_unit (1 - x)) as [A1 A2]; [split; Lqa.lra |].
  assert (Ha : 0 <= round (1 - x) <= 1) by (apply round_unit; split; Lqa.lra).
  set (a := round (1 - x)) in *.
  assert (Hq : 0 <= a / pw <= 1).
  { split; [apply Qle_shift_div_l | apply Qle_shift_div_r]; Lqa.lra. }
  assert (Hs : 0 <= (1 - x) / T <= 1).
  { split; [apply Qle_shift_div_l | apply Qle_shift_div_r]; Lqa.lra. }
  assert (Eq : a / pw * pw == a) by (field; Lqa.lra).
  assert (Es : (1 - x) / T * T == 1 - x) by (field; Lqa.lra).
  destruct (round_near_unit (a / pw) Hq) as [B1 B2].
  assert (Hb : 0 <= round (a / pw) <= 1) by now apply round_unit.
  set (q := a / pw) in *. set (s := (1 - x) / T) in *.
  set (b := round q) in *.
  destruct (round_near_unit (1 - b)) as [C1 C2]; [split; Lqa.lra |].
  set (c := round (1 - b)) in *.
  change (2 ^ 54)%positive with 18014398509481984%positive in *.
  change (2 ^ 53)%positive with 9007199254740992%positive in *.
  assert (S1 : (T - pw) * s <= T * (1 # 9007199254740992) * s)
    by (apply Qmult_le_compat_r; Lqa.lra).
  assert (S2 : (pw - T) * s <= T * (1 # 9007199254740992) * s)
    by (apply Qmult_le_compat_r; Lqa.lra).
  assert (D : s - 3 * (1 # 18014398509481984) <= q
              /\ q <= s + 3 * (1 # 18014398509481984)).
  { destruct (Qlt_le_dec q s) as [Hlt | Hge].
    - assert (0 <= (pw - 1) * (s - q))
        by (apply Qmult_le_0_compat; Lqa.lra).
      clearbody a b c q s pw T. split; Lqa.lra.
    - assert (0 <= (pw - 1) * (q - s))
        by (apply Qmult_le_0_compat; Lqa.lra).
      clearbody a b c q s pw T. split; Lqa.lra. }
  clearbody a b c q s pw T. split; Lqa.lra.
Qed.

End ClosedFormError.

(** ** [ps] and its depth *)

Section PsDepth.
Import Binary64 Floats Float64 Metrics64 Terms64.
Local Open Scope Q_scope.

Lemma round_P_pow_mono (m n : Z) :
  (0 <= m <= n)%Z -> round (P ^ m) <= round (P ^ n).
Proof.
  intros [H0 H1]. apply round_mono.
  - eapply Qle_trans; [| apply (P_pow_ge_1 m H0)]. discriminate.
  - apply Qpower_le_compat_l; [exact H1 | apply P_ge_1].
Qed.

(** A deeper compression never gives less. *)
Lemma ps_value_depth_mono (x : Q) (m n : Z) :
  0 <= x <= 1 -> (0 <= m <= n)%Z -> (n <= 1474)%Z ->
  ps_value x m <= ps_value x n.
Proof.
  intros Hx Hmn Hn. unfold ps_value.
  destruct (round_P_pow_small m) as [Hm1 _]; [lia |].
  destruct (round_P_pow_small n) as [Hn1 _]; [lia |].
  pose proof (round_P_pow_mono m n Hmn) as Hpw.
  assert (Ha : 0 <= round (1 - x) <= 1) by (apply round_unit; split; Lqa.lra).
  set (a := round (1 - x)) in *.
  set (pm := round (P ^ m)) in *. set (pn := round (P ^ n)) in *.
  assert (Hq : 0 <= a / pn <= a / pm /\ a / pm <= 1).
  { split; [split |].
    - apply Qle_shift_div_l; Lqa.lra.
    - apply Qle_shift_div_l; [Lqa.lra |].
      assert (E : a / pn * pm == a * (pm / pn)) by (field; Lqa.lra).
      rewrite E.
      assert (0 <= pm / pn <= 1).
      { split; [apply Qle_shift_div_l | apply Qle_shift_div_r]; Lqa.lra. }
      assert (0 <= a * (1 - pm / pn)) by (apply Qmult_le_0_compat; Lqa.lra).
      Lqa.lra.
    - apply Qle_shift_div_r; Lqa.lra. }
  assert (Hb : 0 <= round (a / pn) <= round (a / pm) /\ round (a / pm) <= 1).
  { split; [split |].
    - apply round_nonneg. Lqa.lra.
    - apply round_mono; Lqa.lra.
    - apply round_unit. split; Lqa.lra. }
  apply round_mono; Lqa.lra.
Qed.

Lemma ps_value_zero_depth_0 : ps_value 0 0 == 0.
Proof. vm_compute. reflexivity. Qed.

Lemma ps_value_zero_depth_1 : 3819 # 10000 <= ps_value 0 1.
Proof. apply Qle_bool_iff. vm_compute. reflexivity. Qed.

Lemma ps_value_one (n : Z) : (0 <= n <= 1474)%Z -> ps_value 1 n == 1.
Proof.
  intros Hn. unfold ps_value.
  destruct (round_P_pow_small n Hn) as [Hp _].
  assert (E1 : round (1 - 1) == 0) by reflexivity.
  rewrite E1.
  assert (E2 : 0 / round (P ^ n) == 0) by (field; Lqa.lra).
  rewrite E2. reflexivity.
Qed.

End PsDepth.

(** ** The smoothers on every float *)

Section SmoothersBinary64.
Import Binary64 Floats Float64 RecursivePhi64 SpecWords64 Terms64.
Local Open Scope Q_scope.

Lemma clamp_finite_unit (a : float) :
  exists v : Qc, clamp a = Fin v /\ 0 <= v <= 1.
Proof. apply clamp64_unit. Qed.

Lemma clamp_idem64 (a : float) : clamp (clamp a) = clamp a.
Proof.
  destruct (clamp_finite_unit a) as (v & -> & Hv). now apply clamp_fin_id.
Qed.

Lemma recursive_clamps_first64 (x : float) (n : Z) :
  phi_smooth_recursive x n = phi_smooth_recursive (clamp x) n.
Proof.
  rewrite (phi_smooth_recursive_equation_1 x n),
          (phi_smooth_recursive_equation_1 (clamp x) n).
  destruct (Z_le_gt_dec n 0); simpl; now rewrite clamp_idem64.
Qed.

Lemma recursive_everywhere64 (x : float) (n : Z) :
  phi_smooth_recursive x n = Nat.iter (Z.to_nat n) step (clamp x).
Proof.
  rewrite recursive_clamps_first64.
  destruct (clamp_finite_unit x) as (v & -> & Hv).
  now apply recursive_as_steps.
Qed.

Lemma iterative_everywhere64 (x : float) (n : Z) :
  phi_smooth_iterative x n = Nat.iter (Z.to_nat n) step (clamp x).
Proof.
  unfold phi_smooth_iterative. cbv zeta.
  destruct (clamp_finite_unit x) as (v & -> & Hv).
  destruct (iter_step_unit (Z.to_nat n) v Hv) as (w & -> & Hw).
  now apply clamp_fin_id.
Qed.

Lemma lambda_is_recursive64 (k : nat) :
  forall (x : float) (n : Z), Z.to_nat n = k ->
  lambda_ps x n = phi_smooth_recursive x n.
Proof.
  induction k as [| k IH]; intros x n Hk;
    simp lambda_ps phi_smooth_recursive;
    destruct (Z_le_gt_dec n 0) as [Hle | Hgt]; simpl; try lia.
  - reflexivity.
  - apply IH. lia.
Qed.

End SmoothersBinary64.

(** ** Claims about the compression, on binary64 *)

Section Binary64Claims.
Import Binary64 Floats Float64 Metrics64 RecursivePhi64 SpecWords64 Terms64.
Local Open Scope Q_scope.

Lemma ps_zero_value (n : Z) :
  (0 <= n <= 1474)%Z -> (ps_value 0 n == 0 <-> n = 0%Z).
Proof.
  intros Hn. split.
  - intros E. destruct (Z.eq_dec n 0%Z) as [-> | Hne]; [reflexivity | exfalso].
    assert (H1 : ps_value 0 1 <= ps_value 0 n).
    { apply ps_value_depth_mono; [split; discriminate | lia | lia]. }
    pose proof ps_value_zero_depth_1 as H2. rewrite E in H1.
    revert H1 H2. generalize (ps_value 0 1). intros q H1 H2. Lqa.lra.
  - intros ->. apply ps_value_zero_depth_0.
Qed.

(** C1, as amended, on binary64: for [x], [y] in [[0,1]] and an integer
    [depth] from [0] to [1474], [ps x depth] is a float in [[0,1]];
    [ps 1 depth] is [1]; [ps 0 depth] is [0] only at [depth = 0]; and
    [x <= y] gives [ps x depth <= ps y depth]. From [depth = 1475] on,
    [P ** depth] is out of range and [ps] raises [OverflowError]. *)
Theorem ps_unit_interval_contract_binary64 (x y : Qc) (depth : Z) :
  0 <= x <= 1 -> 0 <= y <= 1 -> (0 <= depth)%Z ->
  ((depth <= 1474)%Z ->
     exists vx vy v0 : Qc,
       ps (Fin x) depth = Done (Fin vx)
       /\ ps (Fin y) depth = Done (Fin vy)
       /\ ps zero depth = Done (Fin v0)
       /\ 0 <= vx <= 1
       /\ (v0 == 0 <-> depth = 0%Z)
       /\ ps one depth = Done one
       /\ (x <= y -> vx <= vy))
  /\ ((1475 <= depth)%Z -> ps (Fin x) depth = Raised OverflowError).
Proof.
  intros Hx Hy Hd. split.
  - intros Hs.
    destruct (ps_unit x depth Hx) as [(vx & Ex & Vx) Rx]; [lia |].
    destruct (ps_unit y depth Hy) as [(vy & Ey & Vy) _]; [lia |].
    destruct (ps_unit (Q2Qc 0) depth) as [(v0 & E0 & V0) _];
      [split; discriminate | lia |].
    destruct (ps_unit (Q2Qc 1) depth) as [(v1 & E1 & V1) _];
      [split; discriminate | lia |].
    exists vx, vy, v0.
    refine (conj Ex (conj Ey (conj E0 (conj _ (conj _ (conj _ _)))))).
    + now rewrite Vx.
    + rewrite V0. apply ps_zero_value. lia.
    + unfold one. rewrite E1. f_equal. apply Fin_eq. rewrite V1.
      apply ps_value_one. lia.
    + intros Hxy. rewrite Vx, Vy.
      apply ps_value_mono; [apply Hx | exact Hxy | apply Hy | lia].
  - intros Hb. unfold ps. cbv zeta.
    now rewrite (pow_int_P_big depth Hb).
Qed.

Lemma ps_unit_interval_contract_binary64_witness :
  exists vx vy v0 : Qc,
    ps (Fin (Q2Qc (1 # 4))) 3 = Done (Fin vx)
    /\ ps (Fin (Q2Qc (1 # 2))) 3 = Done (Fin vy)
    /\ ps zero 3 = Done (Fin v0)
    /\ 0 <= vx <= 1
    /\ (v0 == 0 <-> 3%Z = 0%Z)
    /\ ps one 3 = Done one
    /\ (Q2Qc (1 # 4) <= Q2Qc (1 # 2) -> vx <= vy).
Proof.
  destruct (ps_unit_interval_contract_binary64
              (Q2Qc (1 # 4)) (Q2Qc (1 # 2)) 3) as [H _].
  - split; discriminate.
  - split; discriminate.
  - lia.
  - apply H. lia.
Defined.

(** C1, as stated, fails on the code: [ps(0, 1)] is
    [0.3819660112501051], not [0]; [ps] is not strictly increasing,
    since at depth [80] it sends both [0] and [1] to [1.0]; and at depth
    [1475] it returns no value at all. *)
Lemma ps_not_zero_and_not_strict :
  (exists v : Qc, ps zero 1 = Done (Fin v)
                  /\ v == 3440443971868337 # 9007199254740992
                  /\ ~ v == 0)
  /\ ps zero 80 = Done one /\ ps one 80 = Done one
  /\ ps zero 1475 = Raised OverflowError.
Proof.
  split; [| split; [| split]].
  - eexists. split; [vm_compute; reflexivity |].
    split; [reflexivity | intros H; discriminate H].
  - vm_compute. reflexivity.
  - vm_compute. reflexivity.
  - unfold ps. cbv zeta. now rewrite pow_int_P_big by lia.
Qed.




End Binary64Claims.

(** ** Further properties on binary64 *)

Section Binary64Extras.
Import Binary64 Floats Float64 Metrics64 RecursivePhi64 SpecWords64 Terms64.
Local Open Scope Q_scope.

Lemma step_one : step one = one.
Proof.
  unfold one. rewrite step_unit by (split; discriminate).
  apply Fin_eq. rewrite Q2Qc_this. vm_compute. reflexivity.
Qed.

Lemma iter_step_one (k : nat) : Nat.iter k step one = one.
Proof.
  induction k as [| k IH]; [reflexivity |].
  now rewrite Nat.iter_succ, IH, step_one.
Qed.



Lemma ps_value_zero_depth_80 : ps_value 0 80 == 1.
Proof. vm_compute. reflexivity. Qed.

(** On binary64, for [x] in [[0,1]] and depths [0 <= m <= n <= 1474]:
    the deeper compression is not smaller; from depth [1] on the result
    is at least [0.3819]; and from depth [80] on it is [1.0] exactly,
    whatever [x]. *)
Theorem ps_depth_binary64 (x : Qc) (m n : Z) :
  0 <= x <= 1 -> (0 <= m <= n)%Z -> (n <= 1474)%Z ->
  exists vm vn : Qc,
    ps (Fin x) m = Done (Fin vm)
    /\ ps (Fin x) n = Done (Fin vn)
    /\ vm <= vn
    /\ ((1 <= n)%Z -> 3819 # 10000 <= vn)
    /\ ((80 <= n)%Z -> ps (Fin x) n = Done one).
Proof.
  intros Hx Hmn Hn.
  destruct (ps_unit x m Hx) as [(vm & Em & Vm) _]; [lia |].
  destruct (ps_unit x n Hx) as [(vn & En & Vn) Rn]; [lia |].
  exists vm, vn.
  assert (H0 : forall k, (0 <= k <= n)%Z -> ps_value 0 k <= vn).
  { intros k Hk. rewrite Vn.
    apply Qle_trans with (ps_value 0 n).
    - apply ps_value_depth_mono; [split; discriminate | lia | lia].
    - apply ps_value_mono; [discriminate | apply Hx | apply Hx | lia]. }
  refine (conj Em (conj En (conj _ (conj _ _)))).
  - rewrite Vm, Vn. apply ps_value_depth_mono; [exact Hx | lia | lia].
  - intros H1. eapply Qle_trans; [apply ps_value_zero_depth_1 |].
    apply H0. lia.
  - intros H80. rewrite En. f_equal. unfold one. apply Fin_eq.
    specialize (H0 80%Z ltac:(lia)). rewrite ps_value_zero_depth_80 in H0.
    rewrite Vn in *. change (this (Q2Qc 1)) with 1.
    destruct Rn as [_ Rn]. revert H0 Rn. generalize (ps_value x n).
    intros q H0 Rn. Lqa.lra.
Qed.

Lemma ps_depth_binary64_witness :
  ps (Fin (Q2Qc (1 # 2))) 100 = Done one.
Proof.
  destruct (ps_depth_binary64 (Q2Qc (1 # 2)) 3 100) as (vm & vn & _ & _ & _ & _ & H).
  - split; discriminate.
  - lia.
  - lia.
  - apply H. lia.
Defined.

End Binary64Extras.

(** ** The validator of duality.py *)

Section ValidatorBinary64.
Import Binary64 Floats Float64 Metrics64 RecursivePhi64 Terms64.
Local Open Scope Q_scope.

Lemma round_opp (q : Q) : round (- q) == - round q.
Proof.
  unfold round.
  destruct (Qcompare_spec q 0) as [E | E | E];
    destruct (Qcompare_spec (- q) 0) as [F | F | F];
    try (exfalso; Lqa.lra).
  - reflexivity.
  - rewrite Qopp_involutive. reflexivity.
  - rewrite (round_pos_comp (- - q) q); [reflexivity | | Lqa.lra].
    apply Qopp_involutive.
Qed.

(** Rounding does not carry a number over a float. *)
Lemma round_within (d b : Q) :
  0 <= b -> round b == b -> - b <= d <= b -> - b <= round d <= b.
Proof.
  intros Hb Eb [H1 H2].
  destruct (Qlt_le_dec d 0) as [Hneg | Hpos].
  - assert (Hm : round (- d) <= b).
    { rewrite <- Eb. apply round_mono; Lqa.lra. }
    assert (H0 : 0 <= round (- d)) by (apply round_nonneg; Lqa.lra).
    rewrite round_opp in Hm, H0. split; Lqa.lra.
  - assert (Hm : round d <= b) by (rewrite <- Eb; now apply round_mono).
    pose proof (round_nonneg d Hpos). split; Lqa.lra.
Qed.

(** The closed form and the step-by-step forms, at most [13 * 2^-54]
    apart. *)
Lemma ps_near_steps (x : Qc) (n : Z) :
  0 <= x <= 1 -> (0 <= n <= 1474)%Z ->
  exists v w : Qc,
    ps (Fin x) n = Done (Fin v)
    /\ Nat.iter (Z.to_nat n) step (Fin x) = Fin w
    /\ 0 <= w <= 1
    /\ - (13 # 2 ^ 54) <= v - w <= 13 # 2 ^ 54.
Proof.
  intros Hx Hn.
  destruct (ps_unit x n Hx Hn) as [(v & Ev & Vv) _].
  destruct (steps_near_closed_form (Z.to_nat n) x Hx)
    as (w & Ew & Hw & L & U).
  rewrite Z2Nat.id in L, U by lia.
  destruct (ps_value_near x n Hx Hn) as [L' U'].
  exists v, w. refine (conj Ev (conj Ew (conj Hw _))).
  rewrite <- Vv in L', U'.
  change (2 ^ 54)%positive with 18014398509481984%positive in *.
  revert L U L' U'. generalize (closed_form x n).
  generalize (this v). generalize (this w).
  intros a b c L U L' U'. split; Lqa.lra.
Qed.

Lemma within_near (tol v w : Qc) (b : Q) :
  0 <= b -> round b == b -> b < tol -> b <= 1 ->
  - b <= v - w <= b ->
  Duality64.within (Fin tol) (Fin w) (Fin v) = true.
Proof.
  intros Hb Eb Htol Hb1 Hd. unfold Duality64.within, sub.
  destruct (round_within (v - w) b Hb Eb Hd) as [R1 R2].
  assert (Hfin : finish (v - w) = Fin (Q2Qc (round (v - w)))).
  { unfold finish. cbv zeta.
    destruct (Qle_bool (2 ^ 1024) (Qabs (round (v - w)))) eqn:E;
      [| reflexivity].
    exfalso. apply Qle_bool_iff in E.
    assert (Ha : Qabs (round (v - w)) <= b) by (apply Qabs_Qle_condition; now split).
    assert (H1 : 1 < 2 ^ 1024) by reflexivity.
    set (a := Qabs _) in *. set (c := 2 ^ 1024) in *. Lqa.lra. }
  rewrite Hfin. cbn [abs less].
  destruct (Qle_bool tol (Q2Qc (Qabs (Q2Qc (round (v - w)))))) eqn:E;
    [| reflexivity].
  exfalso. apply Qle_bool_iff in E. rewrite !Q2Qc_this in E.
  assert (Ha : Qabs (round (v - w)) <= b) by (apply Qabs_Qle_condition; now split).
  set (a := Qabs _) in *. Lqa.lra.
Qed.

Lemma less_Fin_lt (p q : Qc) : p < q -> less (Fin p) (Fin q) = true.
Proof.
  intros H. cbn [less]. destruct (Qle_bool q p) eqn:E; [| reflexivity].
  apply Qle_bool_iff in E. exfalso. Lqa.lra.
Qed.

Lemma less_Fin_ge (p q : Qc) : q <= p -> less (Fin p) (Fin q) = false.
Proof.
  intros H. cbn [less]. apply Qle_bool_iff in H. now rewrite H.
Qed.

(** The conditional expression of the engine and the [max]/[min] of the
    other forms cut every float alike, except "not a number", which the
    first lets through and the second turns into [1.0]. *)
Lemma clip_is_clamp64 (a : float) :
  a <> NaN -> PsietrEngine64.clip a = clamp a.
Proof.
  intros Hn. destruct a as [q | [|] |]; [| reflexivity | reflexivity | easy].
  unfold PsietrEngine64.clip, zero, one.
  destruct (Qlt_le_dec q 0) as [Hneg | H0].
  - rewrite (less_Fin_lt q (Q2Qc 0)) by exact Hneg.
    unfold clamp, max, min, zero, one.
    rewrite (less_Fin_lt q (Q2Qc 1)) by (change (this (Q2Qc 1)) with 1; Lqa.lra).
    now rewrite (less_Fin_ge (Q2Qc 0) q)
      by (change (this (Q2Qc 0)) with 0; Lqa.lra).
  - rewrite (less_Fin_ge q (Q2Qc 0)) by exact H0.
    destruct (Qlt_le_dec 1 q) as [Hbig | H1].
    + rewrite (less_Fin_lt (Q2Qc 1) q) by exact Hbig.
      unfold clamp, max, min, zero, one.
      rewrite (less_Fin_ge q (Q2Qc 1)) by (change (this (Q2Qc 1)) with 1; Lqa.lra).
      reflexivity.
    + rewrite (less_Fin_ge (Q2Qc 1) q) by exact H1.
      symmetry. apply clamp_fin_id. now split.
Qed.

End ValidatorBinary64.

Section ValidatorClaims.
Import Binary64 Floats Float64 Metrics64 RecursivePhi64 Terms64.
Local Open Scope Q_scope.

Lemma engine_phi_smooth64 (a : float) (n : Z) :
  a <> NaN -> PsietrEngine64.phi_smooth a n = phi_smooth_recursive a n.
Proof.
  intros Hn. unfold PsietrEngine64.phi_smooth. cbv zeta.
  rewrite (clip_is_clamp64 a Hn), recursive_everywhere64.
  destruct (clamp_finite_unit a) as (v & -> & Hv).
  destruct (iter_step_unit (Z.to_nat n) v Hv) as (w & -> & Hw).
  rewrite clip_is_clamp64 by discriminate. now apply clamp_fin_id.
Qed.

Lemma ps_clamps_first64 (a : float) (n : Z) : ps a n = ps (clamp a) n.
Proof.
  unfold ps. cbv zeta.
  change (max zero (min one (clamp a))) with (clamp (clamp a)).
  change (max zero (min one a)) with (clamp a).
  now rewrite clamp_idem64.
Qed.

Lemma step_nan : step NaN = NaN.
Proof. reflexivity. Qed.

Lemma engine_phi_smooth_nan (n : Z) : PsietrEngine64.phi_smooth NaN n = NaN.
Proof.
  unfold PsietrEngine64.phi_smooth. cbv zeta.
  change (PsietrEngine64.clip NaN) with NaN.
  assert (H : forall k, Nat.iter k step NaN = NaN).
  { induction k as [| k IH]; [reflexivity |].
    now rewrite Nat.iter_succ, IH. }
  now rewrite H.
Qed.

Lemma within_nan (tol v : float) : Duality64.within tol NaN v = false.
Proof. unfold Duality64.within. now destruct v as [q | s |]. Qed.

Lemma thirteen_ulps : round (13 # 2 ^ 54) == 13 # 2 ^ 54.
Proof. vm_compute. reflexivity. Qed.



End ValidatorClaims.

(** ** The convergence rate *)

Section RateBinary64.
Import Binary64 Floats Float64 RecursivePhi64 Terms64.
Local Open Scope Q_scope.

(** A float of the unit interval. *)
Lemma unit_float_item (trace : list float) (i : nat) :
  Forall (fun a => exists v : Qc, a = Fin v /\ 0 <= v <= 1) trace ->
  exists v : Qc, item trace i = Fin v /\ 0 <= v <= 1.
Proof.
  intros Hall. unfold item. revert i.
  induction Hall as [| a l Ha Hl IH]; intros [| i]; cbn [nth];
    try (exists (Q2Qc 0); split; [reflexivity | split; discriminate]).
  - exact Ha.
  - apply IH.
Qed.

Lemma trace_loop_unit64 (k : nat) :
  forall (current : Qc) (trace : list float),
  0 <= current <= 1 ->
  Forall (fun a => exists v : Qc, a = Fin v /\ 0 <= v <= 1) trace ->
  Forall (fun a => exists v : Qc, a = Fin v /\ 0 <= v <= 1)
    (trace_loop k (Fin current) trace)
  /\ length (trace_loop k (Fin current) trace) = (length trace + k)%nat.
Proof.
  induction k as [| k IH]; intros current trace Hc Hall; cbn [trace_loop].
  - split; [exact Hall | lia].
  - rewrite (step_unit current Hc).
    assert (Hs : 0 <= Q2Qc (step_value current) <= 1)
      by now apply Q2Qc_unit, step_value_unit.
    rewrite (clamp_fin_id _ Hs).
    destruct (IH (Q2Qc (step_value current))
                (trace ++ [Fin (Q2Qc (step_value current))]) Hs) as [H1 H2].
    + apply Forall_app. split; [exact Hall |].
      constructor; [| constructor]. eexists. split; [reflexivity | exact Hs].
    + split; [exact H1 |]. rewrite H2, length_app. simpl. lia.
Qed.

Lemma delta_unit (a b : Qc) :
  0 <= a <= 1 -> 0 <= b <= 1 ->
  exists d : Qc, abs (sub (Fin a) (Fin b)) = Fin d /\ 0 <= d <= 1.
Proof.
  intros Ha Hb. unfold sub.
  destruct (round_within (a - b) 1) as [R1 R2];
    [discriminate | apply round_1 | split; Lqa.lra |].
  assert (Hab : Qabs (round (a - b)) <= 1)
    by (apply Qabs_Qle_condition; now split).
  assert (Hfin : finish (a - b) = Fin (Q2Qc (round (a - b)))).
  { unfold finish. cbv zeta.
    destruct (Qle_bool (2 ^ 1024) (Qabs (round (a - b)))) eqn:E;
      [| reflexivity].
    exfalso. apply Qle_bool_iff in E.
    assert (H1 : 1 < 2 ^ 1024) by reflexivity.
    set (u := Qabs _) in *. set (c := 2 ^ 1024) in *. Lqa.lra. }
  rewrite Hfin. cbn [abs]. eexists. split; [reflexivity |].
  rewrite !Q2Qc_this. split; [apply Qabs_nonneg | exact Hab].
Qed.

Lemma fsum_bound (l : list float) :
  Forall (fun a => exists v : Qc, a = Fin v /\ 0 <= v <= 1) l ->
  forall (s : Qc) (m : Z),
  (0 <= m)%Z -> (m + Z.of_nat (length l) < 2 ^ 53)%Z ->
  0 <= s <= inject_Z m ->
  exists s' : Qc, fold_left add l (Fin s) = Fin s'
    /\ 0 <= s' <= inject_Z (m + Z.of_nat (length l)).
Proof.
  induction 1 as [| a l (v & -> & Hv) Hl IH]; intros s m Hm Hlen Hs.
  - exists s. split; [reflexivity |]. simpl. now rewrite Z.add_0_r.
  - cbn [fold_left add]. cbn [length] in Hlen.
    destruct (finish_between (s + v) 0 (m + 1)) as [-> Hr];
      [lia | lia | |].
    { rewrite inject_Z_plus. change (inject_Z 0) with 0.
      change (inject_Z 1) with 1. split; Lqa.lra. }
    destruct (IH (Q2Qc (round (s + v))) (m + 1)%Z) as (s' & E & Hs');
      [lia | lia | now rewrite Q2Qc_this |].
    exists s'. split; [exact E |].
    replace (m + Z.of_nat (length (Fin v :: l)))%Z
      with (m + 1 + Z.of_nat (length l))%Z by (cbn [length]; lia).
    exact Hs'.
Qed.

(** [phi_convergence_rate] on binary64: [0.0] when [iterations <= 0],
    and otherwise a float in [[0,1]], whatever the float [x] (the
    infinities and "not a number" too). *)
Theorem convergence_rate_binary64 (x : float) (iterations : Z) :
  ((iterations <= 0)%Z -> phi_convergence_rate x iterations = Done zero)
  /\ ((0 < iterations < 2 ^ 53)%Z ->
      exists r : Qc, phi_convergence_rate x iterations = Done (Fin r)
                     /\ 0 <= r <= 1).
Proof.
  unfold phi_convergence_rate, phi_convergence_trace. cbv zeta.
  destruct (clamp_finite_unit x) as (c & -> & Hc).
  destruct (trace_loop_unit64 (Z.to_nat iterations) c [Fin c] Hc)
    as [Hall Hlen].
  { constructor; [| constructor]. now exists c. }
  cbn [length] in Hlen.
  set (trace := trace_loop (Z.to_nat iterations) (Fin c) [Fin c]) in *.
  split.
  - intros Hn. replace (length trace) with 1%nat by lia. reflexivity.
  - intros Hn.
    assert (Hl : length trace = S (Z.to_nat iterations)) by lia.
    destruct (Nat.ltb_spec (length trace) 2) as [Hlt | _]; [lia |].
    rewrite Hl.
    replace (S (Z.to_nat iterations) - 1)%nat with (Z.to_nat iterations)
      by lia.
    set (deltas := (fun i => abs (sub (item trace (i + 1)) (item trace i)))
                     <$> seq 0 (Z.to_nat iterations)).
    assert (Hd : Forall (fun a => exists v : Qc, a = Fin v /\ 0 <= v <= 1)
                   deltas).
    { unfold deltas. apply Forall_fmap, Forall_forall. intros i _. simpl.
      destruct (unit_float_item trace (i + 1) Hall) as (a & -> & Ha).
      destruct (unit_float_item trace i Hall) as (b & -> & Hb).
      now apply delta_unit. }
    assert (Hdl : length deltas = Z.to_nat iterations).
    { unfold deltas. now rewrite length_fmap, length_seq. }
    destruct (fsum_bound deltas Hd (Q2Qc 0) 0) as (s & Es & Hs);
      [lia | lia | split; discriminate |].
    unfold fsum, zero. rewrite Es, Hdl, Z2Nat.id by lia.
    rewrite Hdl, Z2Nat.id, Z.add_0_l in Hs by lia.
    destruct (of_int_small iterations) as (w & -> & Hw & Ew); [lia |].
    cbn [mbind outcome_bind].
    assert (Hw1 : 1 <= w).
    { rewrite Ew. change 1 with (inject_Z 1). rewrite <- Zle_Qle. lia. }
    unfold div, is_zero.
    assert (Hnz : Qeq_bool w 0 = false).
    { destruct (Qeq_bool w 0) eqn:E; [| reflexivity].
      apply Qeq_bool_iff in E. exfalso. Lqa.lra. }
    rewrite Hnz. cbn [quotient].
    destruct (finish_unit (s / w)) as [-> Hr].
    + rewrite <- Ew in Hs.
      split; [apply Qle_shift_div_l | apply Qle_shift_div_r]; Lqa.lra.
    + eexists. split; [reflexivity |]. now apply Q2Qc_unit.
Qed.

Lemma convergence_rate_binary64_witness :
  phi_convergence_rate (Fin (Q2Qc (1 # 2))) (-3) = Done zero
  /\ exists r : Qc,
       phi_convergence_rate (Fin (Q2Qc (1 # 2))) 10 = Done (Fin r)
       /\ 0 <= r <= 1.
Proof.
  destruct (convergence_rate_binary64 (Fin (Q2Qc (1 # 2))) (-3)) as [H1 _].
  destruct (convergence_rate_binary64 (Fin (Q2Qc (1 # 2))) 10) as [_ H2].
  split; [apply H1; lia | apply H2; lia].
Defined.

End RateBinary64.
